(** * cardex: the AMM pricing engine ([cardex/dexs/amm/amm_types.py]) and the
      selection of UTxOs ([charli3_dendrite/backend/blockfrost/models.py])

    A shallow embedding of the pool-state classes of [amm_types.py], of the
    UTxO selection of the Blockfrost models, and the properties of their
    arithmetic.

    - Python exceptions are an error monad [result].
    - Python [int] is [Z]; Python [float] is IEEE-754 binary64, embedded as
      Rocq's primitive [float]; a value that may be either is a [pynum].
    - [Assets] (a dict of unit -> quantity) is an association list. *)

From Stdlib Require Import ZArith List String Bool Lia Floats.
Import ListNotations.

Local Open Scope string_scope.
Local Open Scope Z_scope.

(* ================================================================= *)
(** * Exceptions *)

(** The exception classes the module can raise.  [ValueError] and
    [NotImplementedError] carry the message the source builds;
    [ZeroDivisionError] and [OverflowError] are raised by the arithmetic.
    [IndexError] is the failure of a look-up by position (the accessors of
    [Assets] below, and a list index). *)
Inductive exn : Type :=
| ValueError (msg : string)
| NotImplementedError (msg : string)
| ZeroDivisionError
| OverflowError
| IndexError.

Inductive result (A : Type) : Type :=
| Ok (a : A)
| Raise (e : exn).

Arguments Ok {A} a.
Arguments Raise {A} e.

Definition bind {A B : Type} (c : result A) (k : A -> result B) : result B :=
  match c with
  | Ok a => k a
  | Raise e => Raise e
  end.

Notation "x <- c ;; k" := (bind c (fun x => k))
  (at level 61, c at next level, right associativity).

(** The error kinds of the design, as a view on the exceptions.  The two
    arity messages are the ones of [get_amount_out]/[get_amount_in] and of
    [_get_y]; the other [ValueError]s that the classes raise themselves
    report a unit that is not one of the pool's. *)
Inductive error_kind : Type :=
| InvalidInput
| UnknownAsset
| InsufficientLiquidity
| Unimplemented
| ArithmeticFailure.

Definition one_token_msg : string := "Asset should only have one token.".
Definition one_input_msg : string := "Only one input asset allowed.".
Definition nan_msg : string := "cannot convert float NaN to integer".

Definition kind_of (e : exn) : error_kind :=
  match e with
  | ValueError msg =>
      if (String.eqb msg one_token_msg || String.eqb msg one_input_msg)%bool
      then InvalidInput
      else if String.eqb msg nan_msg then ArithmeticFailure
      else UnknownAsset
  | NotImplementedError _ => Unimplemented
  | ZeroDivisionError | OverflowError | IndexError => ArithmeticFailure
  end.

(* ================================================================= *)
(** * Python numbers *)

Module PyNum.

(** A Python number of the module: an [int] or a [float]. *)
Inductive pynum : Type :=
| PyInt (z : Z)
| PyFloat (f : float).

Definition sign_of (z : Z) : bool := z <? 0.

(** A non-zero integer as an (unnormalised) finite binary number. *)
Definition sf_of_Z (z : Z) : spec_float :=
  match z with
  | Z0 => S754_zero false
  | Zpos p => S754_finite false p 0
  | Zneg p => S754_finite true p 0
  end.

Definition sf_is_infinity (x : spec_float) : bool :=
  match x with
  | S754_infinity _ => true
  | _ => false
  end.

(** [float(z)]: the nearest double, ties to even; an [int] beyond the
    range of a double raises [OverflowError]. *)
Definition float_of_int (z : Z) : result float :=
  let x := binary_normalize prec emax z 0 false in
  if sf_is_infinity x then Raise OverflowError else Ok (SF2Prim x).

(** [a / b] on two ints: the correctly rounded quotient of the exact
    integers.  A zero numerator takes the sign of the quotient. *)
Definition int_truediv (a b : Z) : result float :=
  if b =? 0 then Raise ZeroDivisionError
  else if a =? 0 then Ok (SF2Prim (S754_zero (sign_of b)))
  else
    let x := SF64div (sf_of_Z a) (sf_of_Z b) in
    if sf_is_infinity x then Raise OverflowError else Ok (SF2Prim x).

(** [a // b] on two ints: floor division. *)
Definition int_floordiv (a b : Z) : result Z :=
  if b =? 0 then Raise ZeroDivisionError else Ok (a / b).

Definition to_float (x : pynum) : result float :=
  match x with
  | PyInt z => float_of_int z
  | PyFloat f => Ok f
  end.

(** Binary operators: two ints stay in [int]; as soon as one operand is
    a float the other is converted and the double operation is used. *)
Definition arith (iop : Z -> Z -> Z) (fop : float -> float -> float)
           (x y : pynum) : result pynum :=
  match x, y with
  | PyInt a, PyInt b => Ok (PyInt (iop a b))
  | _, _ =>
      fx <- to_float x ;;
      fy <- to_float y ;;
      Ok (PyFloat (fop fx fy))
  end.

Definition add := arith Z.add PrimFloat.add.
Definition sub := arith Z.sub PrimFloat.sub.
Definition mul := arith Z.mul PrimFloat.mul.

(** [x / y]: true division; a zero divisor raises [ZeroDivisionError]. *)
Definition truediv (x y : pynum) : result pynum :=
  match x, y with
  | PyInt a, PyInt b =>
      q <- int_truediv a b ;;
      Ok (PyFloat q)
  | _, _ =>
      fx <- to_float x ;;
      fy <- to_float y ;;
      if PrimFloat.eqb fy 0%float then Raise ZeroDivisionError
      else Ok (PyFloat (PrimFloat.div fx fy))
  end.

Definition abs (x : pynum) : pynum :=
  match x with
  | PyInt z => PyInt (Z.abs z)
  | PyFloat f => PyFloat (PrimFloat.abs f)
  end.

(** [x < 1]. *)
Definition lt_one (x : pynum) : bool :=
  match x with
  | PyInt z => z <? 1
  | PyFloat f => PrimFloat.ltb f 1%float
  end.

(** [int(x)]: truncation towards zero. *)
Definition trunc_sf (x : spec_float) : result Z :=
  match x with
  | S754_zero _ => Ok 0
  | S754_finite s m e =>
      let a := match e with
               | Zneg k => Z.shiftr (Zpos m) (Zpos k)
               | _ => Z.shiftl (Zpos m) e
               end in
      Ok (if s then - a else a)
  | S754_infinity _ => Raise OverflowError
  | S754_nan => Raise (ValueError nan_msg)
  end.

Definition to_int (x : pynum) : result Z :=
  match x with
  | PyInt z => Ok z
  | PyFloat f => trunc_sf (Prim2SF f)
  end.

Section Pow.
(** The C library's [pow] on doubles, which [float.__pow__] calls. *)
Variable libm_pow : float -> float -> float.

(** [x ** n] for a literal exponent [n >= 0]: exact on an int; on a
    float the library call, whose overflow raises [OverflowError]. *)
Definition pow (x : pynum) (n : Z) : result pynum :=
  match x with
  | PyInt z => Ok (PyInt (z ^ n))
  | PyFloat f =>
      w <- float_of_int n ;;
      let r := libm_pow f w in
      if (PrimFloat.is_infinity r && negb (PrimFloat.is_infinity f))%bool
      then Raise OverflowError
      else Ok (PyFloat r)
  end.
End Pow.

(** A reference [pow]: the correctly rounded power for the exponents 2
    and 3 that the module uses, by exact integer arithmetic on the
    mantissa. *)
Definition sf_pow_pos (x : spec_float) (n : positive) : spec_float :=
  match x with
  | S754_finite s m e =>
      binary_normalize prec emax
        (if (s && Z.odd (Zpos n))%bool then Zneg (Pos.pow m n) else Zpos (Pos.pow m n))
        (e * Zpos n) false
  | S754_zero s => S754_zero (s && Z.odd (Zpos n))
  | S754_infinity s => S754_infinity (s && Z.odd (Zpos n))
  | S754_nan => S754_nan
  end.

Definition rounded_pow (f w : float) : float :=
  match trunc_sf (Prim2SF w) with
  | Ok (Zpos n) => SF2Prim (sf_pow_pos (Prim2SF f) n)
  | _ => 1%float
  end.

End PyNum.
Import PyNum.

(* ================================================================= *)
(** * Assets *)

Module Assets.

(** Modelled from the spec: the class [Assets] of
    [cardex/dataclasses/models.py], which the module imports and whose
    source is missing.  An asset bundle maps unit identifiers to integer
    quantities and has a stable iteration order. *)
Definition t : Type := list (string * Z).

(** Modelled from the spec: [len(asset)], the number of distinct units. *)
Definition len (a : t) : Z := Z.of_nat (List.length a).

(** Modelled from the spec: the constructor called with the single
    keyword [u = q]. *)
Definition single (u : string) (q : Z) : t := [(u, q)].

(** Modelled from the spec: [asset.unit()], the unit identifier of the
    first (for a swap leg: the sole) entry, read by position as
    [quantity()] is; an empty bundle raises [IndexError].  The design text
    lets [unit()] fail on every bundle that is not a single unit; the source
    does not rely on that: the pool states check the arity of a swap leg
    themselves, with the guards on [len] of [get_amount_out],
    [get_amount_in] and [_get_y], and the guard of [_get_y] sits behind
    calls of [unit()] on the same bundle, where an accessor that counted
    the entries would leave it without effect. *)
Definition unit (a : t) : result string :=
  match a with
  | (u, _) :: _ => Ok u
  | [] => Raise IndexError
  end.

(** Modelled from the spec: [asset.quantity(index)] returns the amount of
    the entry at the iteration position [index]. *)
Definition quantity_at (a : t) (index : nat) : result Z :=
  match nth_error a index with
  | Some (_, q) => Ok q
  | None => Raise IndexError
  end.

(** Modelled from the spec: [asset.quantity()], the amount of the first
    (for a swap leg: the sole) entry. *)
Definition quantity (a : t) : result Z := quantity_at a 0.

(** Modelled from the spec: [asset.root[u] = q], the assignment in the
    underlying dict: in place for a known key, appended for a new one. *)
Fixpoint set_root (a : t) (u : string) (q : Z) : t :=
  match a with
  | [] => [(u, q)]
  | (u', q') :: rest =>
      if String.eqb u' u then (u, q) :: rest
      else (u', q') :: set_root rest u q
  end.

End Assets.

(** Modelled from the spec: the constant [ONE_VALUE] of
    [cardex/dexs/core/constants.py], whose source is missing; the arity a
    swap leg must have ("exactly one unit"). *)
Definition ONE_VALUE : Z := 1.

(** [x in [a, b]] on unit identifiers. *)
Definition in_pair (x a b : string) : bool :=
  (String.eqb x a || String.eqb x b)%bool.

(** [self.volume_fee or 0]: [None] and [0] both give [0]. *)
Definition fee_or_0 (volume_fee : option Z) : Z :=
  match volume_fee with
  | Some f => f
  | None => 0
  end.

(** The message of the [ValueError] for a unit that is not the pool's. *)
Definition invalid_for_pool (u ua ub : string) : string :=
  ("Asset " ++ u ++ " is invalid for pool " ++ ua ++ "-" ++ ub)%string.

(* ================================================================= *)
(** * [AbstractConstantProductPoolState] *)

Module ConstantProduct.

(** The attributes of the pool state that the two methods read; they are
    provided by the base class [AbstractPoolState]. *)
Record state : Type := {
  unit_a : string;
  unit_b : string;
  reserve_a : Z;
  reserve_b : Z;
  volume_fee : option Z
}.

Definition get_amount_out (self : state) (asset : Assets.t) (precise : bool)
  : result (Assets.t * pynum) :=
  if negb (Assets.len asset =? ONE_VALUE) then Raise (ValueError one_token_msg)
  else
    u <- Assets.unit asset ;;
    if negb (in_pair u (unit_a self) (unit_b self))
    then Raise (ValueError (invalid_for_pool u (unit_a self) (unit_b self)))
    else
      let '(reserve_in, reserve_out, unit_out) :=
        if String.eqb u (unit_a self)
        then (reserve_a self, reserve_b self, unit_b self)
        else (reserve_b self, reserve_a self, unit_a self) in
      (* Calculate the amount out *)
      let fee_modifier := 10000 - fee_or_0 (volume_fee self) in
      q <- Assets.quantity asset ;;
      let numerator := q * fee_modifier * reserve_out in
      let denominator := q * fee_modifier + reserve_in * 10000 in
      out <- int_floordiv numerator denominator ;;
      let amount_out := Assets.single unit_out out in
      amount_out <-
        (if negb precise
         then out' <- int_floordiv numerator denominator ;;
              Ok (Assets.set_root amount_out unit_out out')
         else Ok amount_out) ;;
      q_out <- Assets.quantity amount_out ;;
      if q_out =? 0 then Ok (amount_out, PyInt 0)
      else
        (* Calculate the price impact *)
        let price_numerator :=
          reserve_out * q * denominator * fee_modifier
          - numerator * reserve_in * 10000 in
        let price_denominator := reserve_out * q * denominator * 10000 in
        price_impact <- int_truediv price_numerator price_denominator ;;
        Ok (amount_out, PyFloat price_impact).

Definition get_amount_in (self : state) (asset : Assets.t) (precise : bool)
  : result (Assets.t * pynum) :=
  if negb (Assets.len asset =? ONE_VALUE) then Raise (ValueError one_token_msg)
  else
    u <- Assets.unit asset ;;
    if negb (in_pair u (unit_a self) (unit_b self))
    then Raise (ValueError (invalid_for_pool u (unit_a self) (unit_b self)))
    else
      let '(reserve_in, reserve_out, unit_out) :=
        if String.eqb u (unit_b self)
        then (reserve_a self, reserve_b self, unit_a self)
        else (reserve_b self, reserve_a self, unit_b self) in
      (* Estimate the required input *)
      let fee_modifier := 10000 - fee_or_0 (volume_fee self) in
      q <- Assets.quantity asset ;;
      let numerator := q * 10000 * reserve_in in
      let denominator := (reserve_out - q) * fee_modifier in
      inp <- int_floordiv numerator denominator ;;
      let amount_in := Assets.single unit_out inp in
      amount_in <-
        (if negb precise
         then inp' <- int_floordiv numerator denominator ;;
              Ok (Assets.set_root amount_in unit_out inp')
         else Ok amount_in) ;;
      (* Estimate the price impact *)
      let price_numerator :=
        reserve_out * numerator * fee_modifier
        - q * denominator * reserve_in * 10000 in
      let price_denominator := reserve_out * numerator * 10000 in
      price_impact <- int_truediv price_numerator price_denominator ;;
      Ok (amount_in, PyFloat price_impact).

End ConstantProduct.

(* ================================================================= *)
(** * The Newton loops *)

(** [for _ in range(fuel): prev = x; x = step(x); if abs(x - prev) < 1: break]
    followed by the use of [x]: the shape of the two loops of the stable swap
    state. *)
Fixpoint newton (step : pynum -> result pynum) (fuel : nat) (x : pynum)
  : result pynum :=
  match fuel with
  | O => Ok x
  | S fuel' =>
      x' <- step x ;;
      diff <- PyNum.sub x' x ;;
      if lt_one (PyNum.abs diff) then Ok x' else newton step fuel' x'
  end.

(* ================================================================= *)
(** * [AbstractStableSwapPoolState] and [AbstractCommonStableSwapPoolState] *)

Module StableSwap.

(** [assets] holds the pool's two tokens; [unit_a], [unit_b] and
    [volume_fee] are provided by the base class; [asset_mulitipliers] is
    the two-element class attribute. *)
Record state : Type := {
  assets : Assets.t;
  unit_a : string;
  unit_b : string;
  asset_mulitipliers : Z * Z;
  volume_fee : option Z
}.

Definition reserve_a (self : state) : result Z :=
  q <- Assets.quantity_at (assets self) 0 ;;
  Ok (q * fst (asset_mulitipliers self)).

Definition reserve_b (self : state) : result Z :=
  q <- Assets.quantity_at (assets self) 1 ;;
  Ok (q * snd (asset_mulitipliers self)).

Definition amp (self : state) : Z := 75.

Definition n_coins : Z := 2.

Section Methods.

(** [self._get_ann()] is looked up in the class of [self]: the methods
    below are inherited unchanged by the common variant and reach its own
    [_get_ann] through this parameter. *)
Variable _get_ann : state -> Z.

(** The C library's [pow] on doubles. *)
Variable libm_pow : float -> float -> float.

Notation "x ** n" := (PyNum.pow libm_pow x n) (at level 30).

(** The body of the loop of [_get_d]: the next value of [d]. *)
Definition d_next (self : state) (ann s : Z) (d : pynum) : result pynum :=
  d3 <- d ** 3 ;;
  ra <- reserve_a self ;;
  rb <- reserve_b self ;;
  d_p <- truediv d3 (PyInt (n_coins ^ n_coins * ra * rb)) ;;
  dpn <- mul d_p (PyInt n_coins) ;;
  lhs <- add (PyInt (ann * s)) dpn ;;
  num <- mul d lhs ;;
  ad <- mul (PyInt (ann - 1)) d ;;
  ndp <- mul (PyInt (n_coins + 1)) d_p ;;
  den <- add ad ndp ;;
  truediv num den.

Definition _get_d (self : state) : result pynum :=
  let ann := _get_ann self in
  ra <- reserve_a self ;;
  rb <- reserve_b self ;;
  let s := ra + rb in
  if s =? 0 then Ok (PyInt 0)
  else
    (* Iterate until the change in value is <1 unit. *)
    newton (d_next self ann s) 256 (PyInt s).

(** The body of the loop of [_get_y]. *)
Definition y_next (c b d out : pynum) : result pynum :=
  o2 <- out ** 2 ;;
  num <- add o2 c ;;
  two_out <- mul (PyInt 2) out ;;
  tb <- add two_out b ;;
  den <- sub tb d ;;
  truediv num den.

Definition _get_y (self : state) (in_assets : Assets.t) (out_unit : string)
           (precise get_input : bool) : result Assets.t :=
  let ann := _get_ann self in
  d <- _get_d self ;;
  let subtract := if get_input then -1 else 1 in
  (* Make sure only one input supplied *)
  if Assets.len in_assets >? ONE_VALUE then Raise (ValueError one_input_msg)
  else
    u <- Assets.unit in_assets ;;
    if negb (in_pair u (unit_a self) (unit_b self))
    then Raise (ValueError "Invalid input token.")
    else if negb (in_pair out_unit (unit_a self) (unit_b self))
    then Raise (ValueError "Invalid output token.")
    else
      in_quantity <- Assets.quantity in_assets ;;
      io <-
        (if String.eqb u (unit_a self)
         then ra <- reserve_a self ;;
              Ok (ra + in_quantity * fst (asset_mulitipliers self) * subtract,
                  snd (asset_mulitipliers self))
         else rb <- reserve_b self ;;
              Ok (rb + in_quantity * snd (asset_mulitipliers self) * subtract,
                  fst (asset_mulitipliers self))) ;;
      let '(in_reserve, out_multiplier) := io in
      let s := in_reserve in
      d3 <- d ** 3 ;;
      c <- truediv d3 (PyInt (n_coins ^ 2 * ann * in_reserve)) ;;
      da <- truediv d (PyInt ann) ;;
      b <- add (PyInt s) da ;;
      out <- newton (y_next c b d) 256 d ;;
      out <- truediv out (PyInt out_multiplier) ;;
      v <- to_int out ;;
      let out_assets := Assets.single out_unit v in
      if negb precise
      then v' <- to_int out ;; Ok (Assets.set_root out_assets out_unit v')
      else Ok out_assets.

(** [int(q * num / den)] on ints: the fee scaling of the two methods. *)
Definition scale (q num den : Z) : result Z :=
  x <- int_truediv (q * num) den ;;
  to_int (PyFloat x).

(** [self.reserve_b / multipliers[1] if unit == self.unit_b
     else self.reserve_a / multipliers[0]] *)
Definition unscaled_reserve (self : state) (unit : string) : result float :=
  if String.eqb unit (unit_b self)
  then rb <- reserve_b self ;; int_truediv rb (snd (asset_mulitipliers self))
  else ra <- reserve_a self ;; int_truediv ra (fst (asset_mulitipliers self)).

Definition get_amount_out (self : state) (asset : Assets.t)
           (precise fee_on_input : bool) : result (Assets.t * pynum) :=
  let fee_modifier := 10000 - fee_or_0 (volume_fee self) in
  in_asset <-
    (if fee_on_input
     then u <- Assets.unit asset ;;
          q <- Assets.quantity asset ;;
          v <- scale q fee_modifier 10000 ;;
          Ok (Assets.single u v)
     else Ok asset) ;;
  u <- Assets.unit asset ;;
  let out_unit := if String.eqb u (unit_b self) then unit_a self else unit_b self in
  out_asset <- _get_y self in_asset out_unit precise false ;;
  out_reserve <- unscaled_reserve self out_unit ;;
  q <- Assets.quantity out_asset ;;
  diff <- sub (PyFloat out_reserve) (PyInt q) ;;
  v <- to_int diff ;;
  uo <- Assets.unit out_asset ;;
  let out_asset := Assets.set_root out_asset uo v in
  out_asset <-
    (if negb fee_on_input
     then q <- Assets.quantity out_asset ;;
          v <- scale q fee_modifier 10000 ;;
          uo <- Assets.unit out_asset ;;
          Ok (Assets.set_root out_asset uo v)
     else Ok out_asset) ;;
  out_asset <-
    (if precise
     then q <- Assets.quantity out_asset ;;
          uo <- Assets.unit out_asset ;;
          Ok (Assets.set_root out_asset uo q)
     else Ok out_asset) ;;
  Ok (out_asset, PyInt 0).

Definition get_amount_in (self : state) (asset : Assets.t)
           (precise fee_on_input : bool) : result (Assets.t * pynum) :=
  let fee_modifier := 10000 - fee_or_0 (volume_fee self) in
  out_asset <-
    (if negb fee_on_input
     then u <- Assets.unit asset ;;
          q <- Assets.quantity asset ;;
          v <- scale q 10000 fee_modifier ;;
          Ok (Assets.single u v)
     else Ok asset) ;;
  u <- Assets.unit asset ;;
  let in_unit := if String.eqb u (unit_b self) then unit_a self else unit_b self in
  in_asset <- _get_y self out_asset in_unit precise true ;;
  in_reserve <- unscaled_reserve self in_unit ;;
  q <- Assets.quantity in_asset ;;
  diff <- sub (PyInt q) (PyFloat in_reserve) ;;
  v <- to_int diff ;;
  ui <- Assets.unit in_asset ;;
  let in_asset := Assets.set_root in_asset ui v in
  in_asset <-
    (if fee_on_input
     then q <- Assets.quantity in_asset ;;
          v <- scale q 10000 fee_modifier ;;
          ui <- Assets.unit in_asset ;;
          Ok (Assets.set_root in_asset ui v)
     else Ok in_asset) ;;
  in_asset <-
    (if precise
     then q <- Assets.quantity in_asset ;;
          ui <- Assets.unit in_asset ;;
          Ok (Assets.set_root in_asset ui q)
     else Ok in_asset) ;;
  Ok (in_asset, PyInt 0).

End Methods.

End StableSwap.

(** [AbstractStableSwapPoolState]: the derived amp value of the original
    stableswap paper. *)
Module Standard.

Definition _get_ann (self : StableSwap.state) : Z :=
  StableSwap.amp self * StableSwap.n_coins ^ StableSwap.n_coins.

Definition _get_d := StableSwap._get_d _get_ann.
Definition _get_y := StableSwap._get_y _get_ann.
Definition get_amount_out := StableSwap.get_amount_out _get_ann.
Definition get_amount_in := StableSwap.get_amount_in _get_ann.

End Standard.

(** [AbstractCommonStableSwapPoolState]: the common variant, which
    overrides [_get_ann] and nothing else. *)
Module Common.

Definition _get_ann (self : StableSwap.state) : Z :=
  StableSwap.amp self * StableSwap.n_coins.

Definition _get_d := StableSwap._get_d _get_ann.
Definition _get_y := StableSwap._get_y _get_ann.
Definition get_amount_out := StableSwap.get_amount_out _get_ann.
Definition get_amount_in := StableSwap.get_amount_in _get_ann.

End Common.

(* ================================================================= *)
(** * [AbstractConstantLiquidityPoolState] *)

Module ConstantLiquidity.

(** Neither method reads the pool state or its arguments. *)
Definition get_amount_out {state : Type} (self : state) (asset : Assets.t)
           (precise : bool) : result (Assets.t * pynum) :=
  Raise (NotImplementedError "CLPP amount out is not yet implemented.").

Definition get_amount_in {state : Type} (self : state) (asset : Assets.t)
           (precise : bool) : result (Assets.t * pynum) :=
  Raise (NotImplementedError "CLPP amount in is not yet implemented.").

End ConstantLiquidity.

(* ================================================================= *)
(** * The Blockfrost models ([charli3_dendrite/backend/blockfrost/models.py]) *)

Module Blockfrost.

(** [AssetAmount]: a unit and its quantity, both strings as the API sends
    them. *)
Record AssetAmount : Type := {
  unit : string;
  quantity : string
}.

(** [UTxO]: the fields of the model; the three optional ones default to
    [None]. *)
Record UTxO : Type := {
  address : string;
  tx_hash : string;
  output_index : Z;
  amount : list AssetAmount;
  block : string;
  data_hash : option string;
  inline_datum : option string;
  reference_script_hash : option string
}.

(** [UTxOList]: the list model whose [root] is a [list[UTxO]]; the loop
    below visits the elements of [root] in order. *)
Definition UTxOList : Type := list UTxO.

Section Select.

(** The built-in [int] applied to a [str]: its reading of a literal, and
    the exception it raises on any other string, are those of the
    interpreter. *)
Variable int_of_str : string -> result Z.

(** [int(utxo.amount[0].quantity)]: an empty [amount] raises [IndexError]. *)
Definition first_quantity (utxo : UTxO) : result Z :=
  match amount utxo with
  | [] => Raise IndexError
  | a :: _ => int_of_str (quantity a)
  end.

(** The [for] loop of [select_utxos_for_swaps], from the UTxOs still to
    visit and the two accumulators: the UTxO is appended before its
    quantity is read, and the loop breaks as soon as the total reaches the
    required amount. *)
Fixpoint select_loop (utxos : list UTxO) (required_amount : Z)
         (selected_utxos : list UTxO) (total_amount : Z)
  : result (list UTxO) :=
  match utxos with
  | [] => Ok selected_utxos
  | utxo :: rest =>
      let selected_utxos := (selected_utxos ++ [utxo])%list in
      q <- first_quantity utxo ;;
      let total_amount := total_amount + q in
      if total_amount >=? required_amount then Ok selected_utxos
      else select_loop rest required_amount selected_utxos total_amount
  end.

Definition select_utxos_for_swaps (utxos : UTxOList) (required_amount : Z)
  : result (list UTxO) :=
  select_loop utxos required_amount [] 0.

End Select.

End Blockfrost.

(* ================================================================= *)
(** * The vocabulary of the properties *)

(** ** Constant product *)

(** The (input reserve, output reserve, output unit) of [get_amount_out] for
    an input of unit [u]. *)
Inductive out_side (self : ConstantProduct.state) (u : string)
  : Z -> Z -> string -> Prop :=
| out_side_a :
    u = ConstantProduct.unit_a self ->
    out_side self u (ConstantProduct.reserve_a self)
             (ConstantProduct.reserve_b self) (ConstantProduct.unit_b self)
| out_side_b :
    u <> ConstantProduct.unit_a self ->
    u = ConstantProduct.unit_b self ->
    out_side self u (ConstantProduct.reserve_b self)
             (ConstantProduct.reserve_a self) (ConstantProduct.unit_a self).

(** The same for [get_amount_in], where [u] is the unit of the desired
    output. *)
Inductive in_side (self : ConstantProduct.state) (u : string)
  : Z -> Z -> string -> Prop :=
| in_side_b :
    u = ConstantProduct.unit_b self ->
    in_side self u (ConstantProduct.reserve_a self)
            (ConstantProduct.reserve_b self) (ConstantProduct.unit_a self)
| in_side_a :
    u <> ConstantProduct.unit_b self ->
    u = ConstantProduct.unit_a self ->
    in_side self u (ConstantProduct.reserve_b self)
            (ConstantProduct.reserve_a self) (ConstantProduct.unit_b self).

(** The output quantity as the design states it. *)
Definition amount_out_formula (q volume_fee reserve_in reserve_out : Z) : Z :=
  (q * (10000 - volume_fee) * reserve_out)
  / (q * (10000 - volume_fee) + reserve_in * 10000).

Definition pool_1M : ConstantProduct.state :=
  {| ConstantProduct.unit_a := "A";
     ConstantProduct.unit_b := "B";
     ConstantProduct.reserve_a := 1000000;
     ConstantProduct.reserve_b := 1000000;
     ConstantProduct.volume_fee := Some 30 |}.

Definition pool_100 : ConstantProduct.state :=
  {| ConstantProduct.unit_a := "A";
     ConstantProduct.unit_b := "B";
     ConstantProduct.reserve_a := 100;
     ConstantProduct.reserve_b := 100;
     ConstantProduct.volume_fee := Some 30 |}.

(** ** The Newton loop *)

(** [k] applications of the loop body, from the start value: the iterates
    D_0, D_1, ... of the design. *)
Fixpoint iterate (step : pynum -> result pynum) (k : nat) (x : pynum)
  : result pynum :=
  match k with
  | O => Ok x
  | S k' => y <- step x ;; iterate step k' y
  end.

(** The test of the loop: [abs(x' - x) < 1]. *)
Definition close (x' x : pynum) : result bool :=
  diff <- PyNum.sub x' x ;;
  Ok (lt_one (PyNum.abs diff)).

(** No iterate up to the [k]-th (excluded) met the tolerance. *)
Definition not_close_before (step : pynum -> result pynum) (x : pynum) (k : nat)
  : Prop :=
  forall j, (1 <= j < k)%nat ->
    exists a b, iterate step (j - 1) x = Ok a /\ iterate step j x = Ok b
                /\ close b a = Ok false.

(** The exceptions of the arithmetic. *)
Definition arithmetic (e : exn) : Prop :=
  e = ZeroDivisionError \/ e = OverflowError.

(** ** Stable swap *)

(** The recurrence of the design for two coins:
    [D_p = D^3 / (n^n * x * y)] and
    [D' = D * (ann * S + D_p * n) / ((ann - 1) * D + (n + 1) * D_p)]
    with [n = 2]. *)
Definition newton_D_step (libm_pow : float -> float -> float)
           (ann S x y : Z) (D : pynum) : result pynum :=
  D3 <- PyNum.pow libm_pow D 3 ;;
  D_p <- truediv D3 (PyInt (4 * x * y)) ;;
  t <- mul D_p (PyInt 2) ;;
  u <- add (PyInt (ann * S)) t ;;
  num <- mul D u ;;
  v <- mul (PyInt (ann - 1)) D ;;
  w <- mul (PyInt 3) D_p ;;
  den <- add v w ;;
  truediv num den.

(** A pool of the units A and B with the default multipliers and a fee of
    30 basis points. *)
Definition stable_pool (a b : Z) : StableSwap.state :=
  {| StableSwap.assets := [("A", a); ("B", b)];
     StableSwap.unit_a := "A";
     StableSwap.unit_b := "B";
     StableSwap.asset_mulitipliers := (1, 1);
     StableSwap.volume_fee := Some 30 |}.

(** ** Doubles that are integers *)

(** The canonical binary64 representation of an integer [0 < N < 2^53]. *)
Definition canon (N : Z) : spec_float :=
  S754_finite false (Z.to_pos (N * 2 ^ (prec - Zdigits2 N))) (Zdigits2 N - prec).

(** The double that is the integer [N], [0 < N < 2^53]. *)
Definition fl (N : Z) : float := SF2Prim (canon N).

(** A shift record with no bit lost so far. *)
Definition exact_record (m : Z) : shr_record :=
  {| shr_m := m; shr_r := false; shr_s := false |}.

(** The mantissa [m] at the exponent [e <= 0] is the integer [a]:
    [m * 2^e = a]. *)
Definition holds (m : positive) (e : Z) (a : Z) : Prop :=
  e <= 0 /\ Zpos m = a * 2 ^ (- e).

(** The value of the double [f] is the integer [N]. *)
Definition represents (f : float) (N : Z) : Prop :=
  exists m e, Prim2SF f = S754_finite false m e /\ holds m e N.

(** [|f - N| < 1] on the exact value of the double [f]. *)
Definition within_one (f : float) (N : Z) : bool :=
  match Prim2SF f with
  | S754_zero _ => Z.abs N <? 1
  | S754_finite s m e =>
      let v := if s then Zneg m else Zpos m in
      match e with
      | Zneg k => Z.abs (v - N * 2 ^ Zpos k) <? 2 ^ Zpos k
      | _ => Z.abs (v * 2 ^ e - N) <? 1
      end
  | _ => false
  end.

(** ** Doubles rounded to nearest *)

(** The rational [num / den] lies in [m, m + 1), at the place [l] of that
    interval: on [m], in its first half, on its middle, in its second
    half. *)
Definition located (num den m : Z) (l : location) : Prop :=
  match l with
  | loc_Exact => num = m * den
  | loc_Inexact Lt => m * den < num /\ 2 * num < (2 * m + 1) * den
  | loc_Inexact Eq => 2 * num = (2 * m + 1) * den
  | loc_Inexact Gt => (2 * m + 1) * den < 2 * num /\ num < (m + 1) * den
  end.

(** The binary number [x] is a positive double of 53 bits whose value is the
    integer [N]. *)
Definition fint (x : spec_float) (N : Z) : Prop :=
  exists m e,
    x = S754_finite false m e /\ Zdigits2 (Zpos m) = prec
    /\ - prec < e <= 900 /\ Zpos m * 2 ^ (e + prec) = N * 2 ^ prec.

(** The integer [c] is [z] rounded to 53 bits, to nearest: a multiple of
    the unit in the last place of [z], at most half a unit away. *)
Definition nearest53 (z c : Z) : Prop :=
  let g := 2 ^ Z.max 0 (Zdigits2 z - prec) in
  (exists j, c = j * g) /\ 2 * Z.abs (c - z) <= g.

(** ** Constant product: pools and formulas *)

(** The same pool with its two sides stored the other way round. *)
Definition swap_sides (self : ConstantProduct.state) : ConstantProduct.state :=
  {| ConstantProduct.unit_a := ConstantProduct.unit_b self;
     ConstantProduct.unit_b := ConstantProduct.unit_a self;
     ConstantProduct.reserve_a := ConstantProduct.reserve_b self;
     ConstantProduct.reserve_b := ConstantProduct.reserve_a self;
     ConstantProduct.volume_fee := ConstantProduct.volume_fee self |}.

(** The same pool with another fee. *)
Definition with_fee (self : ConstantProduct.state) (fee : option Z)
  : ConstantProduct.state :=
  {| ConstantProduct.unit_a := ConstantProduct.unit_a self;
     ConstantProduct.unit_b := ConstantProduct.unit_b self;
     ConstantProduct.reserve_a := ConstantProduct.reserve_a self;
     ConstantProduct.reserve_b := ConstantProduct.reserve_b self;
     ConstantProduct.volume_fee := fee |}.

(** A pool of the units A and B. *)
Definition cp_pool (a b : Z) (fee : option Z) : ConstantProduct.state :=
  {| ConstantProduct.unit_a := "A";
     ConstantProduct.unit_b := "B";
     ConstantProduct.reserve_a := a;
     ConstantProduct.reserve_b := b;
     ConstantProduct.volume_fee := fee |}.

(** The required input as [get_amount_in] computes it. *)
Definition amount_in_formula (q volume_fee reserve_in reserve_out : Z) : Z :=
  (q * 10000 * reserve_in) / ((reserve_out - q) * (10000 - volume_fee)).

(** ** Stable swap: pools and exceptions *)

(** The exceptions of a quote that do not report its arguments: a failure
    of the arithmetic, of the reserve look-up, or of the conversion of a
    NaN to an [int]. *)
Definition quote_failure (e : exn) : Prop :=
  arithmetic e \/ e = IndexError \/ e = ValueError nan_msg.

(** The same pool without a volume fee. *)
Definition without_fee (self : StableSwap.state) : StableSwap.state :=
  {| StableSwap.assets := StableSwap.assets self;
     StableSwap.unit_a := StableSwap.unit_a self;
     StableSwap.unit_b := StableSwap.unit_b self;
     StableSwap.asset_mulitipliers := StableSwap.asset_mulitipliers self;
     StableSwap.volume_fee := None |}.

(** ** The selection of UTxOs *)

(** The sum of the first quantities of a list of UTxOs. *)
Fixpoint utxo_total (int_of_str : string -> result Z)
         (utxos : list Blockfrost.UTxO) : result Z :=
  match utxos with
  | [] => Ok 0
  | utxo :: rest =>
      q <- Blockfrost.first_quantity int_of_str utxo ;;
      t <- utxo_total int_of_str rest ;;
      Ok (q + t)
  end.

(** The loop of [select_utxos_for_swaps] by recursion on the UTxOs alone:
    what it appends to the selection from the running total
    [total_amount]. *)
Fixpoint select_from (int_of_str : string -> result Z)
         (utxos : list Blockfrost.UTxO) (required_amount : Z)
         (total_amount : Z) : result (list Blockfrost.UTxO) :=
  match utxos with
  | [] => Ok []
  | utxo :: rest =>
      q <- Blockfrost.first_quantity int_of_str utxo ;;
      if total_amount + q >=? required_amount then Ok [utxo]
      else r <- select_from int_of_str rest required_amount (total_amount + q) ;;
           Ok (utxo :: r)
  end.

(** Every non-empty prefix of [utxos] can be summed and its sum stays below
    [required_amount]. *)
Definition all_short (int_of_str : string -> result Z)
           (utxos : list Blockfrost.UTxO) (required_amount : Z) : Prop :=
  forall p p', utxos = (p ++ p')%list -> p <> [] ->
    exists t, utxo_total int_of_str p = Ok t /\ t < required_amount.

(** A reading of the plain decimal strings, on which [int] agrees. *)
Fixpoint digits_value (s : string) (acc : Z) : option Z :=
  match s with
  | EmptyString => Some acc
  | String c rest =>
      let n := Z.of_nat (Ascii.nat_of_ascii c) in
      if ((48 <=? n) && (n <=? 57))%bool
      then digits_value rest (10 * acc + (n - 48))
      else None
  end.

Definition int_of_digits (s : string) : result Z :=
  match s, digits_value s 0 with
  | String _ _, Some z => Ok z
  | _, _ => Raise (ValueError ("invalid literal for int() with base 10: '" ++ s ++ "'"))
  end.

(** A UTxO holding the quantity [q] of lovelace. *)
Definition utxo_of (q : string) : Blockfrost.UTxO :=
  {| Blockfrost.address := "addr";
     Blockfrost.tx_hash := "tx";
     Blockfrost.output_index := 0;
     Blockfrost.amount := [{| Blockfrost.unit := "lovelace";
                              Blockfrost.quantity := q |}];
     Blockfrost.block := "block";
     Blockfrost.data_hash := None;
     Blockfrost.inline_datum := None;
     Blockfrost.reference_script_hash := None |}.

(** A UTxO with no amount at all. *)
Definition utxo_bare : Blockfrost.UTxO :=
  {| Blockfrost.address := "addr";
     Blockfrost.tx_hash := "tx";
     Blockfrost.output_index := 1;
     Blockfrost.amount := [];
     Blockfrost.block := "block";
     Blockfrost.data_hash := None;
     Blockfrost.inline_datum := None;
     Blockfrost.reference_script_hash := None |}.

(* ================================================================= *)
(** * Properties *)

(** ** Single-unit bundles *)

Lemma set_root_single u q q' : Assets.set_root (Assets.single u q) u q' = Assets.single u q'.
Proof. unfold Assets.single; simpl. rewrite String.eqb_refl. reflexivity. Qed.

Lemma int_floordiv_ok a b : b <> 0 -> int_floordiv a b = Ok (a / b).
Proof. intros H. unfold int_floordiv. destruct (Z.eqb_spec b 0); [contradiction | reflexivity]. Qed.

Lemma len_single u q : Assets.len (Assets.single u q) = ONE_VALUE.
Proof. reflexivity. Qed.

Lemma unit_single u q : Assets.unit (Assets.single u q) = Ok u.
Proof. reflexivity. Qed.

Lemma quantity_single u q : Assets.quantity (Assets.single u q) = Ok q.
Proof. reflexivity. Qed.

Lemma bind_ok {A B} (a : A) (k : A -> result B) : bind (Ok a) k = k a.
Proof. reflexivity. Qed.

Lemma in_pair_left a b : in_pair a a b = true.
Proof. unfold in_pair. now rewrite String.eqb_refl. Qed.

Lemma in_pair_right a b : in_pair b a b = true.
Proof. unfold in_pair. now rewrite String.eqb_refl, orb_true_r. Qed.

Lemma eqb_neq_false (a b : string) : a <> b -> String.eqb a b = false.
Proof. intros H. now destruct (String.eqb_spec a b). Qed.

Ltac single_bundle :=
  repeat first
    [ rewrite len_single | rewrite unit_single | rewrite quantity_single
    | rewrite set_root_single | rewrite bind_ok | rewrite Z.eqb_refl
    | rewrite String.eqb_refl | rewrite in_pair_left | rewrite in_pair_right ];
  cbn [negb].

(** [get_amount_out] on a single-unit bundle of a pool unit, up to the price
    impact. *)
Lemma cp_out_unfold self u q precise rin rout uo :
  out_side self u rin rout uo ->
  let fm := 10000 - fee_or_0 (ConstantProduct.volume_fee self) in
  let num := q * fm * rout in
  let den := q * fm + rin * 10000 in
  den <> 0 ->
  ConstantProduct.get_amount_out self (Assets.single u q) precise =
  if num / den =? 0 then Ok (Assets.single uo (num / den), PyInt 0)
  else
    p <- int_truediv (rout * q * den * fm - num * rin * 10000)
                      (rout * q * den * 10000) ;;
    Ok (Assets.single uo (num / den), PyFloat p).
Proof.
  intros Hside fm num den Hden.
  unfold ConstantProduct.get_amount_out.
  destruct Hside as [-> | Hna ->]; single_bundle.
  - fold fm; fold num; fold den.
    rewrite (int_floordiv_ok _ _ Hden).
    destruct precise; single_bundle; reflexivity.
  - rewrite (eqb_neq_false _ _ Hna); single_bundle.
    fold fm; fold num; fold den.
    rewrite (int_floordiv_ok _ _ Hden).
    destruct precise; single_bundle; reflexivity.
Qed.

Lemma cp_in_unfold self u q precise rin rout uo :
  in_side self u rin rout uo ->
  let fm := 10000 - fee_or_0 (ConstantProduct.volume_fee self) in
  let num := q * 10000 * rin in
  let den := (rout - q) * fm in
  ConstantProduct.get_amount_in self (Assets.single u q) precise =
  inp <- int_floordiv num den ;;
  p <- int_truediv (rout * num * fm - q * den * rin * 10000)
                    (rout * num * 10000) ;;
  Ok (Assets.single uo inp, PyFloat p).
Proof.
  intros Hside fm num den.
  unfold ConstantProduct.get_amount_in.
  destruct Hside as [-> | Hnb ->]; single_bundle.
  - fold fm; fold num; fold den.
    unfold int_floordiv. destruct (den =? 0); [reflexivity|].
    destruct precise; single_bundle; reflexivity.
  - rewrite (eqb_neq_false _ _ Hnb); single_bundle.
    fold fm; fold num; fold den.
    unfold int_floordiv. destruct (den =? 0); [reflexivity|].
    destruct precise; single_bundle; reflexivity.
Qed.


(** ** Binary64 rounding: sizes and exponents *)

Lemma digits2_pos_bounds p :
  2 ^ (Zpos (digits2_pos p) - 1) <= Zpos p < 2 ^ Zpos (digits2_pos p).
Proof.
  induction p as [p IH | p IH |]; cbn [digits2_pos].
  - rewrite Pos2Z.inj_succ.
    replace (Z.succ (Zpos (digits2_pos p)) - 1) with (Z.succ (Zpos (digits2_pos p) - 1)) by lia.
    rewrite !Z.pow_succ_r by lia. lia.
  - rewrite Pos2Z.inj_succ.
    replace (Z.succ (Zpos (digits2_pos p)) - 1) with (Z.succ (Zpos (digits2_pos p) - 1)) by lia.
    rewrite !Z.pow_succ_r by lia. lia.
  - cbn. lia.
Qed.

Lemma Zdigits2_nonneg m : 0 <= Zdigits2 m.
Proof. destruct m; cbn; lia. Qed.

Lemma Zdigits2_upper m : 0 <= m -> m < 2 ^ Zdigits2 m.
Proof.
  destruct m as [| p | p]; intros H; cbn [Zdigits2]; [cbn; lia | | lia].
  apply digits2_pos_bounds.
Qed.

Lemma Zdigits2_le m k : 0 <= m < 2 ^ k -> 0 <= k -> Zdigits2 m <= k.
Proof.
  intros [H0 Hk] Hk0. destruct m as [| p | p]; cbn [Zdigits2]; [lia | | lia].
  pose proof (digits2_pos_bounds p) as [Hl _].
  destruct (Z_le_gt_dec (Zpos (digits2_pos p)) k) as [|Hgt]; [assumption|].
  exfalso.
  assert (2 ^ k <= 2 ^ (Zpos (digits2_pos p) - 1)) by (apply Z.pow_le_mono_r; lia).
  lia.
Qed.

Lemma shr_1_m mrs : 0 <= shr_m mrs -> shr_m (shr_1 mrs) = shr_m mrs / 2.
Proof.
  destruct mrs as [m r s]; cbn [shr_m shr_1]. intros H.
  destruct m as [| [p | p |] | p]; cbn [shr_m]; try lia.
  - reflexivity.
  - rewrite Pos2Z.inj_xI. apply Z.div_unique with (r := 1); lia.
  - rewrite Pos2Z.inj_xO. apply Z.div_unique with (r := 0); lia.
  - reflexivity.
Qed.

Lemma iter_shr_1_m n : forall mrs,
  0 <= shr_m mrs ->
  shr_m (iter_pos shr_1 n mrs) = shr_m mrs / 2 ^ Zpos n.
Proof.
  induction n as [n IH | n IH |]; intros mrs H; cbn [iter_pos].
  - assert (H1 : 0 <= shr_m (shr_1 mrs)) by (rewrite shr_1_m by assumption; apply Z.div_pos; lia).
    assert (H2 : 0 <= shr_m (iter_pos shr_1 n (shr_1 mrs)))
      by (rewrite IH by assumption; apply Z.div_pos; lia).
    rewrite IH, IH, shr_1_m by assumption.
    rewrite !Z.div_div by lia. f_equal.
    replace (Zpos n~1) with (Zpos n + Zpos n + 1) by lia.
    rewrite !Z.pow_add_r, Z.pow_1_r by lia. ring.
  - assert (H2 : 0 <= shr_m (iter_pos shr_1 n mrs))
      by (rewrite IH by assumption; apply Z.div_pos; lia).
    rewrite IH, IH by assumption.
    rewrite !Z.div_div by lia. f_equal.
    replace (Zpos n~0) with (Zpos n + Zpos n) by lia.
    rewrite Z.pow_add_r by lia. ring.
  - rewrite shr_1_m by assumption. reflexivity.
Qed.

(** A right shift: the new exponent and the new mantissa. *)
Lemma shr_spec mrs e n :
  0 <= shr_m mrs ->
  snd (shr mrs e n) = e + Z.max 0 n /\
  shr_m (fst (shr mrs e n)) = shr_m mrs / 2 ^ Z.max 0 n.
Proof.
  intros H. unfold shr. destruct n as [| p | p]; cbn [fst snd].
  - rewrite Z.max_id, Z.add_0_r, Z.pow_0_r, Z.div_1_r. auto.
  - rewrite Z.max_r by lia. split; [reflexivity | apply iter_shr_1_m; assumption].
  - rewrite Z.max_l by lia. rewrite Z.add_0_r, Z.pow_0_r, Z.div_1_r. auto.
Qed.

Lemma round_nearest_even_bounds m l :
  m <= round_nearest_even m l <= m + 1.
Proof.
  unfold round_nearest_even. destruct l as [| []]; try destruct (Z.even m); lia.
Qed.

Lemma shr_record_of_loc_m m l : shr_m (shr_record_of_loc m l) = m.
Proof. destruct l as [| []]; reflexivity. Qed.

(** The exponent that the two rounding shifts of [binary_round_aux] reach
    stays below the largest one: no overflow to an infinity. *)
Lemma binary_round_aux_finite s m e l :
  0 <= m -> e <= 970 -> Zdigits2 m + e <= 1023 ->
  sf_is_infinity (binary_round_aux prec emax s m e l) = false.
Proof.
  intros Hm He Hd.
  unfold binary_round_aux, shr_fexp.
  set (n1 := fexp prec emax (Zdigits2 m + e) - e).
  pose proof (shr_spec (shr_record_of_loc m l) e n1) as S1.
  rewrite shr_record_of_loc_m in S1. specialize (S1 Hm).
  destruct (shr (shr_record_of_loc m l) e n1) as [mrs1 e1]. cbn [fst snd] in S1.
  destruct S1 as [E1 M1].
  set (m1 := round_nearest_even (shr_m mrs1) (loc_of_shr_record mrs1)).
  pose proof (round_nearest_even_bounds (shr_m mrs1) (loc_of_shr_record mrs1)) as B1.
  fold m1 in B1.
  assert (Hm1' : 0 <= shr_m mrs1) by (rewrite M1; apply Z.div_pos; lia).
  assert (Hm1 : 0 <= m1) by lia.
  set (n2 := fexp prec emax (Zdigits2 m1 + e1) - e1).
  pose proof (shr_spec (shr_record_of_loc m1 loc_Exact) e1 n2) as S2.
  rewrite shr_record_of_loc_m in S2. specialize (S2 Hm1).
  destruct (shr (shr_record_of_loc m1 loc_Exact) e1 n2) as [mrs2 e2]. cbn [fst snd] in S2.
  destruct S2 as [E2 M2].
  assert (He2 : e2 <= emax - prec).
  { unfold fexp, emin, prec, emax in *.
    pose proof (Zdigits2_nonneg m) as Dm.
    assert (Hk : 0 <= Z.max 0 n1) by lia.
    assert (Dm1 : Zdigits2 m1 + e1 <= 1024).
    { pose proof (Zdigits2_upper m Hm) as Um.
      destruct (Z_le_gt_dec (Z.max 0 n1) (Zdigits2 m)) as [Hle | Hgt].
      - assert (Zdigits2 m1 <= Zdigits2 m - Z.max 0 n1 + 1); [| lia].
        apply Zdigits2_le; [| lia]. split; [lia|].
        assert (shr_m mrs1 < 2 ^ (Zdigits2 m - Z.max 0 n1)).
        { rewrite M1. apply Z.div_lt_upper_bound; [lia|].
          rewrite <- Z.pow_add_r by lia.
          replace (Z.max 0 n1 + (Zdigits2 m - Z.max 0 n1)) with (Zdigits2 m) by lia.
          assumption. }
        rewrite Z.pow_add_r, Z.pow_1_r by lia. lia.
      - assert (shr_m mrs1 = 0).
        { rewrite M1. apply Z.div_small. split; [lia|].
          eapply Z.lt_le_trans; [exact Um|]. apply Z.pow_le_mono_r; lia. }
        assert (Zdigits2 m1 <= 1) by (apply Zdigits2_le; [cbn; lia | lia]).
        lia. }
    lia. }
  destruct (shr_m mrs2); [reflexivity | | reflexivity].
  destruct (Z.leb_spec e2 (emax - prec)); [reflexivity | lia].
Qed.

(** [a / b] on ints does not overflow when the quotient is at most one. *)
Lemma SFdiv_small_finite sa sb (pa pb : positive) :
  (pa <= pb)%positive ->
  sf_is_infinity (SF64div (S754_finite sa pa 0) (S754_finite sb pb 0)) = false.
Proof.
  intros Hle. unfold SF64div, SFdiv, SFdiv_core_binary.
  set (e' := Z.min (fexp prec emax (Zdigits2 (Zpos pa) + 0 - (Zdigits2 (Zpos pb) + 0))) (0 - 0)).
  set (m' := match 0 - 0 - e' with
             | Z0 => Zpos pa
             | Zpos _ => Z.shiftl (Zpos pa) (0 - 0 - e')
             | Zneg _ => 0
             end).
  assert (He' : e' <= 0) by (unfold e'; lia).
  assert (Hm' : 0 <= m' <= Zpos pa * 2 ^ (- e')).
  { unfold m'. replace (0 - 0 - e') with (- e') by lia.
    destruct (- e') as [| k | k] eqn:Ek.
    - rewrite Z.pow_0_r. lia.
    - rewrite Z.shiftl_mul_pow2 by lia. lia.
    - lia. }
  pose proof (Z_div_mod m' (Zpos pb) ltac:(lia)) as DM.
  destruct (Z.div_eucl m' (Zpos pb)) as [q r].
  destruct DM as [Eq Hr].
  assert (Hp : 0 < 2 ^ (- e')) by (apply Z.pow_pos_nonneg; lia).
  assert (Hq : 0 <= q <= 2 ^ (- e')) by nia.
  apply binary_round_aux_finite; [lia | lia |].
  assert (Zdigits2 q <= - e' + 1); [| lia].
  apply Zdigits2_le; [| lia].
  rewrite Z.pow_add_r, Z.pow_1_r by lia. lia.
Qed.

Lemma int_truediv_le_ok a b :
  b <> 0 -> Z.abs a <= Z.abs b -> exists f, int_truediv a b = Ok f.
Proof.
  intros Hb Hab. unfold int_truediv.
  destruct (Z.eqb_spec b 0) as [|_]; [contradiction|].
  destruct (Z.eqb_spec a 0) as [|Ha]; [eexists; reflexivity|].
  assert (H : sf_is_infinity (SF64div (sf_of_Z a) (sf_of_Z b)) = false).
  { destruct a as [| pa | pa], b as [| pb | pb]; try contradiction;
      cbn [sf_of_Z]; apply SFdiv_small_finite; lia. }
  rewrite H. eexists; reflexivity.
Qed.


Lemma int_truediv_cases a b :
  b <> 0 -> int_truediv a b = Raise OverflowError \/ exists f, int_truediv a b = Ok f.
Proof.
  intros Hb. unfold int_truediv.
  destruct (Z.eqb_spec b 0) as [|_]; [contradiction|].
  destruct (a =? 0); [right; eexists; reflexivity|].
  destruct (sf_is_infinity _); [left; reflexivity | right; eexists; reflexivity].
Qed.

Lemma kind_of_never_insufficient e : kind_of e <> InsufficientLiquidity.
Proof.
  destruct e; cbn [kind_of]; try discriminate.
  destruct (_ || _)%bool; [discriminate|].
  destruct (String.eqb _ _); discriminate.
Qed.

(** ** Constant product: the amount out *)

(** A valid single-unit input is answered, with the quantity of the
    formula. *)
Lemma cp_out_returns self u q precise rin rout uo :
  out_side self u rin rout uo ->
  0 < rin -> 0 <= q ->
  0 <= fee_or_0 (ConstantProduct.volume_fee self) <= 10000 ->
  exists impact,
    ConstantProduct.get_amount_out self (Assets.single u q) precise =
    Ok (Assets.single uo
          (amount_out_formula q (fee_or_0 (ConstantProduct.volume_fee self)) rin rout),
        impact).
Proof.
  intros Hside Hrin Hq Hfee.
  unfold amount_out_formula.
  set (fm := 10000 - fee_or_0 (ConstantProduct.volume_fee self)).
  assert (Hfm : 0 <= fm <= 10000) by (unfold fm; lia).
  assert (Hden : 0 < q * fm + rin * 10000) by nia.
  rewrite (cp_out_unfold self u q precise rin rout uo Hside) by (fold fm; lia).
  fold fm.
  set (num := q * fm * rout). set (den := q * fm + rin * 10000).
  destruct (Z.eqb_spec (num / den) 0) as [E | Hne].
  - eexists; reflexivity.
  - assert (Hnum : num <> 0) by (intros E0; apply Hne; rewrite E0; apply Z.div_0_l; lia).
    assert (Hpd : rout * q * den * 10000 <> 0) by (unfold num in Hnum; nia).
    destruct (int_truediv_le_ok (rout * q * den * fm - num * rin * 10000)
                                (rout * q * den * 10000) Hpd) as [f Hf].
    + replace (rout * q * den * fm - num * rin * 10000)
        with (rout * (q * fm * (q * fm))) by (unfold num, den; ring).
      replace (rout * q * den * 10000)
        with (rout * (q * den * 10000)) by ring.
      rewrite !Z.abs_mul. apply Z.mul_le_mono_nonneg_l; [apply Z.abs_nonneg|].
      rewrite <- !Z.abs_mul. rewrite !Z.abs_eq by nia. unfold den. nia.
    + rewrite Hf. eexists; reflexivity.
Qed.



(** C1.  For a constant-product pool with a positive input-side reserve and
    a single-unit input of quantity [q] of one of the pool's units,
    [get_amount_out] returns the quantity
    [floor (q * (10000 - fee) * reserve_out / (q * (10000 - fee) + reserve_in * 10000))];
    with a zero fee this is [floor (q * reserve_out / (reserve_in + q))];
    and 10_000 of asset A against reserves of 1_000_000 each at a fee of 30
    gives 9_871. *)
Theorem get_amount_out_quantity :
  forall self u q precise rin rout uo,
    out_side self u rin rout uo ->
    0 < rin -> 0 <= q ->
    0 <= fee_or_0 (ConstantProduct.volume_fee self) <= 10000 ->
    let fee := fee_or_0 (ConstantProduct.volume_fee self) in
    (exists impact,
        ConstantProduct.get_amount_out self (Assets.single u q) precise =
        Ok (Assets.single uo
              ((q * (10000 - fee) * rout) / (q * (10000 - fee) + rin * 10000)),
            impact))
    /\ (fee = 0 ->
        (q * (10000 - fee) * rout) / (q * (10000 - fee) + rin * 10000)
        = (q * rout) / (rin + q))
    /\ (exists impact,
           ConstantProduct.get_amount_out pool_1M (Assets.single "A" 10000) precise =
           Ok (Assets.single "B" 9871, impact)).
Proof.
  intros self u q precise rin rout uo Hside Hrin Hq Hfee fee.
  split; [| split].
  - exact (cp_out_returns self u q precise rin rout uo Hside Hrin Hq Hfee).
  - intros E. rewrite E, Z.sub_0_r.
    replace (q * 10000 * rout) with (q * rout * 10000) by ring.
    replace (q * 10000 + rin * 10000) with ((rin + q) * 10000) by ring.
    apply Z.div_mul_cancel_r; lia.
  - destruct (cp_out_returns pool_1M "A" 10000 precise 1000000 1000000 "B")
      as [impact Himpact].
    + apply (out_side_a pool_1M "A"). reflexivity.
    + lia.
    + lia.
    + cbn. lia.
    + exists impact. exact Himpact.
Qed.

Lemma get_amount_out_quantity_witness :
  exists impact,
    ConstantProduct.get_amount_out pool_1M (Assets.single "A" 20000) true =
    Ok (Assets.single "B" 19550, impact).
Proof.
  destruct (get_amount_out_quantity pool_1M "A" 20000 true 1000000 1000000 "B"
              (out_side_a pool_1M "A" eq_refl)) as [H _].
  - lia.
  - lia.
  - cbn [pool_1M ConstantProduct.volume_fee fee_or_0]. lia.
  - exact H.
Defined.

(** C4.  After a swap computed by [get_amount_out] on positive reserves the
    product of the reserves has not decreased:
    [(reserve_in + q) * (reserve_out - amount_out) >= reserve_in * reserve_out],
    for every fee with [0 <= volume_fee < 10000]. *)
Theorem get_amount_out_product :
  forall self u q precise rin rout uo,
    out_side self u rin rout uo ->
    0 < rin -> 0 < rout -> 0 <= q ->
    0 <= fee_or_0 (ConstantProduct.volume_fee self) < 10000 ->
    exists amount_out impact,
      ConstantProduct.get_amount_out self (Assets.single u q) precise =
      Ok (Assets.single uo amount_out, impact)
      /\ (rin + q) * (rout - amount_out) >= rin * rout.
Proof.
  intros self u q precise rin rout uo Hside Hrin Hrout Hq Hfee.
  destruct (cp_out_returns self u q precise rin rout uo Hside Hrin Hq) as [impact H];
    [lia|].
  eexists; exists impact. split; [exact H|].
  unfold amount_out_formula.
  set (fm := 10000 - fee_or_0 (ConstantProduct.volume_fee self)).
  assert (Hfm : 0 < fm <= 10000) by (unfold fm; lia).
  set (num := q * fm * rout). set (den := q * fm + rin * 10000).
  assert (Hden : 0 < den) by (unfold den; nia).
  assert (Hnum : 0 <= num) by (unfold num; nia).
  pose proof (Z.mul_div_le num den Hden) as Hle.
  pose proof (Z.div_pos num den Hnum Hden) as H0.
  set (o := num / den) in *.
  assert (H1 : o * (rin + q) * fm <= o * den) by (unfold den; nia).
  assert (H2 : o * (rin + q) * fm <= q * rout * fm) by (unfold num in Hle; nia).
  assert (H3 : o * (rin + q) <= q * rout) by nia.
  nia.
Qed.

Lemma get_amount_out_product_witness :
  exists amount_out impact,
    ConstantProduct.get_amount_out pool_1M (Assets.single "B" 500) false =
    Ok (Assets.single "A" amount_out, impact)
    /\ (1000000 + 500) * (1000000 - amount_out) >= 1000000 * 1000000.
Proof.
  assert (S : out_side pool_1M "B" 1000000 1000000 "A").
  { apply (out_side_b pool_1M "B"); [discriminate | reflexivity]. }
  apply (get_amount_out_product pool_1M "B" 500 false 1000000 1000000 "A" S);
    cbn; lia.
Defined.

(** C8.  When the floor-divided output quantity is 0, constant-product
    [get_amount_out] returns the zero-quantity bundle with price impact
    exactly the integer 0 and raises nothing; the price-impact division is
    not evaluated: the call returns also where its divisor is zero. *)
Theorem get_amount_out_zero :
  forall self u q precise rin rout uo,
    out_side self u rin rout uo ->
    let fm := 10000 - fee_or_0 (ConstantProduct.volume_fee self) in
    let num := q * fm * rout in
    let den := q * fm + rin * 10000 in
    den <> 0 ->
    num / den = 0 ->
    ConstantProduct.get_amount_out self (Assets.single u q) precise =
    Ok (Assets.single uo 0, PyInt 0)
    /\ (q = 0 ->
        int_truediv (rout * q * den * fm - num * rin * 10000)
                    (rout * q * den * 10000) = Raise ZeroDivisionError).
Proof.
  intros self u q precise rin rout uo Hside fm num den Hden Hzero.
  split.
  - rewrite (cp_out_unfold self u q precise rin rout uo Hside) by exact Hden.
    fold fm; fold num; fold den. rewrite Hzero. reflexivity.
  - intros ->. rewrite Z.mul_0_r, !Z.mul_0_l. reflexivity.
Qed.

Lemma get_amount_out_zero_witness :
  ConstantProduct.get_amount_out pool_1M (Assets.single "A" 1) true =
  Ok (Assets.single "B" 0, PyInt 0).
Proof.
  apply (get_amount_out_zero pool_1M "A" 1 true 1000000 1000000 "B"
           (out_side_a pool_1M "A" eq_refl)).
  - cbn. lia.
  - reflexivity.
Defined.



(** ** Constant product: a request beyond the reserve *)

(** C3, as stated, fails: asked for 150 B out of a reserve of 100 B,
    [get_amount_in] raises nothing and returns the amount -301 of A; asked
    for exactly the reserve it raises [ZeroDivisionError], which is not an
    insufficient-liquidity error. *)
Lemma get_amount_in_beyond_reserve_returns :
  (exists impact,
      ConstantProduct.get_amount_in pool_100 (Assets.single "B" 150) true =
      Ok (Assets.single "A" (-301), impact))
  /\ ConstantProduct.get_amount_in pool_100 (Assets.single "B" 100) true =
     Raise ZeroDivisionError
  /\ kind_of ZeroDivisionError <> InsufficientLiquidity.
Proof.
  split; [| split].
  - eexists. vm_compute. reflexivity.
  - reflexivity.
  - discriminate.
Qed.

(** C3, amended.  For a single-unit desired output of one of the pool's
    units, [get_amount_in] never fails with an insufficient-liquidity error:
    a quantity equal to the output-side reserve raises [ZeroDivisionError];
    a quantity above it (positive reserves, [0 <= volume_fee < 10000]) makes
    the computed amount
    [floor (q * 10000 * reserve_in / ((reserve_out - q) * (10000 - fee)))]
    negative, and that amount is returned unless the price-impact quotient
    overflows a double. *)
Theorem get_amount_in_beyond_reserve :
  forall self u q precise rin rout uo,
    in_side self u rin rout uo ->
    let fm := 10000 - fee_or_0 (ConstantProduct.volume_fee self) in
    let amount := (q * 10000 * rin) / ((rout - q) * fm) in
    (q = rout ->
     ConstantProduct.get_amount_in self (Assets.single u q) precise =
     Raise ZeroDivisionError)
    /\ (rout < q -> 0 < rin -> 0 < rout -> 0 < fm ->
        amount < 0
        /\ (ConstantProduct.get_amount_in self (Assets.single u q) precise =
            Raise OverflowError
            \/ exists impact,
                ConstantProduct.get_amount_in self (Assets.single u q) precise =
                Ok (Assets.single uo amount, impact)))
    /\ (forall e,
           ConstantProduct.get_amount_in self (Assets.single u q) precise = Raise e ->
           kind_of e <> InsufficientLiquidity).
Proof.
  intros self u q precise rin rout uo Hside fm amount.
  pose proof (cp_in_unfold self u q precise rin rout uo Hside) as U.
  cbv zeta in U. fold fm in U.
  split; [| split].
  - intros E. rewrite U, E, Z.sub_diag, Z.mul_0_l. reflexivity.
  - intros Hq Hrin Hrout Hfm.
    assert (Hden : (rout - q) * fm < 0) by nia.
    assert (Hnum : 0 < q * 10000 * rin) by nia.
    split.
    + unfold amount. rewrite <- Z.div_opp_opp by lia.
      apply Z.div_lt_upper_bound; lia.
    + rewrite U, int_floordiv_ok by lia. rewrite bind_ok. fold amount.
      destruct (int_truediv_cases
                  (rout * (q * 10000 * rin) * fm
                   - q * ((rout - q) * fm) * rin * 10000)
                  (rout * (q * 10000 * rin) * 10000)) as [-> | [f ->]].
      * nia.
      * left; reflexivity.
      * right; eexists; reflexivity.
  - intros e _. apply kind_of_never_insufficient.
Qed.



Lemma get_amount_in_beyond_reserve_witness :
  ConstantProduct.get_amount_in pool_100 (Assets.single "B" 100) false =
  Raise ZeroDivisionError.
Proof.
  assert (S : in_side pool_100 "B" 100 100 "A").
  { apply (in_side_b pool_100 "B"). reflexivity. }
  apply (get_amount_in_beyond_reserve pool_100 "B" 100 false 100 100 "A" S).
  reflexivity.
Defined.

(** ** Bundles that are not a single unit *)





(** ** Constant liquidity *)

(** C9.  Whatever the pool state, the bundle and the flag, [get_amount_out]
    and [get_amount_in] of the constant-liquidity state raise
    [NotImplementedError] with a message that names the family (CLPP); they
    return no value. *)
Theorem constant_liquidity_unimplemented :
  forall (state : Type) (self : state) (asset : Assets.t) (precise : bool),
    (exists msg,
        ConstantLiquidity.get_amount_out self asset precise =
        Raise (NotImplementedError msg)
        /\ String.prefix "CLPP" msg = true
        /\ kind_of (NotImplementedError msg) = Unimplemented)
    /\ (exists msg,
           ConstantLiquidity.get_amount_in self asset precise =
           Raise (NotImplementedError msg)
           /\ String.prefix "CLPP" msg = true
           /\ kind_of (NotImplementedError msg) = Unimplemented)
    /\ (forall r, ConstantLiquidity.get_amount_out self asset precise <> Ok r)
    /\ (forall r, ConstantLiquidity.get_amount_in self asset precise <> Ok r).
Proof.
  intros state self asset precise.
  split; [| split; [| split]].
  - eexists. split; [reflexivity | split; reflexivity].
  - eexists. split; [reflexivity | split; reflexivity].
  - intros r. discriminate.
  - intros r. discriminate.
Qed.



(** ** The Newton loop *)

Lemma newton_unfold step fuel x :
  newton step (S fuel) x =
  x' <- step x ;;
  c <- close x' x ;;
  if c then Ok x' else newton step fuel x'.
Proof.
  cbn [newton]. destruct (step x) as [x' |]; [| reflexivity].
  cbn [bind]. unfold close. destruct (PyNum.sub x' x); reflexivity.
Qed.

Lemma not_close_before_shift step x x1 k :
  step x = Ok x1 ->
  not_close_before step x (S k) ->
  not_close_before step x1 k.
Proof.
  intros Hx H j Hj.
  destruct (H (S j) ltac:(lia)) as (a & b & Ha & Hb & Hc).
  exists a, b. repeat split; [| | exact Hc].
  - destruct j as [| j]; [lia|].
    replace (S (S j) - 1)%nat with (S j) in Ha by lia.
    replace (S j - 1)%nat with j by lia.
    cbn [iterate] in Ha. rewrite Hx in Ha. exact Ha.
  - cbn [iterate] in Hb. rewrite Hx in Hb. exact Hb.
Qed.

(** The loop returns the first iterate that meets the tolerance, and the
    last iterate when none does. *)
Lemma newton_stops step : forall fuel k x a b c,
  (1 <= k <= fuel)%nat ->
  not_close_before step x k ->
  iterate step (k - 1) x = Ok a ->
  iterate step k x = Ok b ->
  close b a = Ok c ->
  c = true \/ k = fuel ->
  newton step fuel x = Ok b.
Proof.
  induction fuel as [| fuel IH]; intros k x a b c Hk Hnot Ha Hb Hc Hstop; [lia|].
  rewrite newton_unfold.
  destruct k as [| [| k]]; [lia | |].
  - cbn in Ha, Hb. injection Ha as <-.
    destruct (step x) as [x1 |]; [| discriminate].
    cbn [bind] in *. injection Hb as ->.
    rewrite Hc. cbn [bind].
    destruct Hstop as [-> | E]; [reflexivity|].
    destruct c; [reflexivity|].
    injection E as <-. reflexivity.
  - destruct (Hnot 1%nat ltac:(lia)) as (a1 & b1 & Ha1 & Hb1 & Hc1).
    cbn in Ha1, Hb1. injection Ha1 as <-.
    destruct (step x) as [x1 |] eqn:Hx; [| discriminate].
    cbn [bind] in Hb1. injection Hb1 as <-.
    cbn [bind]. rewrite Hc1. cbn [bind].
    apply (IH (S k) x1 a b c).
    + lia.
    + exact (not_close_before_shift step x x1 (S k) Hx Hnot).
    + replace (S (S k) - 1)%nat with (S k) in Ha by lia.
      replace (S k - 1)%nat with k by lia.
      cbn [iterate] in Ha. rewrite Hx in Ha. exact Ha.
    + cbn [iterate] in Hb. rewrite Hx in Hb. exact Hb.
    + exact Hc.
    + destruct Hstop; [left; assumption | right; lia].
Qed.

(** What the loop returns is one of the first [fuel] iterates. *)
Lemma newton_result step : forall fuel x d,
  newton step (S fuel) x = Ok d ->
  exists k, (1 <= k <= S fuel)%nat /\ iterate step k x = Ok d.
Proof.
  induction fuel as [| fuel IH]; intros x d H; rewrite newton_unfold in H;
    destruct (step x) as [x1 |] eqn:Hx; try discriminate; cbn [bind] in H;
    destruct (close x1 x) as [[|] |]; try discriminate; cbn [bind] in H.
  - injection H as <-. exists 1%nat. cbn. rewrite Hx. split; [lia | reflexivity].
  - cbn in H. injection H as <-. exists 1%nat. cbn. rewrite Hx. split; [lia | reflexivity].
  - injection H as <-. exists 1%nat. cbn. rewrite Hx. split; [lia | reflexivity].
  - destruct (IH x1 d H) as (k & Hk & Hit).
    exists (S k). split; [lia|]. cbn [iterate]. rewrite Hx. exact Hit.
Qed.

(** An exception of the loop is one of its body or of its test. *)
Lemma newton_raises step (P : exn -> Prop) :
  (forall x e, step x = Raise e -> P e) ->
  (forall x' x e, close x' x = Raise e -> P e) ->
  forall fuel x e, newton step fuel x = Raise e -> P e.
Proof.
  intros Hstep Hclose. induction fuel as [| fuel IH]; intros x e H; [discriminate|].
  rewrite newton_unfold in H.
  destruct (step x) as [x1 |] eqn:Hx; cbn [bind] in H.
  - destruct (close x1 x) as [[|] |] eqn:Hc; cbn [bind] in H.
    + discriminate.
    + exact (IH x1 e H).
    + injection H as <-. exact (Hclose x1 x _ Hc).
  - injection H as <-. exact (Hstep x _ Hx).
Qed.

(** ** The exceptions of the arithmetic *)

Lemma float_of_int_raises z e : float_of_int z = Raise e -> arithmetic e.
Proof.
  unfold float_of_int. destruct (sf_is_infinity _); [| discriminate].
  intros H; injection H as <-. right; reflexivity.
Qed.

Lemma to_float_raises x e : to_float x = Raise e -> arithmetic e.
Proof. destruct x; cbn; [apply float_of_int_raises | discriminate]. Qed.

Lemma arith_raises iop fop x y e : arith iop fop x y = Raise e -> arithmetic e.
Proof.
  unfold arith. destruct x as [a | f], y as [b | g]; try discriminate;
    cbn [to_float];
    repeat match goal with
    | |- context [float_of_int ?z] =>
        let H := fresh in
        destruct (float_of_int z) eqn:H;
        [| apply float_of_int_raises in H]
    end; cbn [bind]; intros H'; try discriminate; injection H' as <-; assumption.
Qed.

Lemma int_truediv_raises a b e : int_truediv a b = Raise e -> arithmetic e.
Proof.
  unfold int_truediv. destruct (b =? 0).
  - intros H; injection H as <-. left; reflexivity.
  - destruct (a =? 0); [discriminate|].
    destruct (sf_is_infinity _); [| discriminate].
    intros H; injection H as <-. right; reflexivity.
Qed.

Lemma truediv_raises x y e : truediv x y = Raise e -> arithmetic e.
Proof.
  unfold truediv.
  assert (G : forall fx fy : result float,
             (forall e, fx = Raise e -> arithmetic e) ->
             (forall e, fy = Raise e -> arithmetic e) ->
             (fx <- fx ;; fy <- fy ;;
              if PrimFloat.eqb fy 0 then Raise ZeroDivisionError
              else Ok (PyFloat (fx / fy)%float)) = Raise e -> arithmetic e).
  { intros [fx |] [fy |] H1 H2; cbn [bind]; intros H.
    - destruct (PrimFloat.eqb fy 0); [| discriminate].
      injection H as <-. left; reflexivity.
    - injection H as <-. now apply H2.
    - injection H as <-. now apply H1.
    - injection H as <-. now apply H1. }
  destruct x as [a | f], y as [b | g].
  - destruct (int_truediv a b) eqn:H; cbn [bind]; [discriminate|].
    intros H'; injection H' as <-. exact (int_truediv_raises _ _ _ H).
  - apply G; apply to_float_raises.
  - apply G; apply to_float_raises.
  - apply G; apply to_float_raises.
Qed.

Lemma pow_raises libm_pow x n e : PyNum.pow libm_pow x n = Raise e -> arithmetic e.
Proof.
  destruct x as [z | f]; cbn [PyNum.pow]; [discriminate|].
  destruct (float_of_int n) eqn:H; cbn [bind].
  - destruct (_ && _)%bool; [| discriminate].
    intros H'; injection H' as <-. right; reflexivity.
  - intros H'; injection H' as <-. exact (float_of_int_raises _ _ H).
Qed.

Lemma close_raises x' x e : close x' x = Raise e -> arithmetic e.
Proof.
  unfold close. destruct (PyNum.sub x' x) eqn:H; cbn [bind]; [discriminate|].
  intros H'; injection H' as <-. exact (arith_raises _ _ _ _ _ H).
Qed.

Ltac raises :=
  repeat match goal with
  | H : bind ?c _ = Raise _ |- _ =>
      let E := fresh "E" in
      destruct c eqn:E; cbn [bind] in H;
      [| injection H as <-;
         first [ exact (arith_raises _ _ _ _ _ E)
               | exact (truediv_raises _ _ _ E)
               | exact (pow_raises _ _ _ _ E)
               | exact (int_truediv_raises _ _ _ E)
               | discriminate ] ]
  end.

(** ** Stable swap: the invariant solve *)

Lemma d_next_spec libm_pow self ra rb ann s d :
  StableSwap.reserve_a self = Ok ra ->
  StableSwap.reserve_b self = Ok rb ->
  StableSwap.d_next libm_pow self ann s d = newton_D_step libm_pow ann s ra rb d.
Proof.
  intros Ha Hb. unfold StableSwap.d_next, newton_D_step.
  destruct (PyNum.pow libm_pow d 3); [| reflexivity].
  cbn [bind]. rewrite Ha, Hb. reflexivity.
Qed.

Lemma newton_ext step step' :
  (forall x, step x = step' x) ->
  forall fuel x, newton step fuel x = newton step' fuel x.
Proof.
  intros E. induction fuel as [| fuel IH]; intros x; cbn [newton]; [reflexivity|].
  rewrite E. destruct (step' x) as [x' |]; cbn [bind]; [| reflexivity].
  destruct (PyNum.sub x' x); cbn [bind]; [| reflexivity].
  destruct (lt_one _); [reflexivity | apply IH].
Qed.

(** [_get_d] as the loop over the recurrence of the design. *)
Lemma get_d_unfold get_ann libm_pow self ra rb :
  StableSwap.reserve_a self = Ok ra ->
  StableSwap.reserve_b self = Ok rb ->
  StableSwap._get_d get_ann libm_pow self =
  if ra + rb =? 0 then Ok (PyInt 0)
  else newton (newton_D_step libm_pow (get_ann self) (ra + rb) ra rb)
              256 (PyInt (ra + rb)).
Proof.
  intros Ha Hb. unfold StableSwap._get_d. rewrite Ha, Hb. cbn [bind].
  destruct (ra + rb =? 0); [reflexivity|].
  apply newton_ext. intros d. apply d_next_spec; assumption.
Qed.

Lemma newton_D_step_raises libm_pow ann s x y d e :
  newton_D_step libm_pow ann s x y d = Raise e -> arithmetic e.
Proof. unfold newton_D_step. intros H. raises. exact (truediv_raises _ _ _ H). Qed.

(** C2.  [_get_d] returns 0 on an empty pool.  Otherwise, with
    [D_0 = S = reserve_a + reserve_b] and [D_(k+1)] obtained from [D_k] by
    the recurrence of the design ([n = 2]), it returns the first [D_k],
    [1 <= k <= 256], with [|D_k - D_(k-1)| < 1], and [D_256] when no iterate
    meets the tolerance; what it returns is always one of [D_1 .. D_256];
    and an exception can only come from the arithmetic of an iterate
    (division by zero, overflow): none reports a failed convergence. *)
Theorem get_d_newton :
  forall get_ann libm_pow self ra rb,
    StableSwap.reserve_a self = Ok ra ->
    StableSwap.reserve_b self = Ok rb ->
    let S := ra + rb in
    let D := fun k =>
      iterate (newton_D_step libm_pow (get_ann self) S ra rb) k (PyInt S) in
    (S = 0 -> StableSwap._get_d get_ann libm_pow self = Ok (PyInt 0))
    /\ (S <> 0 ->
        (forall k a b c,
            (1 <= k <= 256)%nat ->
            (forall j, (1 <= j < k)%nat ->
               exists a' b', D (j - 1)%nat = Ok a' /\ D j = Ok b'
                             /\ close b' a' = Ok false) ->
            D (k - 1)%nat = Ok a -> D k = Ok b -> close b a = Ok c ->
            c = true \/ k = 256%nat ->
            StableSwap._get_d get_ann libm_pow self = Ok b)
        /\ (forall d, StableSwap._get_d get_ann libm_pow self = Ok d ->
              exists k, (1 <= k <= 256)%nat /\ D k = Ok d)
        /\ (forall e, StableSwap._get_d get_ann libm_pow self = Raise e ->
              e = ZeroDivisionError \/ e = OverflowError)).
Proof.
  intros get_ann libm_pow self ra rb Ha Hb S D.
  rewrite (get_d_unfold get_ann libm_pow self ra rb Ha Hb). fold S.
  split.
  - intros ->. reflexivity.
  - intros HS. destruct (Z.eqb_spec S 0) as [| _]; [contradiction|].
    split; [| split].
    + intros k a b c Hk Hnot Hka Hkb Hc Hstop.
      exact (newton_stops _ 256 k (PyInt S) a b c Hk Hnot Hka Hkb Hc Hstop).
    + intros d H. exact (newton_result _ 255 (PyInt S) d H).
    + intros e H.
      refine (newton_raises _ arithmetic _ _ 256%nat (PyInt S) e H).
      * intros x e'. apply newton_D_step_raises.
      * apply close_raises.
Qed.

Lemma get_d_newton_witness :
  Standard._get_d rounded_pow (stable_pool 1 3) = Ok (PyFloat 0x1.ff6fce6ef624ap+1).
Proof.
  destruct (get_d_newton Standard._get_ann rounded_pow (stable_pool 1 3) 1 3
              eq_refl eq_refl) as [_ H].
  destruct H as [H _]; [discriminate|].
  apply (H 1%nat (PyInt 4) (PyFloat 0x1.ff6fce6ef624ap+1) true).
  - lia.
  - intros j Hj. lia.
  - reflexivity.
  - vm_compute. reflexivity.
  - vm_compute. reflexivity.
  - left. reflexivity.
Defined.

(** C10.  When exactly one of the two reserves is zero, the first
    iteration of [_get_d] divides by [n^n * reserve_a * reserve_b = 0] and
    the call raises [ZeroDivisionError]; so on non-negative reserves
    [_get_d] returns only if both are zero or both are positive. *)
Theorem get_d_one_empty_side :
  forall get_ann libm_pow self ra rb,
    StableSwap.reserve_a self = Ok ra ->
    StableSwap.reserve_b self = Ok rb ->
    ((ra = 0 /\ rb <> 0) \/ (ra <> 0 /\ rb = 0) ->
     StableSwap.n_coins ^ StableSwap.n_coins * ra * rb = 0
     /\ StableSwap.d_next libm_pow self (get_ann self) (ra + rb)
          (PyInt (ra + rb)) = Raise ZeroDivisionError
     /\ StableSwap._get_d get_ann libm_pow self = Raise ZeroDivisionError)
    /\ (0 <= ra -> 0 <= rb ->
        forall d, StableSwap._get_d get_ann libm_pow self = Ok d ->
                  (ra = 0 /\ rb = 0) \/ (0 < ra /\ 0 < rb)).
Proof.
  intros get_ann libm_pow self ra rb Ha Hb.
  assert (First : (ra = 0 /\ rb <> 0) \/ (ra <> 0 /\ rb = 0) ->
            StableSwap.n_coins ^ StableSwap.n_coins * ra * rb = 0
            /\ StableSwap.d_next libm_pow self (get_ann self) (ra + rb)
                 (PyInt (ra + rb)) = Raise ZeroDivisionError
            /\ StableSwap._get_d get_ann libm_pow self = Raise ZeroDivisionError).
  { intros Hone.
    assert (Hprod : StableSwap.n_coins ^ StableSwap.n_coins * ra * rb = 0)
      by (destruct Hone as [[-> _] | [_ ->]]; ring).
    assert (Hs : ra + rb <> 0) by lia.
    assert (Hstep : StableSwap.d_next libm_pow self (get_ann self)
                      (ra + rb) (PyInt (ra + rb)) = Raise ZeroDivisionError).
    { unfold StableSwap.d_next. cbn [PyNum.pow bind]. rewrite Ha, Hb. cbn [bind].
      rewrite Hprod. reflexivity. }
    split; [exact Hprod | split; [exact Hstep|]].
    unfold StableSwap._get_d. rewrite Ha, Hb. cbn [bind].
    destruct (Z.eqb_spec (ra + rb) 0) as [| _]; [contradiction|].
    change 256%nat with (S 255). rewrite newton_unfold, Hstep. reflexivity. }
  split; [exact First|].
  intros Hra Hrb d Hd.
  destruct (Z.eq_dec ra 0) as [Ea | Na], (Z.eq_dec rb 0) as [Eb | Nb].
  - left; split; assumption.
  - destruct First as (_ & _ & F); [left; split; assumption|].
    rewrite F in Hd. discriminate.
  - destruct First as (_ & _ & F); [right; split; assumption|].
    rewrite F in Hd. discriminate.
  - right; lia.
Qed.

Lemma get_d_one_empty_side_witness :
  Common._get_d rounded_pow (stable_pool 0 5) = Raise ZeroDivisionError.
Proof.
  apply (get_d_one_empty_side Common._get_ann rounded_pow (stable_pool 0 5) 0 5
           eq_refl eq_refl).
  left. split; [reflexivity | discriminate].
Defined.
(** ** Binary64: integers that are represented exactly *)

Lemma Zdigits2_lower m : 0 < m -> 2 ^ (Zdigits2 m - 1) <= m.
Proof.
  destruct m as [| p | p]; intros H; try lia. cbn [Zdigits2].
  apply digits2_pos_bounds.
Qed.

Lemma Zdigits2_pos m : 0 < m -> 0 < Zdigits2 m.
Proof. destruct m; intros H; cbn; lia. Qed.

Lemma Zdigits2_unique m d : 0 < m -> 2 ^ (d - 1) <= m < 2 ^ d -> Zdigits2 m = d.
Proof.
  intros Hm [Hl Hu].
  pose proof (Zdigits2_lower m Hm) as L. pose proof (Zdigits2_upper m ltac:(lia)) as U.
  pose proof (Zdigits2_pos m Hm) as P.
  assert (Hd : 0 < d).
  { destruct (Z_lt_le_dec 0 d); [assumption|].
    destruct (Z.eq_dec d 0) as [-> | ]; [cbn in Hu; lia|].
    rewrite (Z.pow_neg_r 2 d) in Hu by lia. lia. }
  destruct (Z.lt_trichotomy (Zdigits2 m) d) as [Hlt | [E | Hgt]]; [| exact E |]; exfalso.
  - assert (2 ^ Zdigits2 m <= 2 ^ (d - 1)) by (apply Z.pow_le_mono_r; lia). lia.
  - assert (2 ^ d <= 2 ^ (Zdigits2 m - 1)) by (apply Z.pow_le_mono_r; lia). lia.
Qed.

Lemma Zdigits2_shift N k : 0 < N -> 0 <= k -> Zdigits2 (N * 2 ^ k) = Zdigits2 N + k.
Proof.
  intros HN Hk.
  pose proof (Zdigits2_lower N HN) as L. pose proof (Zdigits2_upper N ltac:(lia)) as U.
  pose proof (Zdigits2_pos N HN) as P.
  assert (0 < 2 ^ k) by (apply Z.pow_pos_nonneg; lia).
  apply Zdigits2_unique; [nia|].
  replace (Zdigits2 N + k - 1) with (Zdigits2 N - 1 + k) by lia.
  rewrite !Z.pow_add_r by lia. nia.
Qed.

Lemma iter_xO m d : Zpos (Pos.iter xO m d) = Zpos m * 2 ^ Zpos d.
Proof.
  revert m. induction d as [d IH | d IH |]; intros m; cbn [Pos.iter].
  - rewrite Pos2Z.inj_xO, !IH.
    replace (Zpos d~1) with (Zpos d + Zpos d + 1) by lia.
    rewrite !Z.pow_add_r, Z.pow_1_r by lia. ring.
  - rewrite !IH.
    replace (Zpos d~0) with (Zpos d + Zpos d) by lia.
    rewrite !Z.pow_add_r by lia. ring.
  - rewrite Pos2Z.inj_xO. rewrite Z.pow_1_r. ring.
Qed.

Lemma shr_1_exact m : 0 <= m -> m mod 2 = 0 ->
  shr_1 (exact_record m) = exact_record (m / 2).
Proof.
  intros H0 H2. unfold exact_record, shr_1. cbn [orb].
  destruct m as [| [p | p |] | p]; try lia.
  - reflexivity.
  - exfalso. rewrite Pos2Z.inj_xI in H2.
    replace (2 * Zpos p + 1) with (1 + Zpos p * 2) in H2 by lia.
    rewrite Z.mod_add in H2 by lia. cbn in H2. lia.
  - f_equal. rewrite Pos2Z.inj_xO. apply Z.div_unique with (r := 0); lia.
  - cbn in H2. lia.
Qed.

Lemma mod_pow2_div m a b :
  0 <= a -> 0 <= b -> m mod 2 ^ (a + b) = 0 ->
  m mod 2 ^ a = 0 /\ (m / 2 ^ a) mod 2 ^ b = 0.
Proof.
  intros Ha Hb H.
  assert (Pa : 0 < 2 ^ a) by (apply Z.pow_pos_nonneg; lia).
  assert (Pb : 0 < 2 ^ b) by (apply Z.pow_pos_nonneg; lia).
  apply Z.mod_divide in H; [| rewrite Z.pow_add_r by lia; lia].
  destruct H as [k Hk]. rewrite Z.pow_add_r in Hk by lia.
  subst m. split.
  - replace (k * (2 ^ a * 2 ^ b)) with (k * 2 ^ b * 2 ^ a) by ring.
    apply Z.mod_mul; lia.
  - replace (k * (2 ^ a * 2 ^ b)) with (k * 2 ^ b * 2 ^ a) by ring.
    rewrite Z.div_mul by lia. apply Z.mod_mul; lia.
Qed.

Lemma iter_shr_1_exact n : forall m,
  0 <= m -> m mod 2 ^ Zpos n = 0 ->
  iter_pos shr_1 n (exact_record m) = exact_record (m / 2 ^ Zpos n).
Proof.
  induction n as [n IH | n IH |]; intros m H0 Hm; cbn [iter_pos].
  - replace (Zpos n~1) with (1 + (Zpos n + Zpos n)) in * by lia.
    destruct (mod_pow2_div m 1 (Zpos n + Zpos n) ltac:(lia) ltac:(lia) Hm) as [M1 M2].
    rewrite Z.pow_1_r in M1, M2.
    destruct (mod_pow2_div (m / 2) (Zpos n) (Zpos n) ltac:(lia) ltac:(lia) M2) as [M3 M4].
    rewrite shr_1_exact by assumption.
    rewrite IH by first [assumption | apply Z.div_pos; lia].
    rewrite IH by first [assumption | repeat apply Z.div_pos; lia].
    f_equal. rewrite !Z.div_div by lia. f_equal.
    rewrite !Z.pow_add_r, Z.pow_1_r by lia. ring.
  - replace (Zpos n~0) with (Zpos n + Zpos n) in * by lia.
    destruct (mod_pow2_div m (Zpos n) (Zpos n) ltac:(lia) ltac:(lia) Hm) as [M3 M4].
    rewrite IH by assumption.
    rewrite IH by first [assumption | apply Z.div_pos; lia].
    f_equal. rewrite !Z.div_div by lia. f_equal.
    rewrite !Z.pow_add_r by lia. ring.
  - rewrite Z.pow_1_r in *. apply shr_1_exact; assumption.
Qed.

(** Rounding a mantissa that carries [N < 2^53] followed by zero bits only
    gives [N * 2^c] exactly, in the normal range. *)
Lemma binary_round_aux_scaled s N c m e :
  0 < N < 2 ^ prec ->
  emin <= Zdigits2 N + c - prec -> Zdigits2 N + c <= emax ->
  e <= Zdigits2 N + c - prec ->
  m = N * 2 ^ (c - e) ->
  binary_round_aux prec emax s m e loc_Exact =
  S754_finite s (Z.to_pos (N * 2 ^ (prec - Zdigits2 N))) (Zdigits2 N + c - prec).
Proof.
  intros HN Hmin Hmax He ->.
  assert (Hprec : prec = 53) by reflexivity.
  assert (Hemax : emax = 1024) by reflexivity.
  assert (Hemin : emin = -1074) by reflexivity.
  pose proof (Zdigits2_pos N ltac:(lia)) as P.
  assert (DN : Zdigits2 N <= prec) by (apply Zdigits2_le; lia).
  assert (Dm : Zdigits2 (N * 2 ^ (c - e)) = Zdigits2 N + (c - e)).
  { apply Zdigits2_shift; lia. }
  unfold binary_round_aux, shr_fexp. rewrite Dm.
  replace (Zdigits2 N + (c - e) + e) with (Zdigits2 N + c) by lia.
  assert (F : fexp prec emax (Zdigits2 N + c) = Zdigits2 N + c - prec)
    by (unfold fexp; lia).
  rewrite F. cbn [shr_record_of_loc].
  remember (Zdigits2 N + c - prec - e) as n1 eqn:En.
  assert (Hn1 : 0 <= n1) by lia.
  assert (Pk : 0 < 2 ^ (prec - Zdigits2 N)) by (apply Z.pow_pos_nonneg; lia).
  assert (S1 : shr {| shr_m := N * 2 ^ (c - e); shr_r := false; shr_s := false |} e n1
               = (exact_record (N * 2 ^ (prec - Zdigits2 N)), Zdigits2 N + c - prec)).
  { unfold shr. destruct n1 as [| p | p]; [| | lia].
    - unfold exact_record. f_equal; [| lia].
      replace (c - e) with (prec - Zdigits2 N) by lia. reflexivity.
    - change {| shr_m := N * 2 ^ (c - e); shr_r := false; shr_s := false |}
        with (exact_record (N * 2 ^ (c - e))).
      replace (c - e) with (prec - Zdigits2 N + Zpos p) by lia.
      rewrite Z.pow_add_r by lia.
      assert (Pp : 0 < 2 ^ Zpos p) by (apply Z.pow_pos_nonneg; lia).
      rewrite iter_shr_1_exact.
      + f_equal; [| lia]. f_equal.
        rewrite Z.mul_assoc, Z.div_mul by lia. reflexivity.
      + nia.
      + rewrite Z.mul_assoc. apply Z.mod_mul. lia. }
  rewrite S1. cbn [exact_record shr_m loc_of_shr_record round_nearest_even].
  set (m1 := N * 2 ^ (prec - Zdigits2 N)).
  assert (Dm1 : Zdigits2 m1 = prec).
  { unfold m1. rewrite Zdigits2_shift by lia. lia. }
  rewrite Dm1.
  replace (prec + (Zdigits2 N + c - prec)) with (Zdigits2 N + c) by lia.
  rewrite F, Z.sub_diag. cbn [shr shr_m].
  assert (Hm1 : 0 < m1) by (unfold m1; nia).
  destruct m1 as [| p1 | p1] eqn:E1; try lia.
  destruct (Z.leb_spec (Zdigits2 N + c - prec) (emax - prec)); [reflexivity | lia].
Qed.

(** In particular an integer [N < 2^53] is kept exactly. *)
Lemma binary_round_aux_exact s N m e :
  0 < N < 2 ^ prec ->
  e <= Zdigits2 N - prec ->
  m = N * 2 ^ (- e) ->
  binary_round_aux prec emax s m e loc_Exact =
  S754_finite s (Z.to_pos (N * 2 ^ (prec - Zdigits2 N))) (Zdigits2 N - prec).
Proof.
  intros HN He Hm.
  assert (Hprec : prec = 53) by reflexivity.
  assert (Hemax : emax = 1024) by reflexivity.
  assert (Hemin : emin = -1074) by reflexivity.
  pose proof (Zdigits2_pos N ltac:(lia)) as P.
  assert (DN : Zdigits2 N <= prec) by (apply Zdigits2_le; lia).
  replace (Zdigits2 N - prec) with (Zdigits2 N + 0 - prec) by lia.
  apply (binary_round_aux_scaled s N 0); [assumption | lia | lia | lia |].
  rewrite Hm. reflexivity.
Qed.



Lemma canon_mantissa_pos N : 0 < N < 2 ^ prec -> 0 < N * 2 ^ (prec - Zdigits2 N).
Proof.
  intros HN.
  assert (DN : Zdigits2 N <= prec) by (apply Zdigits2_le; unfold prec in *; lia).
  assert (0 < 2 ^ (prec - Zdigits2 N)) by (apply Z.pow_pos_nonneg; lia).
  nia.
Qed.

Lemma binary_round_scaled s N c (m : positive) e :
  0 < N < 2 ^ prec ->
  emin <= Zdigits2 N + c - prec -> Zdigits2 N + c <= emax ->
  e <= c ->
  Zpos m = N * 2 ^ (c - e) ->
  binary_round prec emax s m e =
  S754_finite s (Z.to_pos (N * 2 ^ (prec - Zdigits2 N))) (Zdigits2 N + c - prec).
Proof.
  intros HN Hmin Hmax He Hm.
  assert (Hprec : prec = 53) by reflexivity.
  assert (Hemin : emin = -1074) by reflexivity.
  pose proof (Zdigits2_pos N ltac:(lia)) as P.
  assert (DN : Zdigits2 N <= prec) by (apply Zdigits2_le; lia).
  assert (Dm : Zpos (digits2_pos m) = Zdigits2 N + (c - e)).
  { change (Zpos (digits2_pos m)) with (Zdigits2 (Zpos m)).
    rewrite Hm. apply Zdigits2_shift; lia. }
  unfold binary_round, shl_align. rewrite Dm.
  replace (Zdigits2 N + (c - e) + e) with (Zdigits2 N + c) by lia.
  assert (F : fexp prec emax (Zdigits2 N + c) = Zdigits2 N + c - prec)
    by (unfold fexp; lia).
  rewrite F.
  destruct (Zdigits2 N + c - prec - e) as [| d | d] eqn:Ed.
  - apply (binary_round_aux_scaled s N c); [assumption | lia | lia | lia | assumption].
  - apply (binary_round_aux_scaled s N c); [assumption | lia | lia | lia | assumption].
  - apply (binary_round_aux_scaled s N c); [assumption | lia | lia | lia |].
    rewrite iter_xO, Hm.
    replace (c - (Zdigits2 N + c - prec)) with (c - e + Zpos d) by lia.
    rewrite Z.pow_add_r by lia. ring.
Qed.

Lemma binary_round_exact s N (m : positive) e :
  0 < N < 2 ^ prec -> e <= 0 ->
  Zpos m = N * 2 ^ (- e) ->
  binary_round prec emax s m e =
  S754_finite s (Z.to_pos (N * 2 ^ (prec - Zdigits2 N))) (Zdigits2 N - prec).
Proof.
  intros HN He Hm.
  assert (Hprec : prec = 53) by reflexivity.
  assert (Hemax : emax = 1024) by reflexivity.
  assert (Hemin : emin = -1074) by reflexivity.
  pose proof (Zdigits2_pos N ltac:(lia)) as P.
  assert (DN : Zdigits2 N <= prec) by (apply Zdigits2_le; lia).
  replace (Zdigits2 N - prec) with (Zdigits2 N + 0 - prec) by lia.
  apply (binary_round_scaled s N 0); [assumption | lia | lia | lia |].
  rewrite Hm. reflexivity.
Qed.

Lemma binary_normalize_exact N :
  0 < N < 2 ^ prec -> binary_normalize prec emax N 0 false = canon N.
Proof.
  intros HN. destruct N as [| p | p]; try lia. cbn [binary_normalize].
  apply binary_round_exact; [assumption | lia |].
  cbn. lia.
Qed.

Lemma canon_valid N : 0 < N < 2 ^ prec -> valid_binary (canon N) = true.
Proof.
  intros HN. unfold canon, valid_binary, bounded, canonical_mantissa.
  pose proof (canon_mantissa_pos N HN) as Hp.
  pose proof (Zdigits2_pos N ltac:(lia)) as P.
  assert (DN : Zdigits2 N <= prec) by (apply Zdigits2_le; unfold prec in *; lia).
  change (Zpos (digits2_pos ?p)) with (Zdigits2 (Zpos p)).
  rewrite Z2Pos.id by assumption.
  rewrite Zdigits2_shift by lia.
  apply andb_true_intro. split.
  - apply Z.eqb_eq. unfold fexp, emin, prec, emax in *. lia.
  - apply Z.leb_le. unfold prec, emax in *. lia.
Qed.

Lemma Zdigits2_mul_lower a b :
  0 < a -> 0 < b -> Zdigits2 a + Zdigits2 b - 1 <= Zdigits2 (a * b).
Proof.
  intros Ha Hb.
  pose proof (Zdigits2_lower a Ha). pose proof (Zdigits2_lower b Hb).
  pose proof (Zdigits2_pos a Ha). pose proof (Zdigits2_pos b Hb).
  pose proof (Zdigits2_upper (a * b) ltac:(nia)) as U.
  pose proof (Zdigits2_pos (a * b) ltac:(nia)).
  destruct (Z_le_gt_dec (Zdigits2 a + Zdigits2 b - 1) (Zdigits2 (a * b))); [assumption|].
  exfalso.
  assert (2 ^ Zdigits2 (a * b) <= 2 ^ (Zdigits2 a - 1 + (Zdigits2 b - 1)))
    by (apply Z.pow_le_mono_r; lia).
  rewrite Z.pow_add_r in * by lia. nia.
Qed.

Lemma Zdigits2_mul_upper a b :
  0 < a -> 0 < b -> Zdigits2 (a * b) <= Zdigits2 a + Zdigits2 b.
Proof.
  intros Ha Hb.
  pose proof (Zdigits2_upper a ltac:(lia)). pose proof (Zdigits2_upper b ltac:(lia)).
  pose proof (Zdigits2_pos a Ha). pose proof (Zdigits2_pos b Hb).
  apply Zdigits2_le; [| lia]. rewrite Z.pow_add_r by lia. nia.
Qed.

(** The product of two exactly represented integers, when it is below
    [2^53], is exact. *)
Lemma SFmul_exact a b :
  0 < a -> 0 < b -> a * b < 2 ^ prec ->
  SF64mul (canon a) (canon b) = canon (a * b).
Proof.
  intros Ha Hb Hab.
  assert (Ha' : 0 < a < 2 ^ prec) by nia.
  assert (Hb' : 0 < b < 2 ^ prec) by nia.
  pose proof (canon_mantissa_pos a Ha'). pose proof (canon_mantissa_pos b Hb').
  assert (Da : Zdigits2 a <= prec) by (apply Zdigits2_le; unfold prec in *; lia).
  assert (Db : Zdigits2 b <= prec) by (apply Zdigits2_le; unfold prec in *; lia).
  pose proof (Zdigits2_mul_lower a b Ha Hb).
  assert (Hprec : prec = 53) by reflexivity.
  unfold SF64mul, SFmul, canon. cbn [xorb].
  apply binary_round_aux_exact; [nia | lia |].
  rewrite Pos2Z.inj_mul, !Z2Pos.id by assumption.
  replace (- (Zdigits2 a - prec + (Zdigits2 b - prec)))
    with ((prec - Zdigits2 a) + (prec - Zdigits2 b)) by lia.
  rewrite Z.pow_add_r by lia. ring.
Qed.

(** The sum of two exactly represented positive integers, when it is
    below [2^53], is exact. *)
Lemma SFadd_exact a b :
  0 < a -> 0 < b -> a + b < 2 ^ prec ->
  SF64add (canon a) (canon b) = canon (a + b).
Proof.
  intros Ha Hb Hab.
  assert (Ha' : 0 < a < 2 ^ prec) by lia.
  assert (Hb' : 0 < b < 2 ^ prec) by lia.
  pose proof (canon_mantissa_pos a Ha') as Pa. pose proof (canon_mantissa_pos b Hb') as Pb.
  assert (Da : Zdigits2 a <= prec) by (apply Zdigits2_le; unfold prec in *; lia).
  assert (Db : Zdigits2 b <= prec) by (apply Zdigits2_le; unfold prec in *; lia).
  unfold SF64add, SFadd, canon. cbn [cond_Zopp].
  set (ea := Zdigits2 a - prec). set (eb := Zdigits2 b - prec).
  set (ez := Z.min ea eb).
  assert (Ma : Zpos (fst (shl_align (Z.to_pos (a * 2 ^ (prec - Zdigits2 a))) ea ez))
               = a * 2 ^ (- ez)).
  { unfold shl_align. destruct (ez - ea) as [| d | d] eqn:Ed; cbn [fst].
    - rewrite Z2Pos.id by assumption. f_equal. f_equal. unfold ea in *. lia.
    - unfold ez in Ed. lia.
    - rewrite iter_xO, Z2Pos.id by assumption.
      replace (- ez) with (prec - Zdigits2 a + Zpos d) by (unfold ea in *; lia).
      rewrite Z.pow_add_r by lia. ring. }
  assert (Mb : Zpos (fst (shl_align (Z.to_pos (b * 2 ^ (prec - Zdigits2 b))) eb ez))
               = b * 2 ^ (- ez)).
  { unfold shl_align. destruct (ez - eb) as [| d | d] eqn:Ed; cbn [fst].
    - rewrite Z2Pos.id by assumption. f_equal. f_equal. unfold eb in *. lia.
    - unfold ez in Ed. lia.
    - rewrite iter_xO, Z2Pos.id by assumption.
      replace (- ez) with (prec - Zdigits2 b + Zpos d) by (unfold eb in *; lia).
      rewrite Z.pow_add_r by lia. ring. }
  rewrite Ma, Mb.
  assert (Pz : 0 < 2 ^ (- ez)) by (apply Z.pow_pos_nonneg; unfold ez, ea, eb; lia).
  destruct (a * 2 ^ (- ez) + b * 2 ^ (- ez)) as [| p | p] eqn:Es; try nia.
  cbn [binary_normalize].
  apply binary_round_exact; [lia | unfold ez, ea, eb; lia |].
  rewrite <- Es. ring.
Qed.

Lemma holds_digits m e a : 0 < a -> holds m e a -> Zdigits2 (Zpos m) + e = Zdigits2 a.
Proof.
  intros Ha [He Hm]. rewrite Hm, Zdigits2_shift by lia. lia.
Qed.

(** The quotient of two integers, when the division is exact and the
    quotient is below [2^53], is exact. *)
Lemma SFdiv_exact sa sb ma ea mb eb b N :
  0 < b -> 0 < N < 2 ^ prec ->
  holds ma ea (N * b) -> holds mb eb b ->
  SF64div (S754_finite sa ma ea) (S754_finite sb mb eb) =
  S754_finite (xorb sa sb) (Z.to_pos (N * 2 ^ (prec - Zdigits2 N))) (Zdigits2 N - prec).
Proof.
  intros Hb HN Ha Hhb.
  pose proof (holds_digits ma ea (N * b) ltac:(nia) Ha) as Da.
  pose proof (holds_digits mb eb b Hb Hhb) as Db.
  destruct Ha as [Hea Hma], Hhb as [Heb Hmb].
  pose proof (Zdigits2_mul_lower N b ltac:(lia) Hb) as L.
  pose proof (Zdigits2_mul_upper N b ltac:(lia) Hb) as U.
  pose proof (Zdigits2_pos N ltac:(lia)) as PN.
  assert (DN : Zdigits2 N <= prec) by (apply Zdigits2_le; unfold prec in *; lia).
  unfold SF64div, SFdiv, SFdiv_core_binary.
  replace (Zdigits2 (Zpos ma) + ea - (Zdigits2 (Zpos mb) + eb))
    with (Zdigits2 (N * b) - Zdigits2 b) by lia.
  remember (Z.min (fexp prec emax (Zdigits2 (N * b) - Zdigits2 b)) (ea - eb)) as e' eqn:Ee'.
  assert (He' : e' <= Zdigits2 N - prec /\ e' <= ea - eb)
    by (unfold fexp, emin, prec, emax in *; lia).
  remember (ea - eb - e') as s eqn:Es.
  assert (Hm' : match s with
                | Z0 => Zpos ma
                | Zpos _ => Z.shiftl (Zpos ma) s
                | Zneg _ => 0
                end = Zpos mb * (N * 2 ^ (- e'))).
  { assert (Hs : 0 <= s) by lia.
    assert (G : Zpos ma * 2 ^ s = Zpos mb * (N * 2 ^ (- e'))).
    { rewrite Hma, Hmb.
      replace (- e') with (s + (- ea) - (- eb)) by lia.
      assert (Hx : 2 ^ (s + - ea) = 2 ^ (s + - ea - - eb) * 2 ^ (- eb)).
      { rewrite <- Z.pow_add_r by lia. f_equal. lia. }
      rewrite (Z.pow_add_r 2 s (- ea)) in Hx by lia.
      transitivity (N * b * (2 ^ s * 2 ^ (- ea))); [ring|].
      rewrite Hx. ring. }
    destruct s as [| p | p]; [| | lia].
    - rewrite Z.pow_0_r, Z.mul_1_r in G. exact G.
    - rewrite Z.shiftl_mul_pow2 by lia. exact G. }
  rewrite Hm'.
  assert (Pq : 0 < 2 ^ (- e')) by (apply Z.pow_pos_nonneg; lia).
  assert (DE : Z.div_eucl (Zpos mb * (N * 2 ^ (- e'))) (Zpos mb) = (N * 2 ^ (- e'), 0)).
  { pose proof (Z_div_mod (Zpos mb * (N * 2 ^ (- e'))) (Zpos mb) ltac:(lia)) as DM.
    destruct (Z.div_eucl _ _) as [q r]. destruct DM as [E R].
    assert (q = N * 2 ^ (- e')) by nia. f_equal; nia. }
  rewrite DE.
  replace (new_location (Zpos mb) 0) with loc_Exact
    by (unfold new_location, new_location_even, new_location_odd;
        destruct (Z.even (Zpos mb)); reflexivity).
  apply binary_round_aux_exact; [assumption | lia | reflexivity].
Qed.

Lemma holds_int (p : positive) : holds p 0 (Zpos p).
Proof. split; [lia | cbn; lia]. Qed.

Lemma holds_canon N :
  0 < N < 2 ^ prec ->
  holds (Z.to_pos (N * 2 ^ (prec - Zdigits2 N))) (Zdigits2 N - prec) N.
Proof.
  intros HN.
  assert (DN : Zdigits2 N <= prec) by (apply Zdigits2_le; unfold prec in *; lia).
  split; [lia|]. rewrite Z2Pos.id by (apply canon_mantissa_pos; assumption).
  f_equal. f_equal. lia.
Qed.



(** ** Binary64: exact integer arithmetic on doubles *)

Lemma Prim2SF_fl N : 0 < N < 2 ^ prec -> Prim2SF (fl N) = canon N.
Proof. intros HN. unfold fl. apply Prim2SF_SF2Prim, canon_valid, HN. Qed.

Lemma float_of_int_exact N : 0 < N < 2 ^ prec -> float_of_int N = Ok (fl N).
Proof.
  intros HN. unfold float_of_int. rewrite binary_normalize_exact by assumption.
  reflexivity.
Qed.

Lemma mul_fl a b :
  0 < a -> 0 < b -> a * b < 2 ^ prec -> (fl a * fl b)%float = fl (a * b).
Proof.
  intros Ha Hb Hab. apply Prim2SF_inj.
  rewrite mul_spec, !Prim2SF_fl by nia. apply SFmul_exact; assumption.
Qed.

Lemma add_fl a b :
  0 < a -> 0 < b -> a + b < 2 ^ prec -> (fl a + fl b)%float = fl (a + b).
Proof.
  intros Ha Hb Hab. apply Prim2SF_inj.
  rewrite add_spec, !Prim2SF_fl by lia. apply SFadd_exact; assumption.
Qed.

Lemma div_fl b N :
  0 < b -> 0 < N -> N * b < 2 ^ prec -> (fl (N * b) / fl b)%float = fl N.
Proof.
  intros Hb HN Hab. apply Prim2SF_inj.
  rewrite div_spec, !Prim2SF_fl by nia. unfold canon at 1 2.
  apply (SFdiv_exact false false _ _ _ _ b N); [assumption | nia | |];
    apply holds_canon; nia.
Qed.

Lemma int_truediv_exact b N :
  0 < b -> 0 < N < 2 ^ prec -> int_truediv (N * b) b = Ok (fl N).
Proof.
  intros Hb HN. unfold int_truediv.
  destruct (Z.eqb_spec b 0) as [| _]; [lia|].
  destruct (Z.eqb_spec (N * b) 0) as [| _]; [nia|].
  assert (E : SF64div (sf_of_Z (N * b)) (sf_of_Z b) = canon N).
  { destruct (N * b) as [| pa | pa] eqn:Ea; try nia.
    destruct b as [| pb | pb]; try lia. cbn [sf_of_Z].
    apply (SFdiv_exact false false pa 0 pb 0 (Zpos pb) N); [lia | assumption | |].
    - rewrite Ea. apply holds_int.
    - apply holds_int. }
  rewrite E. reflexivity.
Qed.

Lemma fl_nonzero N : 0 < N < 2 ^ prec -> PrimFloat.eqb (fl N) 0 = false.
Proof. intros HN. rewrite eqb_spec, Prim2SF_fl by assumption. reflexivity. Qed.

(** [abs(x - x) < 1] on an exactly represented integer. *)
Lemma sub_fl_self_lt_one N :
  0 < N < 2 ^ prec -> lt_one (PyNum.abs (PyFloat (fl N - fl N))) = true.
Proof.
  intros HN. cbn [PyNum.abs lt_one].
  rewrite ltb_spec, abs_spec, sub_spec, Prim2SF_fl by assumption.
  unfold canon, SF64sub, SFsub. rewrite Z.sub_diag. reflexivity.
Qed.

Lemma fl_represents N : 0 < N < 2 ^ prec -> represents (fl N) N.
Proof.
  intros HN. eexists _, _. split; [apply Prim2SF_fl; assumption|].
  apply holds_canon; assumption.
Qed.

Lemma mul_float_int a b :
  0 < a -> 0 < b -> a * b < 2 ^ prec ->
  mul (PyFloat (fl a)) (PyInt b) = Ok (PyFloat (fl (a * b))).
Proof.
  intros Ha Hb Hab. unfold mul, arith. cbn [to_float bind].
  rewrite float_of_int_exact by nia. cbn [bind]. rewrite mul_fl by assumption.
  reflexivity.
Qed.

Lemma mul_int_float a b :
  0 < a -> 0 < b -> a * b < 2 ^ prec ->
  mul (PyInt a) (PyFloat (fl b)) = Ok (PyFloat (fl (a * b))).
Proof.
  intros Ha Hb Hab. unfold mul, arith. cbn [to_float bind].
  rewrite float_of_int_exact by nia. cbn [bind]. rewrite mul_fl by assumption.
  reflexivity.
Qed.

Lemma add_int_float a b :
  0 < a -> 0 < b -> a + b < 2 ^ prec ->
  add (PyInt a) (PyFloat (fl b)) = Ok (PyFloat (fl (a + b))).
Proof.
  intros Ha Hb Hab. unfold add, arith. cbn [to_float bind].
  rewrite float_of_int_exact by lia. cbn [bind]. rewrite add_fl by assumption.
  reflexivity.
Qed.

Lemma truediv_int_int b N :
  0 < b -> 0 < N < 2 ^ prec ->
  truediv (PyInt (N * b)) (PyInt b) = Ok (PyFloat (fl N)).
Proof.
  intros Hb HN. unfold truediv. rewrite int_truediv_exact by assumption.
  reflexivity.
Qed.

Lemma truediv_float_float b N :
  0 < b -> 0 < N -> N * b < 2 ^ prec ->
  truediv (PyFloat (fl (N * b))) (PyFloat (fl b)) = Ok (PyFloat (fl N)).
Proof.
  intros Hb HN Hab. unfold truediv. cbn [to_float bind].
  rewrite fl_nonzero by nia. rewrite div_fl by assumption. reflexivity.
Qed.

Lemma close_fl_self N :
  0 < N < 2 ^ prec -> close (PyFloat (fl N)) (PyInt N) = Ok true.
Proof.
  intros HN. unfold close, PyNum.sub, arith. cbn [to_float bind].
  rewrite float_of_int_exact by assumption. cbn [bind].
  rewrite sub_fl_self_lt_one by assumption. reflexivity.
Qed.

Lemma within_one_fl N : 0 < N < 2 ^ prec -> within_one (fl N) N = true.
Proof.
  intros HN. unfold within_one. rewrite Prim2SF_fl by assumption. unfold canon.
  pose proof (canon_mantissa_pos N HN) as Pm.
  assert (DN : Zdigits2 N <= prec) by (apply Zdigits2_le; unfold prec in *; lia).
  rewrite Z2Pos.id by assumption.
  destruct (Zdigits2 N - prec) as [| k | k] eqn:E; try lia.
  - replace (prec - Zdigits2 N) with 0 by lia.
    replace (N * 2 ^ 0 * 2 ^ 0 - N) with 0 by (cbn; lia). reflexivity.
  - replace (prec - Zdigits2 N) with (Zpos k) by lia.
    rewrite Z.sub_diag. apply Z.ltb_lt. cbn [Z.abs].
    apply Z.pow_pos_nonneg; lia.
Qed.

(** ** Binary64: rounding to one unit in the last place *)

Lemma Zdigits2_div_pow2 m n :
  0 < m -> 0 <= n < Zdigits2 m -> Zdigits2 (m / 2 ^ n) = Zdigits2 m - n.
Proof.
  intros Hm Hn.
  pose proof (Zdigits2_lower m Hm) as L. pose proof (Zdigits2_upper m ltac:(lia)) as U.
  assert (Pn : 0 < 2 ^ n) by (apply Z.pow_pos_nonneg; lia).
  assert (E : 2 ^ (Zdigits2 m - 1) = 2 ^ (Zdigits2 m - n - 1) * 2 ^ n)
    by (rewrite <- Z.pow_add_r by lia; f_equal; lia).
  assert (E' : 2 ^ Zdigits2 m = 2 ^ (Zdigits2 m - n) * 2 ^ n)
    by (rewrite <- Z.pow_add_r by lia; f_equal; lia).
  assert (Lq : 2 ^ (Zdigits2 m - n - 1) <= m / 2 ^ n)
    by (apply Z.div_le_lower_bound; lia).
  assert (Uq : m / 2 ^ n < 2 ^ (Zdigits2 m - n))
    by (apply Z.div_lt_upper_bound; lia).
  assert (0 < 2 ^ (Zdigits2 m - n - 1)) by (apply Z.pow_pos_nonneg; lia).
  apply Zdigits2_unique; lia.
Qed.

(** Rounding a mantissa of at least 53 bits in the normal range: the
    result is finite, has 53 bits, and differs from the mantissa by at most
    one unit of its last place. *)
Lemma binary_round_aux_faithful s m e l :
  0 < m -> prec <= Zdigits2 m ->
  emin <= Zdigits2 m + e - prec ->
  Zdigits2 m + e < emax ->
  exists mf k,
    binary_round_aux prec emax s m e l = S754_finite s mf (e + k)
    /\ Zdigits2 m - prec <= k <= Zdigits2 m - prec + 1
    /\ Zdigits2 (Zpos mf) = prec
    /\ m - 2 ^ k < Zpos mf * 2 ^ k <= m + 2 ^ k.
Proof.
  intros Hm Hd Hmin Hmax.
  assert (Hprec : prec = 53) by reflexivity.
  assert (Hemax : emax = 1024) by reflexivity.
  assert (Hemin : emin = -1074) by reflexivity.
  unfold binary_round_aux, shr_fexp.
  assert (F1 : fexp prec emax (Zdigits2 m + e) - e = Zdigits2 m - prec)
    by (unfold fexp; lia).
  rewrite F1.
  set (n1 := Zdigits2 m - prec) in *.
  pose proof (shr_spec (shr_record_of_loc m l) e n1) as S1.
  rewrite shr_record_of_loc_m in S1. specialize (S1 ltac:(lia)).
  destruct (shr (shr_record_of_loc m l) e n1) as [mrs1 e1]. cbn [fst snd] in S1.
  destruct S1 as [E1 M1]. rewrite Z.max_r in E1, M1 by lia.
  assert (P1 : 0 < 2 ^ n1) by (apply Z.pow_pos_nonneg; lia).
  assert (D1 : Zdigits2 (shr_m mrs1) = prec).
  { rewrite M1, Zdigits2_div_pow2 by lia. lia. }
  assert (N1 : 0 <= shr_m mrs1) by (rewrite M1; apply Z.div_pos; lia).
  assert (N1' : 0 < shr_m mrs1).
  { destruct (Z.eq_dec (shr_m mrs1) 0) as [E0 | ]; [| lia].
    rewrite E0 in D1. cbn in D1. lia. }
  assert (B1 : 2 ^ (prec - 1) <= shr_m mrs1 < 2 ^ prec).
  { split.
    - rewrite <- D1. apply Zdigits2_lower. exact N1'.
    - rewrite <- D1. apply Zdigits2_upper. exact N1. }
  assert (Fl : shr_m mrs1 * 2 ^ n1 <= m < (shr_m mrs1 + 1) * 2 ^ n1).
  { rewrite M1. pose proof (Z.mul_div_le m (2 ^ n1) P1).
    pose proof (Z.mul_succ_div_gt m (2 ^ n1) P1). lia. }
  set (m1 := round_nearest_even (shr_m mrs1) (loc_of_shr_record mrs1)).
  pose proof (round_nearest_even_bounds (shr_m mrs1) (loc_of_shr_record mrs1)) as R1.
  fold m1 in R1.
  assert (P52 : 2 ^ (prec - 1) = 4503599627370496) by reflexivity.
  assert (P53 : 2 ^ prec = 9007199254740992) by reflexivity.
  destruct (Z.eq_dec m1 (2 ^ prec)) as [Ecarry | Ncarry].
  - (* the rounding carried into a 54th bit *)
    assert (Dm1 : Zdigits2 m1 = prec + 1) by (rewrite Ecarry; reflexivity).
    assert (F2 : fexp prec emax (Zdigits2 m1 + e1) - e1 = 1) by (unfold fexp; lia).
    rewrite F2. rewrite Ecarry.
    exists (Z.to_pos (2 ^ (prec - 1))), (n1 + 1).
    split; [| split; [lia | split; [reflexivity|]]].
    + change (shr (shr_record_of_loc (2 ^ prec) loc_Exact) e1 1)
        with ({| shr_m := 2 ^ (prec - 1); shr_r := false; shr_s := false |}, e1 + 1).
      cbn [shr_m]. rewrite P52. cbn [Z.to_pos].
      destruct (Z.leb_spec (e1 + 1) (emax - prec)); [| lia].
      f_equal. lia.
    + rewrite Z.pow_add_r, Z.pow_1_r by lia.
      change (Zpos (Z.to_pos (2 ^ (prec - 1)))) with (2 ^ (prec - 1)).
      nia.
  - assert (Bm1 : 2 ^ (prec - 1) <= m1 < 2 ^ prec) by lia.
    assert (Dm1 : Zdigits2 m1 = prec).
    { apply Zdigits2_unique; lia. }
    assert (F2 : fexp prec emax (Zdigits2 m1 + e1) - e1 = 0) by (unfold fexp; lia).
    rewrite F2. cbn [shr].
    rewrite shr_record_of_loc_m.
    destruct m1 as [| p1 | p1] eqn:Em1; try lia.
    exists p1, n1.
    split; [| split; [lia | split; [exact Dm1|]]].
    + destruct (Z.leb_spec e1 (emax - prec)); [| lia].
      f_equal. lia.
    + nia.
Qed.

Lemma canon_mantissa_digits N :
  0 < N < 2 ^ prec -> Zdigits2 (N * 2 ^ (prec - Zdigits2 N)) = prec.
Proof.
  intros HN.
  assert (DN : Zdigits2 N <= prec) by (apply Zdigits2_le; unfold prec in *; lia).
  rewrite Zdigits2_shift by lia. lia.
Qed.

(** The rounded product of two exactly represented integers. *)
Lemma SFmul_faithful A X :
  0 < A < 2 ^ prec -> 0 < X < 2 ^ prec ->
  let M := (A * 2 ^ (prec - Zdigits2 A)) * (X * 2 ^ (prec - Zdigits2 X)) in
  let e := (Zdigits2 A - prec) + (Zdigits2 X - prec) in
  exists mf k,
    SF64mul (canon A) (canon X) = S754_finite false mf (e + k)
    /\ prec - 1 <= k <= prec + 1
    /\ Zdigits2 (Zpos mf) = prec
    /\ M - 2 ^ k < Zpos mf * 2 ^ k <= M + 2 ^ k.
Proof.
  intros HA HX M e.
  assert (Hprec : prec = 53) by reflexivity.
  assert (Hemax : emax = 1024) by reflexivity.
  assert (Hemin : emin = -1074) by reflexivity.
  pose proof (canon_mantissa_pos A HA) as PA. pose proof (canon_mantissa_pos X HX) as PX.
  pose proof (canon_mantissa_digits A HA) as DA. pose proof (canon_mantissa_digits X HX) as DX.
  pose proof (Zdigits2_pos A ltac:(lia)). pose proof (Zdigits2_pos X ltac:(lia)).
  assert (Zdigits2 A <= prec) by (apply Zdigits2_le; lia).
  assert (Zdigits2 X <= prec) by (apply Zdigits2_le; lia).
  pose proof (Zdigits2_mul_lower _ _ PA PX) as L.
  pose proof (Zdigits2_mul_upper _ _ PA PX) as U.
  fold M in L, U. rewrite DA, DX in L, U.
  unfold SF64mul, SFmul, canon. cbn [xorb].
  rewrite Pos2Z.inj_mul, !Z2Pos.id by assumption. fold M. fold e.
  destruct (binary_round_aux_faithful false M e loc_Exact) as (mf & k & E & Hk & Dm & B).
  - unfold M. nia.
  - lia.
  - unfold e. lia.
  - unfold e. lia.
  - exists mf, k. split; [exact E | split; [lia | split; [exact Dm | exact B]]].
Qed.

(** The rounded quotient of a 53-bit double by an exactly represented
    integer. *)
Lemma SFdiv_faithful mf ef X :
  Zdigits2 (Zpos mf) = prec -> -200 <= ef <= 200 ->
  0 < X < 2 ^ prec ->
  let MX := X * 2 ^ (prec - Zdigits2 X) in
  let q := (Zpos mf * 2 ^ prec) / MX in
  let e' := ef - (Zdigits2 X - prec) - prec in
  exists mf2 k2,
    SF64div (S754_finite false mf ef) (canon X) = S754_finite false mf2 (e' + k2)
    /\ 0 <= k2 <= 2
    /\ Zdigits2 (Zpos mf2) = prec
    /\ q - 2 ^ k2 < Zpos mf2 * 2 ^ k2 <= q + 2 ^ k2.
Proof.
  intros Dmf Hef HX MX q e'.
  assert (Hprec : prec = 53) by reflexivity.
  assert (Hemax : emax = 1024) by reflexivity.
  assert (Hemin : emin = -1074) by reflexivity.
  assert (P52 : 2 ^ (prec - 1) = 4503599627370496) by reflexivity.
  assert (P53 : 2 ^ prec = 9007199254740992) by reflexivity.
  pose proof (canon_mantissa_pos X HX) as PX. fold MX in PX.
  pose proof (canon_mantissa_digits X HX) as DX. fold MX in DX.
  pose proof (Zdigits2_pos X ltac:(lia)).
  assert (Zdigits2 X <= prec) by (apply Zdigits2_le; lia).
  pose proof (Zdigits2_lower MX PX) as LX. pose proof (Zdigits2_upper MX ltac:(lia)) as UX.
  pose proof (Zdigits2_lower (Zpos mf) ltac:(lia)) as Lf.
  pose proof (Zdigits2_upper (Zpos mf) ltac:(lia)) as Uf.
  rewrite DX in LX, UX. rewrite Dmf in Lf, Uf.
  unfold SF64div, SFdiv, canon, SFdiv_core_binary. cbn [xorb].
  rewrite Z2Pos.id by assumption. fold MX.
  rewrite Dmf, DX.
  replace (prec + ef - (prec + (Zdigits2 X - prec))) with (ef - (Zdigits2 X - prec)) by lia.
  assert (F : fexp prec emax (ef - (Zdigits2 X - prec)) = e') by (unfold fexp, e'; lia).
  rewrite F.
  rewrite Z.min_l by (unfold e'; lia).
  replace (ef - (Zdigits2 X - prec) - e') with prec by (unfold e'; lia).
  change (match prec with
          | 0 => Zpos mf
          | Zpos _ => Z.shiftl (Zpos mf) prec
          | Zneg _ => 0
          end) with (Z.shiftl (Zpos mf) prec).
  rewrite Z.shiftl_mul_pow2 by lia.
  pose proof (Z_div_mod (Zpos mf * 2 ^ prec) MX ltac:(lia)) as DM.
  unfold q.
  replace (Zpos mf * 2 ^ prec / MX) with (fst (Z.div_eucl (Zpos mf * 2 ^ prec) MX))
    by reflexivity.
  destruct (Z.div_eucl (Zpos mf * 2 ^ prec) MX) as [q0 r0]. cbn [fst].
  destruct DM as [Eq Hr].
  assert (Bq : 2 ^ (prec - 1) <= q0 < 2 ^ (prec + 1)).
  { rewrite Z.pow_add_r, Z.pow_1_r by lia. nia. }
  assert (Dq : prec <= Zdigits2 q0 <= prec + 1).
  { split.
    - destruct (Z_le_gt_dec prec (Zdigits2 q0)); [assumption|]. exfalso.
      pose proof (Zdigits2_upper q0 ltac:(lia)).
      assert (2 ^ Zdigits2 q0 <= 2 ^ (prec - 1)) by (apply Z.pow_le_mono_r; lia). lia.
    - apply Zdigits2_le; lia. }
  destruct (binary_round_aux_faithful false q0 e' (new_location MX r0))
    as (mf2 & k2 & E & Hk & Dm & B).
  - lia.
  - lia.
  - unfold e'. lia.
  - unfold e'. lia.
  - exists mf2, k2. split; [exact E | split; [lia | split; [exact Dm | exact B]]].
Qed.

Lemma pow2_small j : 0 <= j <= 2 -> 2 ^ j = 1 \/ 2 ^ j = 2 \/ 2 ^ j = 4.
Proof.
  intros H. assert (E : j = 0 \/ j = 1 \/ j = 2) by lia.
  destruct E as [-> | [-> | ->]]; cbn; auto.
Qed.

(** The integer content of "multiply by [X], round, divide by [X], round":
    the result is within 28 units of [2 T] at the scale [2^(j + k2)]. *)
Lemma mul_div_round_arith T MX mf q mf2 j k2 :
  0 <= j <= 2 -> 0 <= k2 <= 2 ->
  2 ^ 52 <= MX ->
  T * MX - 2 ^ (52 + j) < mf * 2 ^ (52 + j) <= T * MX + 2 ^ (52 + j) ->
  q * MX <= mf * 2 ^ 53 < (q + 1) * MX ->
  q - 2 ^ k2 < mf2 * 2 ^ k2 <= q + 2 ^ k2 ->
  2 * T - 28 <= mf2 * 2 ^ (j + k2) <= 2 * T + 28.
Proof.
  intros Hj Hk2 HMX H1 Hq H2.
  rewrite Z.pow_add_r in * by lia.
  change (2 ^ 52) with 4503599627370496 in *.
  change (2 ^ 53) with 9007199254740992 in *.
  pose proof (pow2_small j Hj) as Pj. pose proof (pow2_small k2 Hk2) as Pk.
  set (pj := 2 ^ j) in *. set (pk := 2 ^ k2) in *.
  assert (Q : 2 * T - 2 * pj - pj <= q * pj <= 2 * T + 2 * pj).
  { assert (U : (q * pj) * MX <= (2 * T + 2 * pj) * MX)
      by (destruct Pj as [-> | [-> | ->]]; lia).
    assert (L : (2 * T - 2 * pj - pj) * MX < (q * pj + 1) * MX)
      by (destruct Pj as [-> | [-> | ->]]; lia).
    apply Z.mul_le_mono_pos_r in U; [| lia].
    apply Z.mul_lt_mono_pos_r in L; [| lia].
    lia. }
  destruct Pj as [Ej | [Ej | Ej]], Pk as [Ek | [Ek | Ek]]; rewrite Ej, Ek in *; lia.
Qed.

(** A 53-bit double below the integer [A] by less than one, or above it by
    less than one: their difference, rounded, is below one. *)
Lemma SFsub_close mf ef A :
  0 < A < 2 ^ prec -> - prec <= ef < 0 ->
  Z.abs (Zpos mf - A * 2 ^ (- ef)) < 2 ^ (- ef) ->
  SFltb (SFabs (SF64sub (S754_finite false mf ef) (canon A))) (Prim2SF 1) = true.
Proof.
  intros HA Hef Hclose.
  assert (Hprec : prec = 53) by reflexivity.
  assert (Hemax : emax = 1024) by reflexivity.
  assert (Hemin : emin = -1074) by reflexivity.
  assert (One : Prim2SF 1 = S754_finite false 4503599627370496 (-52)) by reflexivity.
  rewrite One.
  pose proof (canon_mantissa_pos A HA) as PA.
  pose proof (Zdigits2_pos A ltac:(lia)) as PdA.
  assert (DA : Zdigits2 A <= prec) by (apply Zdigits2_le; lia).
  unfold SF64sub, SFsub, canon. cbn [cond_Zopp].
  set (EA := Zdigits2 A - prec). set (ez := Z.min ef EA).
  assert (Hez : - prec <= ez <= 0) by (unfold ez, EA; lia).
  assert (M1 : Zpos (fst (shl_align mf ef ez)) = Zpos mf * 2 ^ (ef - ez)).
  { unfold shl_align. destruct (ez - ef) as [| d | d] eqn:Ed; cbn [fst].
    - replace (ef - ez) with 0 by lia. rewrite Z.pow_0_r. lia.
    - unfold ez in Ed. lia.
    - rewrite iter_xO. f_equal. f_equal. lia. }
  assert (M2 : Zpos (fst (shl_align (Z.to_pos (A * 2 ^ (prec - Zdigits2 A))) EA ez))
               = A * 2 ^ (- ez)).
  { unfold shl_align. destruct (ez - EA) as [| d | d] eqn:Ed; cbn [fst].
    - rewrite Z2Pos.id by assumption. f_equal. f_equal. unfold EA in *. lia.
    - unfold ez in Ed. lia.
    - rewrite iter_xO, Z2Pos.id by assumption.
      replace (- ez) with (prec - Zdigits2 A + Zpos d) by (unfold EA in *; lia).
      rewrite Z.pow_add_r by lia. ring. }
  rewrite M1, M2.
  set (delta := Zpos mf * 2 ^ (ef - ez) - A * 2 ^ (- ez)).
  assert (Hdelta : Z.abs delta < 2 ^ (- ez)).
  { assert (Ps : 0 < 2 ^ (ef - ez)) by (apply Z.pow_pos_nonneg; unfold ez; lia).
    assert (E : delta = (Zpos mf - A * 2 ^ (- ef)) * 2 ^ (ef - ez)).
    { unfold delta. rewrite Z.mul_sub_distr_r. f_equal.
      rewrite <- Z.mul_assoc, <- Z.pow_add_r by (unfold ez; lia).
      f_equal. f_equal. lia. }
    rewrite E, Z.abs_mul, (Z.abs_eq (2 ^ (ef - ez))) by lia.
    replace (2 ^ (- ez)) with (2 ^ (- ef) * 2 ^ (ef - ez))
      by (rewrite <- Z.pow_add_r by (unfold ez; lia); f_equal; lia).
    apply Z.mul_lt_mono_pos_r; assumption. }
  assert (Pw : 2 ^ (- ez) <= 2 ^ prec) by (apply Z.pow_le_mono_r; lia).
  assert (Hres : forall s (p : positive),
             Zpos p < 2 ^ (- ez) ->
             SFltb (SFabs (binary_round prec emax s p ez))
                   (S754_finite false 4503599627370496 (-52)) = true).
  { intros s p Hp.
    assert (Dp : Zdigits2 (Zpos p) <= - ez) by (apply Zdigits2_le; lia).
    pose proof (Zdigits2_pos (Zpos p) ltac:(lia)) as Pp.
    rewrite (binary_round_scaled s (Zpos p) ez p ez);
      [| lia | lia | lia | lia | rewrite Z.sub_diag, Z.pow_0_r; lia].
    unfold SFltb. cbn [SFabs SFcompare].
    destruct (Z.compare_spec (Zdigits2 (Zpos p) + ez - prec) (-52)); [lia | reflexivity | lia]. }
  destruct delta as [| p | p] eqn:Ed; cbn [binary_normalize].
  - reflexivity.
  - apply Hres. cbn [Z.abs] in Hdelta. exact Hdelta.
  - apply Hres. cbn [Z.abs] in Hdelta. exact Hdelta.
Qed.

(** [RN (RN (A * X) / X)] is within one unit of [A] when [A < 2^46]. *)
Lemma SFmul_div_close A X :
  0 < A -> Zdigits2 A <= 46 -> 0 < X < 2 ^ prec ->
  exists mf2 ef2,
    SF64div (SF64mul (canon A) (canon X)) (canon X) = S754_finite false mf2 ef2
    /\ - prec <= ef2 < 0
    /\ Z.abs (Zpos mf2 - A * 2 ^ (- ef2)) < 2 ^ (- ef2).
Proof.
  intros HA0 DA HX.
  assert (Hprec : prec = 53) by reflexivity.
  pose proof (Zdigits2_pos A HA0) as PdA.
  assert (HA : 0 < A < 2 ^ prec).
  { split; [assumption|]. pose proof (Zdigits2_upper A ltac:(lia)).
    assert (2 ^ Zdigits2 A <= 2 ^ prec) by (apply Z.pow_le_mono_r; lia). lia. }
  pose proof (Zdigits2_pos X ltac:(lia)) as PdX.
  assert (DX : Zdigits2 X <= prec) by (apply Zdigits2_le; lia).
  destruct (SFmul_faithful A X HA HX) as (mf & k & Emul & Hk & Dmf & Bmul).
  rewrite Emul.
  destruct (SFdiv_faithful mf (Zdigits2 A - prec + (Zdigits2 X - prec) + k) X Dmf
              ltac:(lia) HX) as (mf2 & k2 & Ediv & Hk2 & Dmf2 & Bdiv).
  rewrite Ediv.
  set (c := 2 ^ (prec - Zdigits2 A)) in *.
  set (MX := X * 2 ^ (prec - Zdigits2 X)) in *.
  set (q := Zpos mf * 2 ^ prec / MX) in *.
  set (j := k - 52).
  assert (Pc : 128 <= c).
  { unfold c. change 128 with (2 ^ 7). apply Z.pow_le_mono_r; lia. }
  pose proof (canon_mantissa_pos X HX) as PMX. fold MX in PMX.
  pose proof (canon_mantissa_digits X HX) as DMX. fold MX in DMX.
  pose proof (Zdigits2_lower MX PMX) as LMX. rewrite DMX in LMX.
  assert (Hq : q * MX <= Zpos mf * 2 ^ 53 < (q + 1) * MX).
  { unfold q. change (2 ^ prec) with (2 ^ 53).
    pose proof (Z.mul_div_le (Zpos mf * 2 ^ 53) MX PMX).
    pose proof (Z.mul_succ_div_gt (Zpos mf * 2 ^ 53) MX PMX). lia. }
  assert (R : 2 * (A * c) - 28 <= Zpos mf2 * 2 ^ (j + k2) <= 2 * (A * c) + 28).
  { apply (mul_div_round_arith (A * c) MX (Zpos mf) q (Zpos mf2) j k2).
    - unfold j. lia.
    - lia.
    - exact LMX.
    - replace (52 + j) with k by (unfold j; lia).
      replace (A * c * MX) with (A * c * (X * 2 ^ (prec - Zdigits2 X)))
        by reflexivity.
      exact Bmul.
    - exact Hq.
    - exact Bdiv. }
  eexists mf2, _. split; [reflexivity|].
  set (ef2 := Zdigits2 A - prec + (Zdigits2 X - prec) + k - (Zdigits2 X - prec) - prec + k2).
  assert (Eef2 : - ef2 = prec - Zdigits2 A + 1 - (j + k2)) by (unfold ef2, j; lia).
  split; [unfold ef2; lia|].
  assert (Pjk : 0 < 2 ^ (j + k2)) by (apply Z.pow_pos_nonneg; unfold j; lia).
  assert (W : 2 ^ (- ef2) * 2 ^ (j + k2) = 2 * c).
  { rewrite <- Z.pow_add_r by (unfold j; lia). rewrite Eef2. unfold c.
    replace (prec - Zdigits2 A + 1 - (j + k2) + (j + k2)) with (1 + (prec - Zdigits2 A)) by lia.
    rewrite Z.pow_add_r by lia. reflexivity. }
  set (w := 2 ^ (- ef2)) in *.
  apply Z.abs_lt. split.
  - apply (Z.mul_lt_mono_pos_r (2 ^ (j + k2))); [assumption|].
    replace ((Zpos mf2 - A * w) * 2 ^ (j + k2))
      with (Zpos mf2 * 2 ^ (j + k2) - A * (w * 2 ^ (j + k2))) by ring.
    rewrite Z.mul_opp_l, W. lia.
  - apply (Z.mul_lt_mono_pos_r (2 ^ (j + k2))); [assumption|].
    replace ((Zpos mf2 - A * w) * 2 ^ (j + k2))
      with (Zpos mf2 * 2 ^ (j + k2) - A * (w * 2 ^ (j + k2))) by ring.
    rewrite W. lia.
Qed.

Lemma mul_int_float_rounded a (g : float) :
  0 < a < 2 ^ prec -> mul (PyInt a) (PyFloat g) = Ok (PyFloat (fl a * g)).
Proof.
  intros Ha. unfold mul, arith. cbn [to_float bind].
  rewrite float_of_int_exact by assumption. reflexivity.
Qed.

(** ** Stable swap: balanced reserves *)

(** One Newton step from [D = 2 r] on reserves [r, r] gives [2 r] again
    when the integers involved are below [2^53]. *)
Lemma newton_D_step_balanced libm_pow ann r :
  2 <= ann -> 0 < r -> 4 * r * r * (ann + 2) < 2 ^ prec ->
  newton_D_step libm_pow ann (r + r) r r (PyInt (r + r)) = Ok (PyFloat (fl (r + r))).
Proof.
  intros Hann Hr Hb.
  assert (Hprec : 2 ^ prec = 9007199254740992) by reflexivity.
  unfold newton_D_step. cbn [PyNum.pow bind].
  replace ((r + r) ^ 3) with ((r + r) * (4 * r * r)) by ring.
  rewrite truediv_int_int by nia. rewrite bind_ok.
  rewrite mul_float_int by nia. rewrite bind_ok.
  rewrite add_int_float by nia. rewrite bind_ok.
  rewrite mul_int_float by nia. rewrite bind_ok.
  change (mul (PyInt (ann - 1)) (PyInt (r + r)))
    with (@Ok pynum (PyInt ((ann - 1) * (r + r)))).
  rewrite bind_ok.
  rewrite mul_int_float by nia. rewrite bind_ok.
  rewrite add_int_float by nia. rewrite bind_ok.
  replace ((ann - 1) * (r + r) + 3 * (r + r)) with (ann * (r + r) + (r + r) * 2) by ring.
  apply truediv_float_float; nia.
Qed.

(** On balanced reserves within the exact range the solve stops after its
    first iteration, on [2 r]. *)
Lemma get_d_balanced_exact get_ann libm_pow self r :
  StableSwap.reserve_a self = Ok r ->
  StableSwap.reserve_b self = Ok r ->
  0 < r -> 2 <= get_ann self ->
  4 * r * r * (get_ann self + 2) < 2 ^ prec ->
  StableSwap._get_d get_ann libm_pow self = Ok (PyFloat (fl (r + r))).
Proof.
  intros Ha Hb Hr Hann Hbound.
  assert (Hprec : 2 ^ prec = 9007199254740992) by reflexivity.
  rewrite (get_d_unfold get_ann libm_pow self r r Ha Hb).
  destruct (Z.eqb_spec (r + r) 0) as [| _]; [lia|].
  change 256%nat with (S 255). rewrite newton_unfold.
  rewrite newton_D_step_balanced by assumption. rewrite bind_ok.
  rewrite close_fl_self by nia. reflexivity.
Qed.

(** One Newton step from [D = 2 r] on reserves [r, r] stays within one unit
    of [2 r], and the loop test then holds, as long as [2 r (ann + 2)] is
    below [2^53]. *)
Lemma newton_D_step_balanced_close libm_pow ann r :
  126 <= ann -> 0 < r -> (r + r) * (ann + 2) < 2 ^ prec ->
  exists f,
    newton_D_step libm_pow ann (r + r) r r (PyInt (r + r)) = Ok (PyFloat f)
    /\ close (PyFloat f) (PyInt (r + r)) = Ok true
    /\ within_one f (r + r) = true.
Proof.
  intros Hann Hr Hb.
  assert (Hprec : 2 ^ prec = 9007199254740992) by reflexivity.
  set (A := r + r) in *.
  set (X := ann * A + A * 2).
  assert (HA : 0 < A < 2 ^ prec) by (unfold A in *; nia).
  assert (HX : 0 < X < 2 ^ prec) by (unfold X; nia).
  assert (DA : Zdigits2 A <= 46).
  { apply Zdigits2_le; [| lia]. change (2 ^ 46) with 70368744177664. nia. }
  exists (fl A * fl X / fl X)%float.
  assert (Rep : Prim2SF (fl A * fl X / fl X)
                = SF64div (SF64mul (canon A) (canon X)) (canon X)).
  { rewrite div_spec, mul_spec, !Prim2SF_fl by assumption. reflexivity. }
  destruct (SFmul_div_close A X ltac:(lia) DA HX) as (mf2 & ef2 & E & Hef & Hclose).
  rewrite E in Rep.
  split; [| split].
  - unfold newton_D_step. cbn [PyNum.pow bind].
    replace (A ^ 3) with (A * (4 * r * r)) by (unfold A; ring).
    rewrite truediv_int_int by nia. rewrite bind_ok.
    rewrite mul_float_int by nia. rewrite bind_ok.
    rewrite add_int_float by nia. rewrite bind_ok. fold X.
    rewrite mul_int_float_rounded by assumption. rewrite bind_ok.
    change (mul (PyInt (ann - 1)) (PyInt A))
      with (@Ok pynum (PyInt ((ann - 1) * A))).
    rewrite bind_ok.
    rewrite mul_int_float by nia. rewrite bind_ok.
    rewrite add_int_float by nia. rewrite bind_ok.
    replace ((ann - 1) * A + 3 * A) with X by (unfold X; ring).
    unfold truediv. cbn [to_float bind].
    rewrite fl_nonzero by assumption. reflexivity.
  - unfold close, PyNum.sub, arith. cbn [to_float bind].
    rewrite float_of_int_exact by assumption. cbn [bind PyNum.abs lt_one].
    rewrite ltb_spec, abs_spec, sub_spec, Rep, Prim2SF_fl by assumption.
    rewrite SFsub_close by assumption. reflexivity.
  - unfold within_one. rewrite Rep.
    destruct ef2 as [| p | p] eqn:Ee; try lia.
    apply Z.ltb_lt. exact Hclose.
Qed.

(** ** Stable swap: the two variants *)

(** C6, as stated, fails: on the balanced pool of 1_000_000 each the two
    variants compute the same D, and the same output for an input of 1_000
    (here with a correctly rounded [pow]). *)
Lemma variants_agree_on_balanced_pool :
  (forall libm_pow,
      Standard._get_d libm_pow (stable_pool 1000000 1000000) = Ok (PyFloat 2000000)
      /\ Common._get_d libm_pow (stable_pool 1000000 1000000) = Ok (PyFloat 2000000))
  /\ Standard.get_amount_out rounded_pow (stable_pool 1000000 1000000)
       [("A", 1000)] true true = Ok ([("B", 997)], PyInt 0)
  /\ Common.get_amount_out rounded_pow (stable_pool 1000000 1000000)
       [("A", 1000)] true true = Ok ([("B", 997)], PyInt 0).
Proof.
  split; [| split].
  - intros libm_pow. split; vm_compute; reflexivity.
  - vm_compute. reflexivity.
  - vm_compute. reflexivity.
Qed.

(** The shared methods read the variant through [_get_ann self] only. *)
Lemma methods_depend_on_ann_only ann1 ann2 libm_pow self :
  ann1 self = ann2 self ->
  StableSwap._get_d ann1 libm_pow self = StableSwap._get_d ann2 libm_pow self
  /\ (forall in_assets out_unit precise get_input,
         StableSwap._get_y ann1 libm_pow self in_assets out_unit precise get_input
         = StableSwap._get_y ann2 libm_pow self in_assets out_unit precise get_input)
  /\ (forall asset precise fee_on_input,
         StableSwap.get_amount_out ann1 libm_pow self asset precise fee_on_input
         = StableSwap.get_amount_out ann2 libm_pow self asset precise fee_on_input)
  /\ (forall asset precise fee_on_input,
         StableSwap.get_amount_in ann1 libm_pow self asset precise fee_on_input
         = StableSwap.get_amount_in ann2 libm_pow self asset precise fee_on_input).
Proof.
  intros H.
  assert (Hd : StableSwap._get_d ann1 libm_pow self = StableSwap._get_d ann2 libm_pow self)
    by (unfold StableSwap._get_d; rewrite H; reflexivity).
  assert (Hy : forall in_assets out_unit precise get_input,
             StableSwap._get_y ann1 libm_pow self in_assets out_unit precise get_input
             = StableSwap._get_y ann2 libm_pow self in_assets out_unit precise get_input)
    by (intros; unfold StableSwap._get_y; rewrite H, Hd; reflexivity).
  split; [exact Hd | split; [exact Hy | split]].
  - intros. unfold StableSwap.get_amount_out.
    destruct (if fee_on_input then _ else _); cbn [bind]; [| reflexivity].
    destruct (Assets.unit asset); cbn [bind]; [| reflexivity].
    rewrite Hy. reflexivity.
  - intros. unfold StableSwap.get_amount_in.
    destruct (if negb fee_on_input then _ else _); cbn [bind]; [| reflexivity].
    destruct (Assets.unit asset); cbn [bind]; [| reflexivity].
    rewrite Hy. reflexivity.
Qed.

(** C6, amended.  The standard variant computes [ann = amp * n^n = 4 amp]
    and the common one [ann = amp * n = 2 amp], two different numbers; this
    is their only difference: every other method is shared and reads the
    variant through [_get_ann] alone.  The values of D need not differ:
    on balanced reserves within the exact range both variants return the
    same D, while on the reserves 1 and 3 they return different ones. *)
Theorem ann_is_the_only_difference :
  (forall self,
      Standard._get_ann self = StableSwap.amp self * 2 ^ 2
      /\ Standard._get_ann self = 4 * StableSwap.amp self
      /\ Common._get_ann self = StableSwap.amp self * 2
      /\ Standard._get_ann self <> Common._get_ann self)
  /\ (forall libm_pow,
         Standard._get_d libm_pow = StableSwap._get_d Standard._get_ann libm_pow
         /\ Common._get_d libm_pow = StableSwap._get_d Common._get_ann libm_pow
         /\ Standard._get_y libm_pow = StableSwap._get_y Standard._get_ann libm_pow
         /\ Common._get_y libm_pow = StableSwap._get_y Common._get_ann libm_pow
         /\ Standard.get_amount_out libm_pow
            = StableSwap.get_amount_out Standard._get_ann libm_pow
         /\ Common.get_amount_out libm_pow
            = StableSwap.get_amount_out Common._get_ann libm_pow
         /\ Standard.get_amount_in libm_pow
            = StableSwap.get_amount_in Standard._get_ann libm_pow
         /\ Common.get_amount_in libm_pow
            = StableSwap.get_amount_in Common._get_ann libm_pow)
  /\ (forall ann1 ann2 libm_pow self,
         ann1 self = ann2 self ->
         StableSwap._get_d ann1 libm_pow self = StableSwap._get_d ann2 libm_pow self
         /\ (forall asset precise fee_on_input,
                StableSwap.get_amount_out ann1 libm_pow self asset precise fee_on_input
                = StableSwap.get_amount_out ann2 libm_pow self asset precise fee_on_input)
         /\ (forall asset precise fee_on_input,
                StableSwap.get_amount_in ann1 libm_pow self asset precise fee_on_input
                = StableSwap.get_amount_in ann2 libm_pow self asset precise fee_on_input))
  /\ (forall libm_pow self r,
         StableSwap.reserve_a self = Ok r ->
         StableSwap.reserve_b self = Ok r ->
         0 < r -> 4 * r * r * (300 + 2) < 2 ^ 53 ->
         Standard._get_d libm_pow self = Common._get_d libm_pow self)
  /\ (forall libm_pow,
         Standard._get_d libm_pow (stable_pool 1 3)
         <> Common._get_d libm_pow (stable_pool 1 3)).
Proof.
  split; [| split; [| split; [| split]]].
  - intros self. repeat split; try reflexivity. discriminate.
  - intros libm_pow. repeat split; reflexivity.
  - intros ann1 ann2 libm_pow self H.
    destruct (methods_depend_on_ann_only ann1 ann2 libm_pow self H) as (Hd & _ & Ho & Hi).
    split; [exact Hd | split; [exact Ho | exact Hi]].
  - intros libm_pow self r Ha Hb Hr Hbound.
    assert (Hprec : 2 ^ prec = 9007199254740992) by reflexivity.
    change (2 ^ 53) with (2 ^ prec) in Hbound.
    unfold Standard._get_d, Common._get_d.
    rewrite (get_d_balanced_exact Standard._get_ann libm_pow self r Ha Hb Hr);
      [| discriminate | exact Hbound].
    rewrite (get_d_balanced_exact Common._get_ann libm_pow self r Ha Hb Hr);
      [reflexivity | discriminate |].
    change (Common._get_ann self) with 150. lia.
  - intros libm_pow. vm_compute. discriminate.
Qed.

Lemma ann_is_the_only_difference_witness :
  Standard._get_d rounded_pow (stable_pool 1000000 1000000)
  = Common._get_d rounded_pow (stable_pool 1000000 1000000).
Proof.
  apply ann_is_the_only_difference with (r := 1000000);
    [reflexivity | reflexivity | lia | lia].
Defined.

(* ================================================================= *)
(** * Further properties of the code *)

(** ** Constant product: more on the two quotes *)

Lemma in_pair_neither u a b : u <> a -> u <> b -> in_pair u a b = false.
Proof.
  intros Ha Hb. unfold in_pair.
  now rewrite (eqb_neq_false _ _ Ha), (eqb_neq_false _ _ Hb).
Qed.

(** X1.  A single-unit bundle whose unit is neither of the pool's is
    refused by [get_amount_out] and by [get_amount_in] of the
    constant-product state with a [ValueError] whose message names the unit
    and the pool, whatever the reserves, the fee and the quantity: the check
    comes before any arithmetic. *)
Theorem cp_unknown_unit :
  forall self u q precise,
    u <> ConstantProduct.unit_a self ->
    u <> ConstantProduct.unit_b self ->
    let msg := invalid_for_pool u (ConstantProduct.unit_a self)
                                (ConstantProduct.unit_b self) in
    ConstantProduct.get_amount_out self (Assets.single u q) precise
    = Raise (ValueError msg)
    /\ ConstantProduct.get_amount_in self (Assets.single u q) precise
       = Raise (ValueError msg).
Proof.
  intros self u q precise Ha Hb msg.
  unfold ConstantProduct.get_amount_out, ConstantProduct.get_amount_in.
  single_bundle. rewrite (in_pair_neither _ _ _ Ha Hb). split; reflexivity.
Qed.

Lemma cp_unknown_unit_witness :
  ConstantProduct.get_amount_out pool_1M (Assets.single "C" 10) true
  = Raise (ValueError "Asset C is invalid for pool A-B")
  /\ ConstantProduct.get_amount_in pool_1M (Assets.single "C" 10) true
     = Raise (ValueError "Asset C is invalid for pool A-B").
Proof.
  apply (cp_unknown_unit pool_1M "C" 10 true); discriminate.
Defined.

(** Floor division is monotone in the fraction. *)
Lemma Zdiv_le_cross a b c d :
  0 < b -> 0 < d -> a * d <= c * b -> a / b <= c / d.
Proof.
  intros Hb Hd H.
  apply Z.div_le_lower_bound; [assumption|].
  (* d * (a / b) <= c *)
  pose proof (Z.mul_div_le a b Hb) as Ha.
  assert (G : (d * (a / b)) * b <= c * b) by nia.
  apply Z.mul_le_mono_pos_r in G; assumption.
Qed.

(** X2.  On a positive input-side reserve and a fee between 0 and 10000,
    the output of constant-product [get_amount_out] is monotone in the
    input: a larger input quantity never gives a smaller output quantity;
    the output is never negative and never more than the output-side
    reserve. *)
Theorem cp_out_monotone :
  forall self u q1 q2 precise rin rout uo,
    out_side self u rin rout uo ->
    0 < rin -> 0 <= rout ->
    0 <= fee_or_0 (ConstantProduct.volume_fee self) <= 10000 ->
    0 <= q1 <= q2 ->
    exists out1 out2 i1 i2,
      ConstantProduct.get_amount_out self (Assets.single u q1) precise
      = Ok (Assets.single uo out1, i1)
      /\ ConstantProduct.get_amount_out self (Assets.single u q2) precise
         = Ok (Assets.single uo out2, i2)
      /\ 0 <= out1 <= out2 /\ out2 <= rout.
Proof.
  intros self u q1 q2 precise rin rout uo Hside Hrin Hrout Hfee Hq.
  destruct (cp_out_returns self u q1 precise rin rout uo Hside Hrin ltac:(lia) Hfee)
    as [i1 H1].
  destruct (cp_out_returns self u q2 precise rin rout uo Hside Hrin ltac:(lia) Hfee)
    as [i2 H2].
  eexists _, _, i1, i2. split; [exact H1 | split; [exact H2|]].
  unfold amount_out_formula.
  set (fm := 10000 - fee_or_0 (ConstantProduct.volume_fee self)).
  assert (Hfm : 0 <= fm <= 10000) by (unfold fm; lia).
  assert (D1 : 0 < q1 * fm + rin * 10000) by nia.
  assert (D2 : 0 < q2 * fm + rin * 10000) by nia.
  split; [split |].
  - apply Z.div_pos; nia.
  - apply Zdiv_le_cross; [assumption | assumption |].
    assert (q1 * fm <= q2 * fm) by nia.
    assert (0 <= rout * (rin * 10000)) by nia.
    nia.
  - apply Z.div_le_upper_bound; [assumption|]. nia.
Qed.

Lemma cp_out_monotone_witness :
  exists out1 out2 i1 i2,
    ConstantProduct.get_amount_out pool_1M (Assets.single "A" 10000) true
    = Ok (Assets.single "B" out1, i1)
    /\ ConstantProduct.get_amount_out pool_1M (Assets.single "A" 20000) true
       = Ok (Assets.single "B" out2, i2)
    /\ 0 <= out1 <= out2 /\ out2 <= 1000000.
Proof.
  apply (cp_out_monotone pool_1M "A" 10000 20000 true 1000000 1000000 "B"
           (out_side_a pool_1M "A" eq_refl)); cbn; lia.
Defined.

(** X3.  For two constant-product pool states that differ in their fee
    only (both between 0 and 10000) and the same non-negative input,
    [get_amount_out] under the higher fee never returns the larger
    output. *)
Theorem cp_out_fee_antitone :
  forall self1 self2 u q precise rin rout uo,
    out_side self1 u rin rout uo ->
    out_side self2 u rin rout uo ->
    0 < rin -> 0 <= rout -> 0 <= q ->
    0 <= fee_or_0 (ConstantProduct.volume_fee self1) ->
    fee_or_0 (ConstantProduct.volume_fee self1)
    <= fee_or_0 (ConstantProduct.volume_fee self2) ->
    fee_or_0 (ConstantProduct.volume_fee self2) <= 10000 ->
    exists out1 out2 i1 i2,
      ConstantProduct.get_amount_out self1 (Assets.single u q) precise
      = Ok (Assets.single uo out1, i1)
      /\ ConstantProduct.get_amount_out self2 (Assets.single u q) precise
         = Ok (Assets.single uo out2, i2)
      /\ out2 <= out1.
Proof.
  intros self1 self2 u q precise rin rout uo S1 S2 Hrin Hrout Hq F0 F12 F2.
  destruct (cp_out_returns self1 u q precise rin rout uo S1 Hrin Hq ltac:(lia))
    as [i1 H1].
  destruct (cp_out_returns self2 u q precise rin rout uo S2 Hrin Hq ltac:(lia))
    as [i2 H2].
  eexists _, _, i1, i2. split; [exact H1 | split; [exact H2|]].
  unfold amount_out_formula.
  set (f1 := 10000 - fee_or_0 (ConstantProduct.volume_fee self1)).
  set (f2 := 10000 - fee_or_0 (ConstantProduct.volume_fee self2)).
  assert (Hf : 0 <= f2 <= f1 /\ f1 <= 10000) by (unfold f1, f2; lia).
  apply Zdiv_le_cross; [nia | nia |].
  assert (q * f2 <= q * f1) by nia.
  assert (0 <= rout * (rin * 10000)) by nia.
  nia.
Qed.

Lemma cp_out_fee_antitone_witness :
  exists out1 out2 i1 i2,
    ConstantProduct.get_amount_out pool_100 (Assets.single "A" 50) true
    = Ok (Assets.single "B" out1, i1)
    /\ ConstantProduct.get_amount_out (with_fee pool_100 (Some 100))
         (Assets.single "A" 50) true
       = Ok (Assets.single "B" out2, i2)
    /\ out2 <= out1.
Proof.
  apply (cp_out_fee_antitone pool_100 (with_fee pool_100 (Some 100)) "A" 50 true
           100 100 "B"
           (out_side_a pool_100 "A" eq_refl)
           (out_side_a (with_fee pool_100 (Some 100)) "A" eq_refl));
    cbn; lia.
Defined.

(** X4.  The flag [precise] has no effect on the constant-product
    quotes: for every pool state and every bundle, [get_amount_out] and
    [get_amount_in] return, or raise, the same with [precise=True] and with
    [precise=False]. *)
Theorem cp_precise_irrelevant :
  forall self asset,
    ConstantProduct.get_amount_out self asset true
    = ConstantProduct.get_amount_out self asset false
    /\ ConstantProduct.get_amount_in self asset true
       = ConstantProduct.get_amount_in self asset false.
Proof.
  intros self asset.
  unfold ConstantProduct.get_amount_out, ConstantProduct.get_amount_in.
  destruct (negb (Assets.len asset =? ONE_VALUE)); [split; reflexivity|].
  destruct (Assets.unit asset) as [u |]; [| split; reflexivity]. cbn [bind].
  destruct (negb (in_pair u _ _)); [split; reflexivity|].
  destruct (Assets.quantity asset) as [q |];
    [| split; destruct (String.eqb u _); reflexivity].
  split.
  - destruct (String.eqb u (ConstantProduct.unit_a self)); cbn [bind negb];
      destruct (int_floordiv _ _) as [o |]; cbn [bind]; try reflexivity;
      rewrite set_root_single; reflexivity.
  - destruct (String.eqb u (ConstantProduct.unit_b self)); cbn [bind negb];
      destruct (int_floordiv _ _) as [o |]; cbn [bind]; try reflexivity;
      rewrite set_root_single; reflexivity.
Qed.

(** X5.  The constant-product quotes do not depend on which side of the
    pool is stored as A and which as B: exchanging the units and the
    reserves of the two sides (the units being distinct) leaves
    [get_amount_out] and [get_amount_in] unchanged on a bundle of either
    pool unit. *)
Theorem cp_sides_symmetric :
  forall self u q precise,
    ConstantProduct.unit_a self <> ConstantProduct.unit_b self ->
    in_pair u (ConstantProduct.unit_a self) (ConstantProduct.unit_b self) = true ->
    ConstantProduct.get_amount_out (swap_sides self) (Assets.single u q) precise
    = ConstantProduct.get_amount_out self (Assets.single u q) precise
    /\ ConstantProduct.get_amount_in (swap_sides self) (Assets.single u q) precise
       = ConstantProduct.get_amount_in self (Assets.single u q) precise.
Proof.
  intros self u q precise Hab Hin.
  assert (Hba : ConstantProduct.unit_b self <> ConstantProduct.unit_a self)
    by congruence.
  unfold in_pair in Hin. apply orb_true_iff in Hin.
  unfold ConstantProduct.get_amount_out, ConstantProduct.get_amount_in, swap_sides.
  cbn [ConstantProduct.unit_a ConstantProduct.unit_b ConstantProduct.reserve_a
       ConstantProduct.reserve_b ConstantProduct.volume_fee].
  destruct Hin as [E | E]; apply String.eqb_eq in E; subst u; single_bundle;
    rewrite ?(eqb_neq_false _ _ Hab), ?(eqb_neq_false _ _ Hba); single_bundle;
    split; reflexivity.
Qed.

Lemma cp_sides_symmetric_witness :
  ConstantProduct.get_amount_out (swap_sides pool_100) (Assets.single "A" 7) true
  = ConstantProduct.get_amount_out pool_100 (Assets.single "A" 7) true.
Proof.
  apply (cp_sides_symmetric pool_100 "A" 7 true); [discriminate | reflexivity].
Defined.

(** ** Constant product: the amount in *)

Lemma out_side_in_side self u rin rout uo :
  out_side self u rin rout uo -> in_side self uo rin rout u.
Proof.
  intros [-> | Hna ->].
  - apply in_side_b. reflexivity.
  - apply in_side_a; [congruence | reflexivity].
Qed.

Lemma in_side_out_side self u rin rout uo :
  in_side self u rin rout uo -> out_side self uo rin rout u.
Proof.
  intros [-> | Hnb ->].
  - apply out_side_a. reflexivity.
  - apply out_side_b; [congruence | reflexivity].
Qed.

(** A request below the output-side reserve is answered, with the quantity
    of the formula. *)
Lemma cp_in_returns self u q precise rin rout uo :
  in_side self u rin rout uo ->
  0 < rin -> 0 < q < rout ->
  0 <= fee_or_0 (ConstantProduct.volume_fee self) < 10000 ->
  exists impact,
    ConstantProduct.get_amount_in self (Assets.single u q) precise =
    Ok (Assets.single uo
          (amount_in_formula q (fee_or_0 (ConstantProduct.volume_fee self)) rin rout),
        PyFloat impact).
Proof.
  intros Hside Hrin Hq Hfee.
  rewrite (cp_in_unfold self u q precise rin rout uo Hside).
  unfold amount_in_formula.
  set (fm := 10000 - fee_or_0 (ConstantProduct.volume_fee self)).
  assert (Hfm : 0 < fm <= 10000) by (unfold fm; lia).
  assert (Hden : 0 < (rout - q) * fm) by nia.
  rewrite int_floordiv_ok by lia. rewrite bind_ok.
  assert (Hqr : 0 < q * rin) by nia.
  assert (Hpd : rout * (q * 10000 * rin) * 10000 <> 0) by nia.
  destruct (int_truediv_le_ok
              (rout * (q * 10000 * rin) * fm - q * ((rout - q) * fm) * rin * 10000)
              (rout * (q * 10000 * rin) * 10000) Hpd) as [f Hf].
  - replace (rout * (q * 10000 * rin) * fm - q * ((rout - q) * fm) * rin * 10000)
      with ((q * rin * 10000) * (q * fm)) by ring.
    replace (rout * (q * 10000 * rin) * 10000)
      with ((q * rin * 10000) * (rout * 10000)) by ring.
    assert (Hk : 0 < q * rin * 10000) by lia.
    assert (Hle : q * fm <= rout * 10000) by nia.
    assert (0 <= q * fm) by nia.
    set (k := q * rin * 10000) in *.
    rewrite !Z.abs_eq by nia.
    apply Z.mul_le_mono_nonneg_l; lia.
  - rewrite Hf. eexists; reflexivity.
Qed.

(** X6.  For a request [0 < q < reserve_out] on a positive input-side
    reserve and a fee [0 <= fee < 10000], constant-product [get_amount_in]
    returns [floor (q * 10000 * reserve_in / ((reserve_out - q) * (10000 - fee)))]
    together with a float price impact; the amount is non-negative and at
    least the amount without fee, [floor (q * reserve_in / (reserve_out - q))]. *)
Theorem cp_in_below_reserve :
  forall self u q precise rin rout uo,
    in_side self u rin rout uo ->
    0 < rin -> 0 < q < rout ->
    0 <= fee_or_0 (ConstantProduct.volume_fee self) < 10000 ->
    let fee := fee_or_0 (ConstantProduct.volume_fee self) in
    let amount := (q * 10000 * rin) / ((rout - q) * (10000 - fee)) in
    (exists impact,
        ConstantProduct.get_amount_in self (Assets.single u q) precise =
        Ok (Assets.single uo amount, PyFloat impact))
    /\ (q * rin) / (rout - q) <= amount
    /\ 0 <= amount.
Proof.
  intros self u q precise rin rout uo Hside Hrin Hq Hfee fee amount.
  split; [| split].
  - exact (cp_in_returns self u q precise rin rout uo Hside Hrin Hq Hfee).
  - unfold amount. fold fee in Hfee.
    apply Zdiv_le_cross; [lia | nia |].
    assert (0 <= q * rin * (rout - q)) by nia.
    nia.
  - unfold amount. fold fee in Hfee. apply Z.div_pos; nia.
Qed.

Lemma cp_in_below_reserve_witness :
  (exists impact,
      ConstantProduct.get_amount_in pool_100 (Assets.single "B" 10) true =
      Ok (Assets.single "A" 11, PyFloat impact))
  /\ (10 * 100) / (100 - 10) <= 11
  /\ 0 <= 11.
Proof.
  apply (cp_in_below_reserve pool_100 "B" 10 true 100 100 "A"
           (in_side_b pool_100 "B" eq_refl)); cbn; lia.
Defined.

(** X7.  On a positive input-side reserve, constant-product
    [get_amount_in] is monotone in the request and in the fee: for
    [0 < q1 <= q2 < reserve_out] and fees [0 <= fee1 <= fee2 < 10000] on
    otherwise equal pools, the amount quoted for [q1] under [fee1] is
    non-negative and at most the amount quoted for [q2] under [fee2]. *)
Theorem cp_in_monotone :
  forall self1 self2 u q1 q2 precise rin rout uo,
    in_side self1 u rin rout uo ->
    in_side self2 u rin rout uo ->
    0 < rin -> 0 < q1 <= q2 -> q2 < rout ->
    0 <= fee_or_0 (ConstantProduct.volume_fee self1) ->
    fee_or_0 (ConstantProduct.volume_fee self1)
    <= fee_or_0 (ConstantProduct.volume_fee self2) ->
    fee_or_0 (ConstantProduct.volume_fee self2) < 10000 ->
    exists in1 in2 i1 i2,
      ConstantProduct.get_amount_in self1 (Assets.single u q1) precise
      = Ok (Assets.single uo in1, i1)
      /\ ConstantProduct.get_amount_in self2 (Assets.single u q2) precise
         = Ok (Assets.single uo in2, i2)
      /\ 0 <= in1 <= in2.
Proof.
  intros self1 self2 u q1 q2 precise rin rout uo S1 S2 Hrin Hq Hq2 F0 F12 F2.
  destruct (cp_in_returns self1 u q1 precise rin rout uo S1 Hrin ltac:(lia) ltac:(lia))
    as [i1 H1].
  destruct (cp_in_returns self2 u q2 precise rin rout uo S2 Hrin ltac:(lia) ltac:(lia))
    as [i2 H2].
  eexists _, _, (PyFloat i1), (PyFloat i2). split; [exact H1 | split; [exact H2|]].
  unfold amount_in_formula.
  set (f1 := 10000 - fee_or_0 (ConstantProduct.volume_fee self1)).
  set (f2 := 10000 - fee_or_0 (ConstantProduct.volume_fee self2)).
  assert (Hf : 0 < f2 <= f1 /\ f1 <= 10000) by (unfold f1, f2; lia).
  assert (D1 : 0 < (rout - q1) * f1) by nia.
  assert (D2 : 0 < (rout - q2) * f2) by nia.
  split.
  - apply Z.div_pos; nia.
  - apply Zdiv_le_cross; [assumption | assumption |].
    assert (A : (rout - q2) * f2 <= (rout - q1) * f1).
    { apply Z.le_trans with ((rout - q1) * f2).
      - apply Z.mul_le_mono_nonneg_r; lia.
      - apply Z.mul_le_mono_nonneg_l; lia. }
    assert (B : q1 * 10000 * rin <= q2 * 10000 * rin).
    { apply Z.mul_le_mono_nonneg_r; lia. }
    apply Z.le_trans with (q1 * 10000 * rin * ((rout - q1) * f1)).
    + apply Z.mul_le_mono_nonneg_l; nia.
    + apply Z.mul_le_mono_nonneg_r; lia.
Qed.

Lemma cp_in_monotone_witness :
  exists in1 in2 i1 i2,
    ConstantProduct.get_amount_in pool_100 (Assets.single "B" 10) true
    = Ok (Assets.single "A" in1, i1)
    /\ ConstantProduct.get_amount_in (with_fee pool_100 (Some 100))
         (Assets.single "B" 20) true
       = Ok (Assets.single "A" in2, i2)
    /\ 0 <= in1 <= in2.
Proof.
  apply (cp_in_monotone pool_100 (with_fee pool_100 (Some 100)) "B" 10 20 true
           100 100 "A"
           (in_side_b pool_100 "B" eq_refl)
           (in_side_b (with_fee pool_100 (Some 100)) "B" eq_refl));
    cbn; lia.
Defined.

Lemma int_truediv_not_zero_division a b :
  b <> 0 -> int_truediv a b <> Raise ZeroDivisionError.
Proof.
  intros Hb. destruct (int_truediv_cases a b Hb) as [-> | [f ->]]; discriminate.
Qed.

(** X8.  Constant-product [get_amount_in] on a bundle of a pool unit
    raises [ZeroDivisionError] exactly when the quantity equals the
    output-side reserve or the fee is 10000 (the floor division has a zero
    divisor), or the quantity is 0 or one of the two reserves is 0 (the
    price-impact division has one). *)
Theorem cp_in_zero_division :
  forall self u q precise rin rout uo,
    in_side self u rin rout uo ->
    let fee := fee_or_0 (ConstantProduct.volume_fee self) in
    ConstantProduct.get_amount_in self (Assets.single u q) precise
    = Raise ZeroDivisionError
    <-> (q = rout \/ fee = 10000 \/ q = 0 \/ rin = 0 \/ rout = 0).
Proof.
  intros self u q precise rin rout uo Hside fee.
  rewrite (cp_in_unfold self u q precise rin rout uo Hside).
  fold fee. set (fm := 10000 - fee).
  split.
  - intros H.
    destruct (Z.eq_dec q rout) as [| Nq]; [auto|].
    destruct (Z.eq_dec fee 10000) as [| Nf]; [auto|].
    destruct (Z.eq_dec q 0) as [| N0]; [auto|].
    destruct (Z.eq_dec rin 0) as [| Ni]; [auto|].
    destruct (Z.eq_dec rout 0) as [| No]; [auto|].
    exfalso.
    assert (Hden : (rout - q) * fm <> 0) by (unfold fm; nia).
    rewrite int_floordiv_ok in H by assumption. rewrite bind_ok in H.
    assert (Hpd : rout * (q * 10000 * rin) * 10000 <> 0) by nia.
    pose proof (int_truediv_not_zero_division
                  (rout * (q * 10000 * rin) * fm
                   - q * ((rout - q) * fm) * rin * 10000) _ Hpd) as NZ.
    destruct (int_truediv _ _) as [f | e]; cbn [bind] in H; [discriminate|].
    apply NZ. congruence.
  - intros H.
    destruct (Z.eq_dec ((rout - q) * fm) 0) as [E | Hden].
    + unfold int_floordiv. rewrite E. reflexivity.
    + rewrite int_floordiv_ok by assumption. rewrite bind_ok.
      assert (E : rout * (q * 10000 * rin) * 10000 = 0).
      { destruct H as [-> | [Ef | [-> | [-> | ->]]]]; try ring.
        - exfalso. apply Hden. ring.
        - exfalso. apply Hden. unfold fm. rewrite Ef. ring. }
      rewrite E. reflexivity.
Qed.

Lemma cp_in_zero_division_witness :
  ConstantProduct.get_amount_in pool_100 (Assets.single "B" 0) true
  = Raise ZeroDivisionError.
Proof.
  apply (cp_in_zero_division pool_100 "B" 0 true 100 100 "A"
           (in_side_b pool_100 "B" eq_refl)).
  right; right; left. reflexivity.
Defined.

(** X9.  Constant-product [get_amount_out] on a bundle of a pool unit
    raises [ZeroDivisionError] exactly when
    [q * (10000 - fee) + reserve_in * 10000 = 0], for instance on an empty
    input side with a zero input: the price-impact division, which is only
    reached with a non-zero output, never has a zero divisor. *)
Theorem cp_out_zero_division :
  forall self u q precise rin rout uo,
    out_side self u rin rout uo ->
    let fee := fee_or_0 (ConstantProduct.volume_fee self) in
    ConstantProduct.get_amount_out self (Assets.single u q) precise
    = Raise ZeroDivisionError
    <-> q * (10000 - fee) + rin * 10000 = 0.
Proof.
  intros self u q precise rin rout uo Hside fee.
  set (fm := 10000 - fee).
  split.
  - intros H.
    destruct (Z.eq_dec (q * fm + rin * 10000) 0) as [| Hden]; [assumption|].
    exfalso.
    rewrite (cp_out_unfold self u q precise rin rout uo Hside) in H
      by (fold fee; fold fm; exact Hden).
    fold fee in H; fold fm in H.
    destruct (Z.eqb_spec (q * fm * rout / (q * fm + rin * 10000)) 0) as [| Hne];
      [discriminate|].
    assert (Hnum : q * fm * rout <> 0)
      by (intros E0; apply Hne; rewrite E0; apply Z.div_0_l; assumption).
    assert (Hpd : rout * q * (q * fm + rin * 10000) * 10000 <> 0).
    { assert (rout <> 0) by (intros ->; apply Hnum; ring).
      assert (q <> 0) by (intros ->; apply Hnum; ring).
      repeat (apply Z.neq_mul_0; split); try assumption; lia. }
    pose proof (int_truediv_not_zero_division
                  (rout * q * (q * fm + rin * 10000) * fm
                   - q * fm * rout * rin * 10000) _ Hpd) as NZ.
    destruct (int_truediv _ _) as [f | e]; cbn [bind] in H; [discriminate|].
    apply NZ. congruence.
  - intros E.
    unfold ConstantProduct.get_amount_out.
    destruct Hside as [-> | Hna ->]; single_bundle.
    + fold fee; fold fm. rewrite E. reflexivity.
    + rewrite (eqb_neq_false _ _ Hna); single_bundle.
      fold fee; fold fm. rewrite E. reflexivity.
Qed.

Lemma cp_out_zero_division_witness :
  ConstantProduct.get_amount_out (cp_pool 0 100 (Some 30)) (Assets.single "A" 0) true
  = Raise ZeroDivisionError.
Proof.
  apply (cp_out_zero_division (cp_pool 0 100 (Some 30)) "A" 0 true 0 100 "B"
           (out_side_a (cp_pool 0 100 (Some 30)) "A" eq_refl)).
  reflexivity.
Defined.

(** ** Constant product: the two quotes, one after the other *)

(** X10.  Quoting an output and then the input for it: on positive
    reserves and a fee [0 <= fee < 10000], when [get_amount_out] for an
    input [x >= 0] returns [out > 0], [get_amount_in] for that [out] returns
    an amount [back] with [0 <= back <= x]; when it returns [out = 0],
    [get_amount_in] for it raises [ZeroDivisionError]. *)
Theorem cp_out_then_in :
  forall self u x precise precise' rin rout uo,
    out_side self u rin rout uo ->
    0 < rin -> 0 < rout -> 0 <= x ->
    0 <= fee_or_0 (ConstantProduct.volume_fee self) < 10000 ->
    exists out impact,
      ConstantProduct.get_amount_out self (Assets.single u x) precise
      = Ok (Assets.single uo out, impact)
      /\ (0 < out ->
          exists back impact',
            ConstantProduct.get_amount_in self (Assets.single uo out) precise'
            = Ok (Assets.single u back, impact')
            /\ 0 <= back <= x)
      /\ (out = 0 ->
          ConstantProduct.get_amount_in self (Assets.single uo out) precise'
          = Raise ZeroDivisionError).
Proof.
  intros self u x precise precise' rin rout uo Hside Hrin Hrout Hx Hfee.
  pose proof (out_side_in_side self u rin rout uo Hside) as Hback.
  destruct (cp_out_returns self u x precise rin rout uo Hside Hrin Hx ltac:(lia))
    as [impact H].
  eexists; exists impact. split; [exact H|].
  unfold amount_out_formula.
  set (fm := 10000 - fee_or_0 (ConstantProduct.volume_fee self)).
  assert (Hfm : 0 < fm <= 10000) by (unfold fm; lia).
  set (num := x * fm * rout). set (den := x * fm + rin * 10000).
  assert (Hden : 0 < den) by (unfold den; nia).
  assert (Hnum : 0 <= num) by (unfold num; nia).
  pose proof (Z.mul_div_le num den Hden) as Hle.
  set (out := num / den) in *.
  assert (Hlt : out < rout).
  { unfold out. apply Z.div_lt_upper_bound; [assumption|]. unfold num, den. nia. }
  split.
  - intros Hout.
    destruct (cp_in_returns self uo out precise' rin rout u Hback Hrin ltac:(lia) Hfee)
      as [impact' H'].
    eexists; exists (PyFloat impact'). split; [exact H'|].
    unfold amount_in_formula. fold fm.
    assert (Hd' : 0 < (rout - out) * fm) by nia.
    split.
    + apply Z.div_pos; nia.
    + apply Z.div_le_upper_bound; [assumption|].
      unfold num, den in Hle. nia.
  - intros E.
    rewrite (cp_in_unfold self uo out precise' rin rout u Hback).
    rewrite E. rewrite int_floordiv_ok by (fold fm; nia).
    rewrite bind_ok. rewrite !Z.mul_0_l, !Z.mul_0_r, !Z.mul_0_l. reflexivity.
Qed.

Lemma cp_out_then_in_witness :
  exists out impact,
    ConstantProduct.get_amount_out pool_100 (Assets.single "A" 50) true
    = Ok (Assets.single "B" out, impact)
    /\ (0 < out ->
        exists back impact',
          ConstantProduct.get_amount_in pool_100 (Assets.single "B" out) true
          = Ok (Assets.single "A" back, impact')
          /\ 0 <= back <= 50)
    /\ (out = 0 ->
        ConstantProduct.get_amount_in pool_100 (Assets.single "B" out) true
        = Raise ZeroDivisionError).
Proof.
  apply (cp_out_then_in pool_100 "A" 50 true true 100 100 "B"
           (out_side_a pool_100 "A" eq_refl)); cbn; lia.
Defined.

(** X11.  Quoting an input and then the output for it: for a request
    [0 < q < reserve_out] on a positive input-side reserve and a fee
    [0 <= fee < 10000], [get_amount_in] returns an amount [inp] and
    [get_amount_out] for [inp] returns at most [q]: the quoted input is
    rounded down, it never buys more than what was asked for. *)
Theorem cp_in_then_out :
  forall self u q precise precise' rin rout uo,
    in_side self u rin rout uo ->
    0 < rin -> 0 < q < rout ->
    0 <= fee_or_0 (ConstantProduct.volume_fee self) < 10000 ->
    exists inp impact out impact',
      ConstantProduct.get_amount_in self (Assets.single u q) precise
      = Ok (Assets.single uo inp, impact)
      /\ ConstantProduct.get_amount_out self (Assets.single uo inp) precise'
         = Ok (Assets.single u out, impact')
      /\ 0 <= out <= q.
Proof.
  intros self u q precise precise' rin rout uo Hside Hrin Hq Hfee.
  pose proof (in_side_out_side self u rin rout uo Hside) as Hfwd.
  destruct (cp_in_returns self u q precise rin rout uo Hside Hrin Hq Hfee)
    as [impact H].
  set (fm := 10000 - fee_or_0 (ConstantProduct.volume_fee self)).
  assert (Hfm : 0 < fm <= 10000) by (unfold fm; lia).
  assert (Hd : 0 < (rout - q) * fm) by nia.
  assert (Hinp : 0 <= amount_in_formula q (fee_or_0 (ConstantProduct.volume_fee self))
                        rin rout).
  { unfold amount_in_formula. fold fm. apply Z.div_pos; nia. }
  destruct (cp_out_returns self uo _ precise' rin rout u Hfwd Hrin Hinp ltac:(lia))
    as [impact' H'].
  eexists; exists (PyFloat impact); eexists; exists impact'.
  split; [exact H | split; [exact H'|]].
  unfold amount_out_formula. fold fm.
  unfold amount_in_formula in *. fold fm in Hinp |- *.
  pose proof (Z.mul_div_le (q * 10000 * rin) ((rout - q) * fm) Hd) as Hle.
  set (inp := q * 10000 * rin / ((rout - q) * fm)) in *.
  assert (Hden : 0 < inp * fm + rin * 10000) by nia.
  split.
  - apply Z.div_pos; nia.
  - apply Z.div_le_upper_bound; [assumption|]. nia.
Qed.

Lemma cp_in_then_out_witness :
  exists inp impact out impact',
    ConstantProduct.get_amount_in pool_100 (Assets.single "B" 10) true
    = Ok (Assets.single "A" inp, impact)
    /\ ConstantProduct.get_amount_out pool_100 (Assets.single "A" inp) true
       = Ok (Assets.single "B" out, impact')
    /\ 0 <= out <= 10.
Proof.
  apply (cp_in_then_out pool_100 "B" 10 true true 100 100 "A"
           (in_side_b pool_100 "B" eq_refl)); cbn; lia.
Defined.

(** ** Binary64: the quotient of two integers *)

(** A rounded 53-bit mantissa in the normal range is a valid double. *)
Lemma valid_normal s mf e :
  Zdigits2 (Zpos mf) = prec -> emin <= e <= emax - prec ->
  valid_binary (S754_finite s mf e) = true.
Proof.
  intros D He.
  assert (Hprec : prec = 53) by reflexivity.
  assert (Hemax : emax = 1024) by reflexivity.
  assert (Hemin : emin = -1074) by reflexivity.
  unfold valid_binary, bounded, canonical_mantissa.
  change (Zpos (digits2_pos mf)) with (Zdigits2 (Zpos mf)). rewrite D.
  apply andb_true_intro. split.
  - apply Z.eqb_eq. unfold fexp. lia.
  - apply Z.leb_le. lia.
Qed.

(** [a / b] on two positive ints whose quotient is in the normal range: the
    result is a double of 53 bits within one unit of its last place of the
    quotient. *)
Lemma int_truediv_faithful a b :
  0 < a -> 0 < b ->
  Zdigits2 a - Zdigits2 b <= 53 -> Zdigits2 b - Zdigits2 a <= 1021 ->
  let s := 53 + Zdigits2 b - Zdigits2 a in
  let q0 := (a * 2 ^ s) / b in
  exists f mf k,
    int_truediv a b = Ok f
    /\ Prim2SF f = S754_finite false mf (k - s)
    /\ 0 <= k <= 2
    /\ Zdigits2 (Zpos mf) = 53
    /\ q0 - 2 ^ k < Zpos mf * 2 ^ k <= q0 + 2 ^ k.
Proof.
  intros Ha Hb Hd1 Hd2 s q0.
  assert (Hprec : prec = 53) by reflexivity.
  assert (Hemax : emax = 1024) by reflexivity.
  assert (Hemin : emin = -1074) by reflexivity.
  pose proof (Zdigits2_pos a Ha) as Pa. pose proof (Zdigits2_pos b Hb) as Pb.
  pose proof (Zdigits2_lower a Ha) as La. pose proof (Zdigits2_upper a ltac:(lia)) as Ua.
  pose proof (Zdigits2_lower b Hb) as Lb. pose proof (Zdigits2_upper b ltac:(lia)) as Ub.
  assert (Hs : 0 <= s) by (unfold s; lia).
  assert (Ps : 0 < 2 ^ s) by (apply Z.pow_pos_nonneg; lia).
  unfold int_truediv.
  destruct (Z.eqb_spec b 0) as [| _]; [lia|].
  destruct (Z.eqb_spec a 0) as [| _]; [lia|].
  destruct a as [| pa | pa]; try lia. destruct b as [| pb | pb]; try lia.
  cbn [sf_of_Z].
  unfold SF64div, SFdiv, SFdiv_core_binary. cbn [xorb].
  replace (Zdigits2 (Zpos pa) + 0 - (Zdigits2 (Zpos pb) + 0))
    with (Zdigits2 (Zpos pa) - Zdigits2 (Zpos pb)) by lia.
  assert (F : Z.min (fexp prec emax (Zdigits2 (Zpos pa) - Zdigits2 (Zpos pb))) (0 - 0)
              = - s) by (unfold fexp, s; lia).
  rewrite F.
  replace (0 - 0 - - s) with s by lia.
  assert (Hm' : match s with
                | 0 => Zpos pa
                | Zpos _ => Z.shiftl (Zpos pa) s
                | Zneg _ => 0
                end = Zpos pa * 2 ^ s).
  { destruct s as [| p | p] eqn:Es; [| | lia].
    - rewrite Z.pow_0_r. lia.
    - rewrite Z.shiftl_mul_pow2 by lia. reflexivity. }
  rewrite Hm'.
  pose proof (Z_div_mod (Zpos pa * 2 ^ s) (Zpos pb) ltac:(lia)) as DM.
  unfold q0.
  replace (Zpos pa * 2 ^ s / Zpos pb)
    with (fst (Z.div_eucl (Zpos pa * 2 ^ s) (Zpos pb))) by reflexivity.
  destruct (Z.div_eucl (Zpos pa * 2 ^ s) (Zpos pb)) as [q r]. cbn [fst].
  destruct DM as [Eq Hr].
  (* the size of the quotient *)
  assert (E1 : 2 ^ (Zdigits2 (Zpos pa) - 1) * 2 ^ s = 2 ^ 52 * 2 ^ Zdigits2 (Zpos pb)).
  { rewrite <- !Z.pow_add_r by lia. f_equal. unfold s. lia. }
  assert (E2 : 2 ^ Zdigits2 (Zpos pa) * 2 ^ s = 2 ^ 54 * 2 ^ (Zdigits2 (Zpos pb) - 1)).
  { rewrite <- !Z.pow_add_r by lia. f_equal. unfold s. lia. }
  assert (Pdb : 0 < 2 ^ (Zdigits2 (Zpos pb) - 1)) by (apply Z.pow_pos_nonneg; lia).
  assert (Bq : 2 ^ 52 <= q < 2 ^ 54).
  { split.
    - assert (G : 2 ^ 52 * Zpos pb < (q + 1) * Zpos pb) by nia.
      apply Z.mul_lt_mono_pos_r in G; lia.
    - assert (G : q * Zpos pb < 2 ^ 54 * Zpos pb) by nia.
      apply Z.mul_lt_mono_pos_r in G; lia. }
  assert (Dq : prec <= Zdigits2 q <= prec + 1).
  { split.
    - destruct (Z_le_gt_dec prec (Zdigits2 q)); [assumption|]. exfalso.
      pose proof (Zdigits2_upper q ltac:(lia)).
      assert (2 ^ Zdigits2 q <= 2 ^ 52) by (apply Z.pow_le_mono_r; lia). lia.
    - apply Zdigits2_le; [| lia]. rewrite Hprec. change (53 + 1) with 54. lia. }
  destruct (binary_round_aux_faithful false q (- s) (new_location (Zpos pb) r))
    as (mf & k & E & Hk & Dm & B).
  - lia.
  - lia.
  - unfold s. lia.
  - unfold s. lia.
  - rewrite E. cbn [sf_is_infinity].
    exists (SF2Prim (S754_finite false mf (- s + k))), mf, k.
    split; [reflexivity|].
    split.
    + rewrite Prim2SF_SF2Prim.
      * f_equal. lia.
      * apply valid_normal; [exact Dm | unfold s; lia].
    + split; [lia | split; [rewrite Dm; reflexivity | exact B]].
Qed.

(** [int(a / b)] on two positive ints, [a < 2^51]: the true division and
    the truncation give the floor of the quotient. *)
Lemma int_of_truediv a b :
  0 < a < 2 ^ 51 -> 0 < b -> Zdigits2 b <= 1000 ->
  exists f, int_truediv a b = Ok f /\ to_int (PyFloat f) = Ok (a / b).
Proof.
  intros Ha Hb Db.
  pose proof (Zdigits2_pos a ltac:(lia)) as Pa. pose proof (Zdigits2_pos b Hb) as Pb.
  assert (Da : Zdigits2 a <= 51) by (apply Zdigits2_le; lia).
  pose proof (Zdigits2_upper b ltac:(lia)) as Ub.
  destruct (int_truediv_faithful a b ltac:(lia) Hb ltac:(lia) ltac:(lia))
    as (f & mf & k & Ef & Sf & Hk & Dm & B).
  exists f. split; [exact Ef|].
  cbn [to_int]. rewrite Sf.
  set (s := 53 + Zdigits2 b - Zdigits2 a) in *.
  assert (Hs : Zdigits2 b + 2 <= s) by (unfold s; lia).
  destruct (k - s) as [| p | p] eqn:Ek; try lia.
  cbn [trunc_sf]. f_equal.
  rewrite Z.shiftr_div_pow2 by lia.
  replace (Zpos p) with (s - k) by lia.
  set (P := 2 ^ (s - k)). set (W := 2 ^ k) in *.
  assert (PP : 0 < P) by (apply Z.pow_pos_nonneg; lia).
  assert (PW : 0 < W) by (apply Z.pow_pos_nonneg; lia).
  assert (W4 : W <= 4) by (change 4 with (2 ^ 2); apply Z.pow_le_mono_r; lia).
  assert (EPW : 2 ^ s = P * W).
  { unfold P, W. rewrite <- Z.pow_add_r by lia. f_equal. lia. }
  assert (Big : 4 * 2 ^ Zdigits2 b <= 2 ^ s).
  { change 4 with (2 ^ 2). rewrite <- Z.pow_add_r by lia.
    apply Z.pow_le_mono_r; lia. }
  pose proof (Z.mul_div_le (a * 2 ^ s) b Hb) as Q1.
  pose proof (Z.mul_succ_div_gt (a * 2 ^ s) b Hb) as Q2.
  set (q0 := a * 2 ^ s / b) in *.
  pose proof (Z.mul_div_le a b Hb) as K1.
  pose proof (Z.mul_succ_div_gt a b Hb) as K2.
  set (K := a / b) in *.
  assert (HK : 0 <= K) by (apply Z.div_pos; lia).
  (* K * 2^s <= q0 *)
  assert (L1 : K * (P * W) <= q0).
  { assert (G : (K * (P * W)) * b < (q0 + 1) * b).
    { rewrite <- EPW. 
      assert (b * K * 2 ^ s <= a * 2 ^ s) by (apply Z.mul_le_mono_nonneg_r; lia).
      lia. }
    apply Z.mul_lt_mono_pos_r in G; lia. }
  (* q0 + W < (K + 1) * 2^s *)
  assert (U1 : q0 + W < (K + 1) * (P * W)).
  { assert (G : (q0 + W) * b < ((K + 1) * (P * W)) * b).
    { rewrite <- EPW.
      assert (a * 2 ^ s <= (b * K + b - 1) * 2 ^ s)
        by (apply Z.mul_le_mono_nonneg_r; lia).
      assert (W * b < 2 ^ s) by nia.
      lia. }
    apply Z.mul_lt_mono_pos_r in G; lia. }
  symmetry. apply (Z.div_unique_pos _ _ _ (Zpos mf - P * K)); [| ring].
  split.
  - assert (G : (K * P - 1) * W < Zpos mf * W) by lia.
    apply Z.mul_lt_mono_pos_r in G; lia.
  - assert (G : Zpos mf * W < ((K + 1) * P) * W) by lia.
    apply Z.mul_lt_mono_pos_r in G; lia.
Qed.

Lemma int_of_zero_truediv b :
  b <> 0 -> exists f, int_truediv 0 b = Ok f /\ to_int (PyFloat f) = Ok 0.
Proof.
  intros Hb. unfold int_truediv.
  destruct (Z.eqb_spec b 0) as [| _]; [contradiction|].
  cbn [Z.eqb]. eexists. split; [reflexivity|].
  cbn [to_int]. rewrite Prim2SF_SF2Prim by reflexivity. reflexivity.
Qed.

(** The fee scaling [int(q * num / den)] is the floor division for
    products below [2^51]. *)
Lemma scale_floor q num den :
  0 <= q * num < 2 ^ 51 -> 0 < den < 2 ^ 64 ->
  StableSwap.scale q num den = Ok (q * num / den).
Proof.
  intros Hx Hden. unfold StableSwap.scale.
  destruct (Z.eq_dec (q * num) 0) as [E | N].
  - rewrite E. destruct (int_of_zero_truediv den ltac:(lia)) as (f & -> & Hf).
    cbn [bind]. rewrite Hf. reflexivity.
  - assert (Dd : Zdigits2 den <= 1000)
      by (assert (Zdigits2 den <= 64) by (apply Zdigits2_le; lia); lia).
    destruct (int_of_truediv (q * num) den ltac:(lia) ltac:(lia) Dd) as (f & -> & Hf).
    cbn [bind]. exact Hf.
Qed.

(** [a / b] on ints with [0 < a < b]: a double in the interval (0, 1]. *)
Lemma int_truediv_ratio a b :
  0 < a < b -> Zdigits2 b <= 1000 ->
  exists f, int_truediv a b = Ok f
            /\ PrimFloat.ltb 0 f = true /\ PrimFloat.leb f 1 = true.
Proof.
  intros Hab Db.
  assert (Hb : 0 < b) by lia.
  pose proof (Zdigits2_pos a ltac:(lia)) as Pa. pose proof (Zdigits2_pos b Hb) as Pb.
  pose proof (Zdigits2_upper b ltac:(lia)) as Ub.
  assert (Dab : Zdigits2 a <= Zdigits2 b) by (apply Zdigits2_le; lia).
  destruct (int_truediv_faithful a b ltac:(lia) Hb ltac:(lia) ltac:(lia))
    as (f & mf & k & Ef & Sf & Hk & Dm & B).
  exists f. split; [exact Ef|].
  set (s := 53 + Zdigits2 b - Zdigits2 a) in *.
  assert (Hs : 53 <= s) by (unfold s; lia).
  rewrite ltb_spec, leb_spec, Sf.
  split; [reflexivity|].
  assert (One : Prim2SF 1 = S754_finite false 4503599627370496 (-52)) by reflexivity.
  rewrite One.
  set (P := 2 ^ (s - k)). set (W := 2 ^ k) in *.
  assert (PP : 0 < P) by (apply Z.pow_pos_nonneg; lia).
  assert (PW : 0 < W) by (apply Z.pow_pos_nonneg; lia).
  assert (EPW : 2 ^ s = P * W).
  { unfold P, W. rewrite <- Z.pow_add_r by lia. f_equal. lia. }
  assert (Ps : 0 < 2 ^ s) by (apply Z.pow_pos_nonneg; lia).
  pose proof (Z.mul_div_le (a * 2 ^ s) b Hb) as Q1.
  set (q0 := a * 2 ^ s / b) in *.
  assert (Q : q0 < P * W).
  { assert (G : q0 * b < (P * W) * b) by (rewrite <- EPW; nia).
    apply Z.mul_lt_mono_pos_r in G; lia. }
  assert (M : Zpos mf <= P).
  { assert (G : Zpos mf * W < (P + 1) * W) by lia.
    apply Z.mul_lt_mono_pos_r in G; lia. }
  pose proof (Zdigits2_lower (Zpos mf) ltac:(lia)) as Lm. rewrite Dm in Lm.
  change (2 ^ (53 - 1)) with 4503599627370496 in Lm.
  assert (Hsk : 52 <= s - k).
  { destruct (Z_le_gt_dec 52 (s - k)); [assumption|]. exfalso.
    assert (P <= 2 ^ 51) by (apply Z.pow_le_mono_r; lia).
    change (2 ^ 51) with 2251799813685248 in *. lia. }
  unfold SFleb, SFcompare.
  destruct (Z.compare_spec (k - s) (-52)) as [E | L | G]; [| reflexivity | lia].
  assert (EP : P = 4503599627370496).
  { unfold P. replace (s - k) with 52 by lia. reflexivity. }
  assert (Emf : mf = 4503599627370496%positive) by lia.
  rewrite Emf. reflexivity.
Qed.

(** ** Constant product: the price impact *)

Lemma mul_lt_pow2 x y i j :
  0 <= x < 2 ^ i -> 0 <= y < 2 ^ j -> 0 <= i -> 0 <= j ->
  0 <= x * y < 2 ^ (i + j).
Proof.
  intros Hx Hy Hi Hj. rewrite Z.pow_add_r by assumption.
  assert (0 < 2 ^ i) by (apply Z.pow_pos_nonneg; lia).
  assert (0 < 2 ^ j) by (apply Z.pow_pos_nonneg; lia).
  split; [nia|].
  apply Z.le_lt_trans with (x * 2 ^ j); [| nia].
  apply Z.mul_le_mono_nonneg_l; lia.
Qed.

Lemma Zdigits2_below m k : 0 <= m < 2 ^ k -> 0 <= k -> k <= 1000 -> Zdigits2 m <= 1000.
Proof.
  intros Hm Hk Hk'. pose proof (Zdigits2_le m k Hm Hk). lia.
Qed.

(** X12.  With both reserves and the input quantity positive and below
    [2^64] and a fee [0 <= fee < 10000], constant-product [get_amount_out]
    returns either a zero output with the integer price impact 0, or a
    positive output with a float price impact [f], [0 < f <= 1]. *)
Theorem cp_out_price_impact :
  forall self u q precise rin rout uo,
    out_side self u rin rout uo ->
    0 < rin < 2 ^ 64 -> 0 < rout < 2 ^ 64 -> 0 < q < 2 ^ 64 ->
    0 <= fee_or_0 (ConstantProduct.volume_fee self) < 10000 ->
    exists out impact,
      ConstantProduct.get_amount_out self (Assets.single u q) precise
      = Ok (Assets.single uo out, impact)
      /\ ((out = 0 /\ impact = PyInt 0)
          \/ (0 < out
              /\ exists f, impact = PyFloat f
                           /\ PrimFloat.ltb 0 f = true
                           /\ PrimFloat.leb f 1 = true)).
Proof.
  intros self u q precise rin rout uo Hside Hrin Hrout Hq Hfee.
  set (fm := 10000 - fee_or_0 (ConstantProduct.volume_fee self)).
  assert (Hfm : 0 < fm <= 10000) by (unfold fm; lia).
  assert (Hden : 0 < q * fm + rin * 10000) by nia.
  rewrite (cp_out_unfold self u q precise rin rout uo Hside) by (fold fm; lia).
  fold fm.
  set (num := q * fm * rout). set (den := q * fm + rin * 10000).
  assert (Hnum : 0 < num) by (unfold num; nia).
  pose proof (Z.div_pos num den ltac:(lia) Hden) as Hout.
  destruct (Z.eqb_spec (num / den) 0) as [E | Hne].
  - eexists _, _. split; [reflexivity|]. left. split; [exact E | reflexivity].
  - assert (Ea : rout * q * den * fm - num * rin * 10000 = rout * (q * fm * (q * fm)))
      by (unfold num, den; ring).
    assert (Eb : rout * q * den * 10000 = rout * (q * den * 10000)) by ring.
    rewrite Ea, Eb.
    assert (Hqf : 0 < q * fm) by nia.
    assert (Hlt : q * fm * (q * fm) < q * den * 10000).
    { assert (q * fm * fm <= q * fm * 10000) by (apply Z.mul_le_mono_nonneg_l; lia).
      assert (q * fm * 10000 < den * 10000) by (unfold den; lia).
      replace (q * fm * (q * fm)) with (q * (q * fm * fm)) by ring.
      replace (q * den * 10000) with (q * (den * 10000)) by ring.
      apply Z.mul_lt_mono_pos_l; lia. }
    assert (Hpos : 0 < q * fm * (q * fm)) by nia.
    assert (Bden : 0 <= den < 2 ^ 79).
    { split; [lia|]. unfold den.
      assert (q * fm <= q * 10000) by (apply Z.mul_le_mono_nonneg_l; lia).
      change (2 ^ 64) with 18446744073709551616 in *.
      change (2 ^ 79) with 604462909807314587353088. lia. }
    assert (Bb : 0 <= rout * (q * den * 10000) < 2 ^ (64 + (64 + 79 + 14))).
    { apply mul_lt_pow2; [lia | | lia | lia].
      apply mul_lt_pow2; [| cbn; lia | lia | lia].
      apply mul_lt_pow2; [lia | lia | lia | lia]. }
    destruct (int_truediv_ratio (rout * (q * fm * (q * fm)))
                                (rout * (q * den * 10000))) as (f & Ef & F0 & F1).
    + split.
      * apply Z.mul_pos_pos; lia.
      * apply Z.mul_lt_mono_pos_l; lia.
    + apply (Zdigits2_below _ (64 + (64 + 79 + 14))); [exact Bb | lia | lia].
    + rewrite Ef. cbn [bind]. eexists _, _. split; [reflexivity|].
      right. split; [lia|]. exists f. auto.
Qed.

Lemma cp_out_price_impact_witness :
  exists out impact,
    ConstantProduct.get_amount_out pool_1M (Assets.single "A" 10000) true
    = Ok (Assets.single "B" out, impact)
    /\ ((out = 0 /\ impact = PyInt 0)
        \/ (0 < out
            /\ exists f, impact = PyFloat f
                         /\ PrimFloat.ltb 0 f = true
                         /\ PrimFloat.leb f 1 = true)).
Proof.
  apply (cp_out_price_impact pool_1M "A" 10000 true 1000000 1000000 "B"
           (out_side_a pool_1M "A" eq_refl)); cbn; lia.
Defined.

(** X13.  With a positive input-side reserve, a request
    [0 < q < reserve_out], all below [2^64], and a fee [0 <= fee < 10000],
    constant-product [get_amount_in] returns a float price impact [f] with
    [0 < f <= 1]. *)
Theorem cp_in_price_impact :
  forall self u q precise rin rout uo,
    in_side self u rin rout uo ->
    0 < rin < 2 ^ 64 -> 0 < q < rout -> rout < 2 ^ 64 ->
    0 <= fee_or_0 (ConstantProduct.volume_fee self) < 10000 ->
    exists amount f,
      ConstantProduct.get_amount_in self (Assets.single u q) precise
      = Ok (Assets.single uo amount, PyFloat f)
      /\ PrimFloat.ltb 0 f = true
      /\ PrimFloat.leb f 1 = true.
Proof.
  intros self u q precise rin rout uo Hside Hrin Hq Hrout Hfee.
  rewrite (cp_in_unfold self u q precise rin rout uo Hside).
  set (fm := 10000 - fee_or_0 (ConstantProduct.volume_fee self)).
  assert (Hfm : 0 < fm <= 10000) by (unfold fm; lia).
  assert (Hden : 0 < (rout - q) * fm) by nia.
  rewrite int_floordiv_ok by lia. rewrite bind_ok.
  assert (Ea : rout * (q * 10000 * rin) * fm - q * ((rout - q) * fm) * rin * 10000
               = (q * rin * 10000) * (q * fm)) by ring.
  assert (Eb : rout * (q * 10000 * rin) * 10000 = (q * rin * 10000) * (rout * 10000))
    by ring.
  rewrite Ea, Eb.
  assert (Hk : 0 < q * rin * 10000) by nia.
  assert (Hqf : 0 < q * fm) by nia.
  assert (Hlt : q * fm < rout * 10000).
  { assert (q * fm <= q * 10000) by (apply Z.mul_le_mono_nonneg_l; lia). lia. }
  assert (Bb : 0 <= (q * rin * 10000) * (rout * 10000) < 2 ^ ((64 + 64 + 14) + (64 + 14))).
  { apply mul_lt_pow2; [| | lia | lia].
    - apply mul_lt_pow2; [| cbn; lia | lia | lia].
      apply mul_lt_pow2; lia.
    - apply mul_lt_pow2; [lia | cbn; lia | lia | lia]. }
  destruct (int_truediv_ratio ((q * rin * 10000) * (q * fm))
                              ((q * rin * 10000) * (rout * 10000))) as (f & Ef & F0 & F1).
  - split.
    + apply Z.mul_pos_pos; lia.
    + apply Z.mul_lt_mono_pos_l; lia.
  - apply (Zdigits2_below _ ((64 + 64 + 14) + (64 + 14))); [exact Bb | lia | lia].
  - rewrite Ef. cbn [bind]. eexists _, f. split; [reflexivity | auto].
Qed.

Lemma cp_in_price_impact_witness :
  exists amount f,
    ConstantProduct.get_amount_in pool_100 (Assets.single "B" 10) true
    = Ok (Assets.single "A" amount, PyFloat f)
    /\ PrimFloat.ltb 0 f = true
    /\ PrimFloat.leb f 1 = true.
Proof.
  apply (cp_in_price_impact pool_100 "B" 10 true 100 100 "A"
           (in_side_b pool_100 "B" eq_refl)); cbn; lia.
Defined.

(** ** Stable swap: the shape of a quote *)

Ltac returns H :=
  repeat match type of H with
  | bind ?c _ = Ok _ =>
      let E := fresh "E" in
      destruct c eqn:E; cbn [bind] in H; [| discriminate H]
  end.

(** What [_get_y] returns is a bundle of the unit asked for. *)
Lemma get_y_shape get_ann libm_pow self a ou p g r :
  StableSwap._get_y get_ann libm_pow self a ou p g = Ok r ->
  exists v, r = Assets.single ou v.
Proof.
  unfold StableSwap._get_y. intros H.
  returns H.
  destruct (Assets.len a >? ONE_VALUE); [discriminate|].
  returns H.
  destruct (negb (in_pair _ _ _)); [discriminate|].
  destruct (negb (in_pair ou _ _)); [discriminate|].
  returns H.
  match type of H with
  | (let '(_, _) := ?io in _) = _ => destruct io as [in_reserve out_multiplier]
  end.
  returns H.
  destruct p; cbn [negb] in H.
  - injection H as <-. eexists; reflexivity.
  - cbn [bind] in H. rewrite set_root_single in H.
    injection H as <-. eexists; reflexivity.
Qed.

(** The flag [precise] does not change what [_get_y] returns. *)
Lemma get_y_precise get_ann libm_pow self a ou g :
  StableSwap._get_y get_ann libm_pow self a ou true g
  = StableSwap._get_y get_ann libm_pow self a ou false g.
Proof.
  unfold StableSwap._get_y.
  destruct (StableSwap._get_d _ _ _) as [d |]; [| reflexivity]. cbn [bind].
  destruct (Assets.len a >? ONE_VALUE); [reflexivity|].
  destruct (Assets.unit a) as [u |]; [| reflexivity]. cbn [bind].
  destruct (negb (in_pair _ _ _)); [reflexivity|].
  destruct (negb (in_pair ou _ _)); [reflexivity|].
  destruct (Assets.quantity a) as [q |]; [| reflexivity]. cbn [bind].
  destruct (if String.eqb u _ then _ else _) as [[in_reserve out_multiplier] |];
    [| reflexivity].
  cbn [bind].
  repeat match goal with
  | |- bind ?c _ = bind ?c _ => destruct c; [| reflexivity]; cbn [bind]
  end.
  cbn [negb bind]. rewrite set_root_single. reflexivity.
Qed.

(** [_get_y] answers only for a unit of the pool. *)
Lemma get_y_known_unit get_ann libm_pow self a ou p g r :
  StableSwap._get_y get_ann libm_pow self a ou p g = Ok r ->
  exists u, Assets.unit a = Ok u
            /\ in_pair u (StableSwap.unit_a self) (StableSwap.unit_b self) = true.
Proof.
  unfold StableSwap._get_y. intros H.
  returns H.
  destruct (Assets.len a >? ONE_VALUE); [discriminate|].
  returns H.
  destruct (in_pair _ _ _) eqn:Hin; [| discriminate].
  eexists; split; [reflexivity | exact Hin].
Qed.


(** [get_amount_out] on a single-unit bundle, step by step. *)
Lemma ss_out_unfold get_ann libm_pow self u q precise fee_on_input :
  let fm := 10000 - fee_or_0 (StableSwap.volume_fee self) in
  let other := if String.eqb u (StableSwap.unit_b self)
               then StableSwap.unit_a self else StableSwap.unit_b self in
  StableSwap.get_amount_out get_ann libm_pow self (Assets.single u q)
    precise fee_on_input =
  q_in <- (if fee_on_input then StableSwap.scale q fm 10000 else Ok q) ;;
  y <- StableSwap._get_y get_ann libm_pow self (Assets.single u q_in) other
         false false ;;
  out_reserve <- StableSwap.unscaled_reserve self other ;;
  yq <- Assets.quantity y ;;
  diff <- sub (PyFloat out_reserve) (PyInt yq) ;;
  v <- to_int diff ;;
  v' <- (if fee_on_input then Ok v else StableSwap.scale v fm 10000) ;;
  Ok (Assets.single other v', PyInt 0).
Proof.
  intros fm other.
  unfold StableSwap.get_amount_out.
  rewrite unit_single, quantity_single. cbn [bind]. fold fm. fold other.
  assert (P : forall a, StableSwap._get_y get_ann libm_pow self a other precise false
                        = StableSwap._get_y get_ann libm_pow self a other false false)
    by (intros a; destruct precise; [apply get_y_precise | reflexivity]).
  destruct fee_on_input; cbn [negb].
  - destruct (StableSwap.scale q fm 10000) as [q_in |]; [| reflexivity].
    cbn [bind]. rewrite P.
    destruct (StableSwap._get_y _ _ _ _ _ _ _) as [y |] eqn:Hy; [| reflexivity].
    destruct (get_y_shape _ _ _ _ _ _ _ _ Hy) as [w ->]. cbn [bind].
    destruct (StableSwap.unscaled_reserve self other); [| reflexivity]. cbn [bind].
    rewrite quantity_single. cbn [bind].
    destruct (sub _ _); [| reflexivity]. cbn [bind].
    destruct (to_int _); [| reflexivity]. cbn [bind].
    rewrite unit_single. cbn [bind]. rewrite set_root_single.
    destruct precise; cbn [bind]; [| reflexivity].
    rewrite quantity_single, unit_single. cbn [bind].
    rewrite set_root_single. reflexivity.
  - cbn [bind]. rewrite P.
    destruct (StableSwap._get_y _ _ _ _ _ _ _) as [y |] eqn:Hy; [| reflexivity].
    destruct (get_y_shape _ _ _ _ _ _ _ _ Hy) as [w ->]. cbn [bind].
    destruct (StableSwap.unscaled_reserve self other); [| reflexivity]. cbn [bind].
    rewrite quantity_single. cbn [bind].
    destruct (sub _ _); [| reflexivity]. cbn [bind].
    destruct (to_int _); [| reflexivity]. cbn [bind].
    rewrite unit_single. cbn [bind]. rewrite set_root_single.
    rewrite quantity_single. cbn [bind].
    destruct (StableSwap.scale _ _ _); [| reflexivity]. cbn [bind].
    rewrite unit_single. cbn [bind]. rewrite set_root_single.
    destruct precise; cbn [bind]; [| reflexivity].
    rewrite quantity_single, unit_single. cbn [bind].
    rewrite set_root_single. reflexivity.
Qed.

(** [get_amount_in] on a single-unit bundle, step by step. *)
Lemma ss_in_unfold get_ann libm_pow self u q precise fee_on_input :
  let fm := 10000 - fee_or_0 (StableSwap.volume_fee self) in
  let other := if String.eqb u (StableSwap.unit_b self)
               then StableSwap.unit_a self else StableSwap.unit_b self in
  StableSwap.get_amount_in get_ann libm_pow self (Assets.single u q)
    precise fee_on_input =
  q_out <- (if fee_on_input then Ok q else StableSwap.scale q 10000 fm) ;;
  y <- StableSwap._get_y get_ann libm_pow self (Assets.single u q_out) other
         false true ;;
  in_reserve <- StableSwap.unscaled_reserve self other ;;
  yq <- Assets.quantity y ;;
  diff <- sub (PyInt yq) (PyFloat in_reserve) ;;
  v <- to_int diff ;;
  v' <- (if fee_on_input then StableSwap.scale v 10000 fm else Ok v) ;;
  Ok (Assets.single other v', PyInt 0).
Proof.
  intros fm other.
  unfold StableSwap.get_amount_in.
  rewrite unit_single, quantity_single. cbn [bind]. fold fm. fold other.
  assert (P : forall a, StableSwap._get_y get_ann libm_pow self a other precise true
                        = StableSwap._get_y get_ann libm_pow self a other false true)
    by (intros a; destruct precise; [apply get_y_precise | reflexivity]).
  destruct fee_on_input; cbn [negb].
  - cbn [bind]. rewrite P.
    destruct (StableSwap._get_y _ _ _ _ _ _ _) as [y |] eqn:Hy; [| reflexivity].
    destruct (get_y_shape _ _ _ _ _ _ _ _ Hy) as [w ->]. cbn [bind].
    destruct (StableSwap.unscaled_reserve self other); [| reflexivity]. cbn [bind].
    rewrite quantity_single. cbn [bind].
    destruct (sub _ _); [| reflexivity]. cbn [bind].
    destruct (to_int _); [| reflexivity]. cbn [bind].
    rewrite unit_single. cbn [bind]. rewrite set_root_single.
    rewrite quantity_single. cbn [bind].
    destruct (StableSwap.scale _ _ _); [| reflexivity]. cbn [bind].
    rewrite unit_single. cbn [bind]. rewrite set_root_single.
    destruct precise; cbn [bind]; [| reflexivity].
    rewrite quantity_single, unit_single. cbn [bind].
    rewrite set_root_single. reflexivity.
  - destruct (StableSwap.scale q 10000 fm) as [q_out |]; [| reflexivity].
    cbn [bind]. rewrite P.
    destruct (StableSwap._get_y _ _ _ _ _ _ _) as [y |] eqn:Hy; [| reflexivity].
    destruct (get_y_shape _ _ _ _ _ _ _ _ Hy) as [w ->]. cbn [bind].
    destruct (StableSwap.unscaled_reserve self other); [| reflexivity]. cbn [bind].
    rewrite quantity_single. cbn [bind].
    destruct (sub _ _); [| reflexivity]. cbn [bind].
    destruct (to_int _); [| reflexivity]. cbn [bind].
    rewrite unit_single. cbn [bind]. rewrite set_root_single.
    destruct precise; cbn [bind]; [| reflexivity].
    rewrite quantity_single, unit_single. cbn [bind].
    rewrite set_root_single. reflexivity.
Qed.

(** X14.  What [get_amount_out] and [get_amount_in] of the stable swap
    states return on a single-unit bundle: the price impact is always the
    integer 0; the bundle returned holds exactly one unit, the other unit of
    the pool ([unit_a] when the bundle given is of [unit_b], else [unit_b]);
    and the unit of the bundle given is one of the pool's. *)
Theorem ss_quote_shape :
  forall get_ann libm_pow self u q precise fee_on_input,
    let other := if String.eqb u (StableSwap.unit_b self)
                 then StableSwap.unit_a self else StableSwap.unit_b self in
    (forall r i,
        StableSwap.get_amount_out get_ann libm_pow self (Assets.single u q)
          precise fee_on_input = Ok (r, i) ->
        i = PyInt 0
        /\ in_pair u (StableSwap.unit_a self) (StableSwap.unit_b self) = true
        /\ exists v, r = Assets.single other v)
    /\ (forall r i,
           StableSwap.get_amount_in get_ann libm_pow self (Assets.single u q)
             precise fee_on_input = Ok (r, i) ->
           i = PyInt 0
           /\ in_pair u (StableSwap.unit_a self) (StableSwap.unit_b self) = true
           /\ exists v, r = Assets.single other v).
Proof.
  intros get_ann libm_pow self u q precise fee_on_input other.
  split; intros r i H.
  - rewrite ss_out_unfold in H. fold other in H.
    returns H. injection H as <- <-.
    match goal with
    | Hy : StableSwap._get_y _ _ _ _ _ _ _ = Ok _ |- _ =>
        destruct (get_y_known_unit _ _ _ _ _ _ _ _ Hy) as (u' & Hu' & Hin)
    end.
    rewrite unit_single in Hu'. injection Hu' as <-.
    split; [reflexivity | split; [exact Hin | eexists; reflexivity]].
  - rewrite ss_in_unfold in H. fold other in H.
    returns H. injection H as <- <-.
    match goal with
    | Hy : StableSwap._get_y _ _ _ _ _ _ _ = Ok _ |- _ =>
        destruct (get_y_known_unit _ _ _ _ _ _ _ _ Hy) as (u' & Hu' & Hin)
    end.
    rewrite unit_single in Hu'. injection Hu' as <-.
    split; [reflexivity | split; [exact Hin | eexists; reflexivity]].
Qed.

Lemma ss_quote_shape_witness :
  Standard.get_amount_out rounded_pow (stable_pool 1000000 1000000)
    (Assets.single "A" 1000) true true = Ok (Assets.single "B" 997, PyInt 0)
  /\ in_pair "A" "A" "B" = true
  /\ exists v, Assets.single "B" 997 = Assets.single "B" v.
Proof.
  assert (E : Standard.get_amount_out rounded_pow (stable_pool 1000000 1000000)
                (Assets.single "A" 1000) true true
              = Ok (Assets.single "B" 997, PyInt 0))
    by (vm_compute; reflexivity).
  split; [exact E|].
  destruct (ss_quote_shape Standard._get_ann rounded_pow
              (stable_pool 1000000 1000000) "A" 1000 true true) as [H _].
  apply (H (Assets.single "B" 997) (PyInt 0) E).
Defined.

(** X15.  The flag [precise] has no effect on the stable swap quotes:
    for every pool state, single-unit bundle and [fee_on_input],
    [get_amount_out] and [get_amount_in] return, or raise, the same with
    [precise=True] and with [precise=False]. *)
Theorem ss_precise_irrelevant :
  forall get_ann libm_pow self u q fee_on_input,
    StableSwap.get_amount_out get_ann libm_pow self (Assets.single u q)
      true fee_on_input
    = StableSwap.get_amount_out get_ann libm_pow self (Assets.single u q)
        false fee_on_input
    /\ StableSwap.get_amount_in get_ann libm_pow self (Assets.single u q)
         true fee_on_input
       = StableSwap.get_amount_in get_ann libm_pow self (Assets.single u q)
           false fee_on_input.
Proof.
  intros get_ann libm_pow self u q fee_on_input.
  rewrite !ss_out_unfold, !ss_in_unfold. split; reflexivity.
Qed.

(** ** Stable swap: the exceptions of a quote *)

Lemma quantity_at_raises a n e : Assets.quantity_at a n = Raise e -> e = IndexError.
Proof.
  unfold Assets.quantity_at. destruct (nth_error a n) as [[u q] |]; [discriminate|].
  intros H; injection H as <-. reflexivity.
Qed.

Lemma reserve_a_raises self e : StableSwap.reserve_a self = Raise e -> e = IndexError.
Proof.
  unfold StableSwap.reserve_a. intros H.
  destruct (Assets.quantity_at _ _) eqn:E; cbn [bind] in H; [discriminate|].
  injection H as <-. exact (quantity_at_raises _ _ _ E).
Qed.

Lemma reserve_b_raises self e : StableSwap.reserve_b self = Raise e -> e = IndexError.
Proof.
  unfold StableSwap.reserve_b. intros H.
  destruct (Assets.quantity_at _ _) eqn:E; cbn [bind] in H; [discriminate|].
  injection H as <-. exact (quantity_at_raises _ _ _ E).
Qed.

Lemma to_int_raises x e :
  to_int x = Raise e -> e = OverflowError \/ e = ValueError nan_msg.
Proof.
  destruct x as [z | f]; cbn [to_int]; [discriminate|].
  unfold trunc_sf. destruct (Prim2SF f); intros H; try discriminate;
    injection H as <-; auto.
Qed.

(** The failures of the arithmetic and of the reserve look-up. *)
Lemma quote_failure_arith e : arithmetic e -> quote_failure e.
Proof. intros H. left. exact H. Qed.

Lemma quote_failure_to_int x e : to_int x = Raise e -> quote_failure e.
Proof.
  intros H. destruct (to_int_raises _ _ H) as [-> | ->].
  - left. right. reflexivity.
  - right. right. reflexivity.
Qed.

Lemma quote_failure_reserve_a self e :
  StableSwap.reserve_a self = Raise e -> quote_failure e.
Proof. intros H. right. left. exact (reserve_a_raises _ _ H). Qed.

Lemma quote_failure_reserve_b self e :
  StableSwap.reserve_b self = Raise e -> quote_failure e.
Proof. intros H. right. left. exact (reserve_b_raises _ _ H). Qed.

Ltac failures :=
  repeat match goal with
  | H : bind ?c _ = Raise _ |- _ =>
      let E := fresh "E" in
      destruct c eqn:E; cbn [bind] in H;
      [ try discriminate H
      | injection H as <-;
         first [ exact (quote_failure_arith _ (arith_raises _ _ _ _ _ E))
               | exact (quote_failure_arith _ (truediv_raises _ _ _ E))
               | exact (quote_failure_arith _ (pow_raises _ _ _ _ E))
               | exact (quote_failure_arith _ (int_truediv_raises _ _ _ E))
               | exact (quote_failure_to_int _ _ E)
               | exact (quote_failure_reserve_a _ _ E)
               | exact (quote_failure_reserve_b _ _ E)
               | discriminate
               | idtac ] ]
  end.

Lemma d_next_failure libm_pow self ann s d e :
  StableSwap.d_next libm_pow self ann s d = Raise e -> quote_failure e.
Proof.
  unfold StableSwap.d_next. intros H. failures.
  exact (quote_failure_arith _ (truediv_raises _ _ _ H)).
Qed.

Lemma get_d_failure get_ann libm_pow self e :
  StableSwap._get_d get_ann libm_pow self = Raise e -> quote_failure e.
Proof.
  unfold StableSwap._get_d. intros H. failures.
  destruct (_ =? 0); [discriminate|].
  refine (newton_raises _ quote_failure _ _ _ _ e H).
  - intros x e'. apply d_next_failure.
  - intros x' x e' Hc. exact (quote_failure_arith _ (close_raises _ _ _ Hc)).
Qed.

Lemma y_next_failure libm_pow c b d out e :
  StableSwap.y_next libm_pow c b d out = Raise e -> quote_failure e.
Proof.
  unfold StableSwap.y_next. intros H. failures.
  exact (quote_failure_arith _ (truediv_raises _ _ _ H)).
Qed.

Lemma scale_failure q num den e :
  StableSwap.scale q num den = Raise e -> quote_failure e.
Proof.
  unfold StableSwap.scale. intros H. failures.
  exact (quote_failure_to_int _ _ H).
Qed.

Lemma unscaled_reserve_failure self unit e :
  StableSwap.unscaled_reserve self unit = Raise e -> quote_failure e.
Proof.
  unfold StableSwap.unscaled_reserve.
  destruct (String.eqb _ _); intros H; failures;
    exact (quote_failure_arith _ (int_truediv_raises _ _ _ H)).
Qed.

(** On a single-unit bundle and an output unit of the pool, [_get_y] raises
    a failure of the computation, or refuses an input unit that is not the
    pool's. *)
Lemma get_y_failure get_ann libm_pow self u q ou p g e :
  in_pair ou (StableSwap.unit_a self) (StableSwap.unit_b self) = true ->
  StableSwap._get_y get_ann libm_pow self (Assets.single u q) ou p g = Raise e ->
  quote_failure e
  \/ (e = ValueError "Invalid input token."
      /\ in_pair u (StableSwap.unit_a self) (StableSwap.unit_b self) = false).
Proof.
  intros Hou. unfold StableSwap._get_y.
  rewrite len_single, unit_single, quantity_single, Hou.
  change (ONE_VALUE >? ONE_VALUE) with false. cbn [bind negb].
  intros H.
  destruct (StableSwap._get_d _ _ _) as [d |] eqn:Ed; cbn [bind] in H;
    [| injection H as <-; left; exact (get_d_failure _ _ _ _ Ed)].
  destruct (in_pair u _ _) eqn:Hin; cbn [negb] in H;
    [| injection H as <-; right; split; reflexivity].
  left.
  destruct (String.eqb u _); failures;
    match type of H with
    | (let '(_, _) := ?io in _) = _ => destruct io as [in_reserve out_multiplier]
    end; failures.
  all: try (match goal with
            | E : newton _ _ _ = Raise _ |- _ =>
                refine (newton_raises _ quote_failure _ _ _ _ _ E);
                [ intros x e'; apply y_next_failure
                | intros x' x e' Hc;
                  exact (quote_failure_arith _ (close_raises _ _ _ Hc)) ]
            end).
  all: destruct p; cbn [negb bind] in H; try discriminate.
Qed.

Lemma quantity_failure a e : Assets.quantity a = Raise e -> quote_failure e.
Proof. intros H. right. left. exact (quantity_at_raises _ _ _ H). Qed.

Ltac quote_failures :=
  repeat match goal with
  | H : bind ?c _ = Raise _ |- _ =>
      let E := fresh "E" in
      destruct c eqn:E; cbn [bind] in H;
      [ try discriminate H
      | injection H as <-;
         first [ exact (quote_failure_arith _ (arith_raises _ _ _ _ _ E))
               | exact (quote_failure_to_int _ _ E)
               | exact (unscaled_reserve_failure _ _ _ E)
               | exact (scale_failure _ _ _ _ E)
               | exact (quantity_failure _ _ E)
               | discriminate
               | idtac ] ]
  end.

(** ** Stable swap: what a quote can raise *)

(** X16.  An exception raised by stable swap [get_amount_out] or
    [get_amount_in] on a single-unit bundle is a failure of the computation
    ([ZeroDivisionError], [OverflowError], the [IndexError] of the reserve
    look-up, the [ValueError] of [int] on a NaN) or the [ValueError]
    "Invalid input token." for a unit that is not the pool's.  It is never
    "Invalid output token." nor "Only one input asset allowed.": the output
    unit that the two methods pass to [_get_y] is always a pool unit. *)
Theorem ss_quote_errors :
  forall get_ann libm_pow self u q precise fee_on_input e,
    StableSwap.get_amount_out get_ann libm_pow self (Assets.single u q)
      precise fee_on_input = Raise e
    \/ StableSwap.get_amount_in get_ann libm_pow self (Assets.single u q)
         precise fee_on_input = Raise e ->
    (quote_failure e
     \/ (e = ValueError "Invalid input token."
         /\ in_pair u (StableSwap.unit_a self) (StableSwap.unit_b self) = false))
    /\ e <> ValueError "Invalid output token."
    /\ e <> ValueError one_input_msg.
Proof.
  intros get_ann libm_pow self u q precise fee_on_input e H.
  assert (Hother : in_pair (if String.eqb u (StableSwap.unit_b self)
                            then StableSwap.unit_a self else StableSwap.unit_b self)
                     (StableSwap.unit_a self) (StableSwap.unit_b self) = true).
  { destruct (String.eqb u _); [apply in_pair_left | apply in_pair_right]. }
  assert (G : quote_failure e
              \/ (e = ValueError "Invalid input token."
                  /\ in_pair u (StableSwap.unit_a self) (StableSwap.unit_b self) = false)).
  { destruct H as [H | H];
      [rewrite ss_out_unfold in H | rewrite ss_in_unfold in H];
      destruct fee_on_input;
      repeat match type of H with
      | bind (Ok _) _ = _ => cbn [bind] in H
      | bind (StableSwap.scale ?a ?b ?c) _ = _ =>
          let Es := fresh "Es" in
          destruct (StableSwap.scale a b c) eqn:Es; cbn [bind] in H;
          [| injection H as <-; left; exact (scale_failure _ _ _ _ Es)]
      | bind (StableSwap._get_y ?a ?b ?c ?d ?f ?g ?h) _ = _ =>
          let Ey := fresh "Ey" in
          destruct (StableSwap._get_y a b c d f g h) eqn:Ey; cbn [bind] in H;
          [| injection H as <-; exact (get_y_failure _ _ _ _ _ _ _ _ _ Hother Ey)]
      end;
      left; quote_failures. }
  split; [exact G|].
  assert (N : forall msg, msg <> nan_msg -> msg <> "Invalid input token." ->
                          e <> ValueError msg).
  { intros msg N1 N2 ->.
    destruct G as [[[A | A] | [A | A]] | [A _]]; try discriminate;
      injection A as A; contradiction. }
  split.
  - apply N; discriminate.
  - apply N; discriminate.
Qed.

Lemma ss_quote_errors_witness :
  (quote_failure ZeroDivisionError
   \/ (ZeroDivisionError = ValueError "Invalid input token."
       /\ in_pair "A" "A" "B" = false))
  /\ ZeroDivisionError <> ValueError "Invalid output token."
  /\ ZeroDivisionError <> ValueError one_input_msg.
Proof.
  apply (ss_quote_errors Standard._get_ann rounded_pow (stable_pool 0 5)
           "A" 10 true false ZeroDivisionError).
  left. vm_compute. reflexivity.
Defined.

(** ** Stable swap: a unit that is not the pool's *)

Lemma get_y_unknown_unit get_ann libm_pow self u q ou p g d :
  StableSwap._get_d get_ann libm_pow self = Ok d ->
  in_pair u (StableSwap.unit_a self) (StableSwap.unit_b self) = false ->
  StableSwap._get_y get_ann libm_pow self (Assets.single u q) ou p g
  = Raise (ValueError "Invalid input token.").
Proof.
  intros Hd Hin. unfold StableSwap._get_y.
  rewrite Hd. cbn [bind]. rewrite len_single.
  change (ONE_VALUE >? ONE_VALUE) with false. cbn iota.
  rewrite unit_single. cbn [bind]. rewrite Hin. reflexivity.
Qed.

Lemma get_y_solve_error get_ann libm_pow self a ou p g e :
  StableSwap._get_d get_ann libm_pow self = Raise e ->
  StableSwap._get_y get_ann libm_pow self a ou p g = Raise e.
Proof. intros Hd. unfold StableSwap._get_y. rewrite Hd. reflexivity. Qed.

(** The scalings of the two methods answer in the range that the
    properties below consider. *)
Lemma scale_in_range (self : StableSwap.state) q (fee_on_input : bool) :
  0 <= q -> q * 10000 < 2 ^ 51 ->
  0 <= fee_or_0 (StableSwap.volume_fee self) < 10000 ->
  let fm := 10000 - fee_or_0 (StableSwap.volume_fee self) in
  (exists q', (if fee_on_input then StableSwap.scale q fm 10000 else Ok q) = Ok q')
  /\ (exists q', (if fee_on_input then Ok q else StableSwap.scale q 10000 fm) = Ok q').
Proof.
  intros Hq Hb Hfee fm.
  assert (Hfm : 0 < fm <= 10000) by (unfold fm; lia).
  assert (q * fm <= q * 10000) by (apply Z.mul_le_mono_nonneg_l; lia).
  assert (0 <= q * fm) by (apply Z.mul_nonneg_nonneg; lia).
  change (2 ^ 51) with 2251799813685248 in *.
  destruct fee_on_input; split; eexists; try reflexivity.
  - apply scale_floor; [change (2 ^ 51) with 2251799813685248; lia | cbn; lia].
  - apply scale_floor; [change (2 ^ 51) with 2251799813685248; lia |].
    change (2 ^ 64) with 18446744073709551616. lia.
Qed.

(** X17.  On a pool whose invariant solve [_get_d] returns, stable swap
    [get_amount_out] and [get_amount_in] raise the [ValueError]
    "Invalid input token." on a single-unit bundle of a unit that is not the
    pool's, for both values of each flag (quantity [0 <= q] with
    [q * 10000 < 2^51], fee [0 <= fee < 10000]). *)
Theorem ss_unknown_unit :
  forall get_ann libm_pow self u q precise fee_on_input d,
    in_pair u (StableSwap.unit_a self) (StableSwap.unit_b self) = false ->
    StableSwap._get_d get_ann libm_pow self = Ok d ->
    0 <= q -> q * 10000 < 2 ^ 51 ->
    0 <= fee_or_0 (StableSwap.volume_fee self) < 10000 ->
    StableSwap.get_amount_out get_ann libm_pow self (Assets.single u q)
      precise fee_on_input = Raise (ValueError "Invalid input token.")
    /\ StableSwap.get_amount_in get_ann libm_pow self (Assets.single u q)
         precise fee_on_input = Raise (ValueError "Invalid input token.").
Proof.
  intros get_ann libm_pow self u q precise fee_on_input d Hin Hd Hq Hb Hfee.
  destruct (scale_in_range self q fee_on_input Hq Hb Hfee) as [[q1 S1] [q2 S2]].
  rewrite ss_out_unfold, ss_in_unfold. rewrite S1, S2. cbn [bind].
  rewrite !(get_y_unknown_unit _ _ _ _ _ _ _ _ d Hd Hin). split; reflexivity.
Qed.

Lemma ss_unknown_unit_witness :
  Standard.get_amount_out rounded_pow (stable_pool 1000000 1000000)
    (Assets.single "C" 1000) true true = Raise (ValueError "Invalid input token.")
  /\ Standard.get_amount_in rounded_pow (stable_pool 1000000 1000000)
       (Assets.single "C" 1000) true true = Raise (ValueError "Invalid input token.").
Proof.
  apply (ss_unknown_unit Standard._get_ann rounded_pow (stable_pool 1000000 1000000)
           "C" 1000 true true (PyFloat 2000000)).
  - reflexivity.
  - vm_compute. reflexivity.
  - lia.
  - cbn. lia.
  - cbn. lia.
Defined.

(** The first iteration of [_get_d] on a pool with exactly one empty side. *)
Lemma get_d_one_empty get_ann libm_pow self ra rb :
  StableSwap.reserve_a self = Ok ra ->
  StableSwap.reserve_b self = Ok rb ->
  (ra = 0 /\ rb <> 0) \/ (ra <> 0 /\ rb = 0) ->
  StableSwap._get_d get_ann libm_pow self = Raise ZeroDivisionError.
Proof.
  intros Ha Hb Hone.
  assert (Hprod : StableSwap.n_coins ^ StableSwap.n_coins * ra * rb = 0)
    by (destruct Hone as [[-> _] | [_ ->]]; ring).
  assert (Hs : ra + rb <> 0) by lia.
  unfold StableSwap._get_d. rewrite Ha, Hb. cbn [bind].
  destruct (Z.eqb_spec (ra + rb) 0) as [| _]; [contradiction|].
  change 256%nat with (S 255). rewrite newton_unfold.
  unfold StableSwap.d_next. cbn [PyNum.pow bind]. rewrite Ha, Hb. cbn [bind].
  rewrite Hprod. reflexivity.
Qed.

(** X18.  [_get_y] runs the invariant solve before it checks its
    arguments: when [_get_d] raises, stable swap [get_amount_out] and
    [get_amount_in] raise the same exception on every single-unit bundle,
    also of a unit that is not the pool's; in particular both raise
    [ZeroDivisionError] on a pool with exactly one empty side (quantity
    [0 <= q] with [q * 10000 < 2^51], fee [0 <= fee < 10000]). *)
Theorem ss_solve_error_first :
  forall get_ann libm_pow self u q precise fee_on_input,
    0 <= q -> q * 10000 < 2 ^ 51 ->
    0 <= fee_or_0 (StableSwap.volume_fee self) < 10000 ->
    (forall e,
        StableSwap._get_d get_ann libm_pow self = Raise e ->
        StableSwap.get_amount_out get_ann libm_pow self (Assets.single u q)
          precise fee_on_input = Raise e
        /\ StableSwap.get_amount_in get_ann libm_pow self (Assets.single u q)
             precise fee_on_input = Raise e)
    /\ (forall ra rb,
           StableSwap.reserve_a self = Ok ra ->
           StableSwap.reserve_b self = Ok rb ->
           (ra = 0 /\ rb <> 0) \/ (ra <> 0 /\ rb = 0) ->
           StableSwap.get_amount_out get_ann libm_pow self (Assets.single u q)
             precise fee_on_input = Raise ZeroDivisionError
           /\ StableSwap.get_amount_in get_ann libm_pow self (Assets.single u q)
                precise fee_on_input = Raise ZeroDivisionError).
Proof.
  intros get_ann libm_pow self u q precise fee_on_input Hq Hb Hfee.
  destruct (scale_in_range self q fee_on_input Hq Hb Hfee) as [[q1 S1] [q2 S2]].
  assert (G : forall e,
             StableSwap._get_d get_ann libm_pow self = Raise e ->
             StableSwap.get_amount_out get_ann libm_pow self (Assets.single u q)
               precise fee_on_input = Raise e
             /\ StableSwap.get_amount_in get_ann libm_pow self (Assets.single u q)
                  precise fee_on_input = Raise e).
  { intros e Hd. rewrite ss_out_unfold, ss_in_unfold. rewrite S1, S2. cbn [bind].
    rewrite !(get_y_solve_error _ _ _ _ _ _ _ _ Hd). split; reflexivity. }
  split; [exact G|].
  intros ra rb Ha Hrb Hone. apply G.
  exact (get_d_one_empty get_ann libm_pow self ra rb Ha Hrb Hone).
Qed.

Lemma ss_solve_error_first_witness :
  Common.get_amount_out rounded_pow (stable_pool 0 5) (Assets.single "C" 10) true true
  = Raise ZeroDivisionError
  /\ Common.get_amount_in rounded_pow (stable_pool 0 5) (Assets.single "C" 10) true true
     = Raise ZeroDivisionError.
Proof.
  destruct (ss_solve_error_first Common._get_ann rounded_pow (stable_pool 0 5)
              "C" 10 true true) as [_ H].
  - lia.
  - cbn. lia.
  - cbn. lia.
  - apply (H 0 5); [reflexivity | reflexivity |].
    left. split; [reflexivity | discriminate].
Defined.

(** ** Stable swap: the fee on the input *)

(** [_get_y] does not read the fee. *)
Lemma get_y_without_fee get_ann libm_pow self a ou p g :
  get_ann (without_fee self) = get_ann self ->
  StableSwap._get_y get_ann libm_pow (without_fee self) a ou p g
  = StableSwap._get_y get_ann libm_pow self a ou p g.
Proof.
  intros Hann. unfold StableSwap._get_y, StableSwap._get_d. rewrite Hann.
  reflexivity.
Qed.

(** X19.  The fee on the input is a reduction of the amount: with
    [fee_on_input=True], stable swap [get_amount_out] for the quantity [q]
    is [get_amount_out] of the same pool without fee for
    [floor (q * (10000 - fee) / 10000)], when [0 <= q * (10000 - fee) < 2^51]
    (in that range [int(a / b)] on doubles is the floor division).
    Likewise [get_amount_in] with [fee_on_input=False] for [q] is
    [get_amount_in] of the pool without fee for
    [floor (q * 10000 / (10000 - fee))]. *)
Theorem ss_fee_is_reduced_amount :
  forall get_ann libm_pow self u q precise,
    get_ann (without_fee self) = get_ann self ->
    let fm := 10000 - fee_or_0 (StableSwap.volume_fee self) in
    (0 <= q * fm < 2 ^ 51 ->
     StableSwap.get_amount_out get_ann libm_pow self (Assets.single u q) precise true
     = StableSwap.get_amount_out get_ann libm_pow (without_fee self)
         (Assets.single u (q * fm / 10000)) precise true)
    /\ (0 <= q -> 0 < fm <= 10000 -> q * 10000 / fm * 10000 < 2 ^ 51 ->
        StableSwap.get_amount_in get_ann libm_pow self (Assets.single u q) precise false
        = StableSwap.get_amount_in get_ann libm_pow (without_fee self)
            (Assets.single u (q * 10000 / fm)) precise false).
Proof.
  intros get_ann libm_pow self u q precise Hann fm.
  assert (P51 : 2 ^ 51 = 2251799813685248) by reflexivity.
  assert (P64 : 2 ^ 64 = 18446744073709551616) by reflexivity.
  split.
  - intros Hq.
    rewrite !ss_out_unfold. fold fm.
    change (fee_or_0 (StableSwap.volume_fee (without_fee self))) with 0.
    change (10000 - 0) with 10000.
    rewrite (scale_floor q fm 10000) by lia.
    pose proof (Z.mul_div_le (q * fm) 10000 ltac:(lia)) as L.
    pose proof (Z.div_pos (q * fm) 10000 ltac:(lia) ltac:(lia)) as N.
    rewrite (scale_floor (q * fm / 10000) 10000 10000) by lia.
    rewrite Z.div_mul by lia. cbn [bind].
    rewrite get_y_without_fee by exact Hann. reflexivity.
  - intros Hq Hfm Hb.
    rewrite !ss_in_unfold. fold fm.
    change (fee_or_0 (StableSwap.volume_fee (without_fee self))) with 0.
    change (10000 - 0) with 10000.
    pose proof (Z.div_pos (q * 10000) fm ltac:(lia) ltac:(lia)) as N.
    assert (Hge : q <= q * 10000 / fm).
    { apply Z.div_le_lower_bound; [lia|].
      rewrite (Z.mul_comm fm q). apply Z.mul_le_mono_nonneg_l; lia. }
    rewrite (scale_floor q 10000 fm) by lia.
    rewrite (scale_floor (q * 10000 / fm) 10000 10000) by lia.
    rewrite Z.div_mul by lia. cbn [bind].
    rewrite get_y_without_fee by exact Hann. reflexivity.
Qed.

Lemma ss_fee_is_reduced_amount_witness :
  Standard.get_amount_out rounded_pow (stable_pool 1000000 1000000)
    (Assets.single "A" 1000) true true
  = Standard.get_amount_out rounded_pow (without_fee (stable_pool 1000000 1000000))
      (Assets.single "A" 997) true true.
Proof.
  apply (ss_fee_is_reduced_amount Standard._get_ann rounded_pow
           (stable_pool 1000000 1000000) "A" 1000 true eq_refl).
  cbn. lia.
Defined.

(** ** Stable swap: the empty pool *)

Lemma add_zero_fl N : 0 < N < 2 ^ prec -> (0 + fl N)%float = fl N.
Proof.
  intros HN. apply Prim2SF_inj. rewrite add_spec, Prim2SF_fl by assumption.
  reflexivity.
Qed.

Lemma add_fl_zero N : 0 < N < 2 ^ prec -> (fl N + 0)%float = fl N.
Proof.
  intros HN. apply Prim2SF_inj. rewrite add_spec, Prim2SF_fl by assumption.
  reflexivity.
Qed.

Lemma sub_fl_zero N : 0 < N < 2 ^ prec -> (fl N - 0)%float = fl N.
Proof.
  intros HN. apply Prim2SF_inj. rewrite sub_spec, Prim2SF_fl by assumption.
  reflexivity.
Qed.

Lemma div_zero_fl N : 0 < N < 2 ^ prec -> (0 / fl N)%float = 0%float.
Proof.
  intros HN. apply Prim2SF_inj. rewrite div_spec, Prim2SF_fl by assumption.
  reflexivity.
Qed.

Lemma int_truediv_zero_pos b : 0 < b -> int_truediv 0 b = Ok 0%float.
Proof.
  intros Hb. unfold int_truediv.
  destruct (Z.eqb_spec b 0) as [| _]; [lia|].
  cbn [Z.eqb]. unfold sign_of.
  destruct (Z.ltb_spec b 0); [lia|]. reflexivity.
Qed.

(** One iteration of the loop of [_get_y] from [d = 0], with [c = 0.0] and
    [b] the input-side reserve. *)
Lemma y_next_zero libm_pow s :
  0 < s < 2 ^ prec ->
  StableSwap.y_next libm_pow (PyFloat 0) (PyFloat (fl s)) (PyInt 0) (PyInt 0)
  = Ok (PyFloat 0).
Proof.
  intros Hs. unfold StableSwap.y_next. cbn [PyNum.pow bind].
  change (0 ^ 2) with 0.
  change (add (PyInt 0) (PyFloat 0)) with (Ok (PyFloat (0 + 0))).
  cbn [bind].
  change (mul (PyInt 2) (PyInt 0)) with (Ok (PyInt 0)). cbn [bind].
  change (add (PyInt 0) (PyFloat (fl s))) with (Ok (PyFloat (0 + fl s))).
  cbn [bind]. rewrite add_zero_fl by assumption.
  change (sub (PyFloat (fl s)) (PyInt 0)) with (Ok (PyFloat (fl s - 0))).
  cbn [bind]. rewrite sub_fl_zero by assumption.
  unfold truediv. cbn [to_float bind].
  rewrite fl_nonzero by assumption.
  change (0 + 0)%float with 0%float.
  rewrite div_zero_fl by assumption. reflexivity.
Qed.

Lemma get_y_empty_pool get_ann libm_pow self u q ou p m_in m_out :
  StableSwap.reserve_a self = Ok 0 ->
  StableSwap.reserve_b self = Ok 0 ->
  0 < get_ann self ->
  in_pair u (StableSwap.unit_a self) (StableSwap.unit_b self) = true ->
  in_pair ou (StableSwap.unit_a self) (StableSwap.unit_b self) = true ->
  (m_in, m_out) = (if String.eqb u (StableSwap.unit_a self)
                   then StableSwap.asset_mulitipliers self
                   else (snd (StableSwap.asset_mulitipliers self),
                         fst (StableSwap.asset_mulitipliers self))) ->
  0 < q * m_in < 2 ^ prec -> 0 < m_out < 2 ^ prec ->
  StableSwap._get_y get_ann libm_pow self (Assets.single u q) ou p false
  = Ok (Assets.single ou 0).
Proof.
  intros Ha Hb Hann Hu Hou Hm Hq Hmo.
  unfold StableSwap._get_y, StableSwap._get_d.
  rewrite Ha, Hb. cbn [bind]. change (0 + 0 =? 0) with true. cbn iota. cbn [bind].
  rewrite len_single. change (ONE_VALUE >? ONE_VALUE) with false. cbn iota.
  rewrite unit_single. cbn [bind]. rewrite Hu, Hou. cbn [negb].
  rewrite quantity_single. cbn [bind].
  rewrite ?Ha, ?Hb.
  assert (IO : (if String.eqb u (StableSwap.unit_a self)
                then Ok (0 + q * fst (StableSwap.asset_mulitipliers self) * 1,
                         snd (StableSwap.asset_mulitipliers self))
                else Ok (0 + q * snd (StableSwap.asset_mulitipliers self) * 1,
                         fst (StableSwap.asset_mulitipliers self)))
               = Ok (q * m_in, m_out)).
  { destruct (String.eqb u _); destruct (StableSwap.asset_mulitipliers self) as [m0 m1];
      cbn [fst snd bind] in *; injection Hm as -> ->; f_equal; f_equal; ring. }
  rewrite IO. cbn [bind PyNum.pow].
  change (0 ^ 3) with 0.
  unfold truediv at 1 2.
  rewrite (int_truediv_zero_pos (StableSwap.n_coins ^ 2 * get_ann self * (q * m_in)))
    by (change (StableSwap.n_coins ^ 2) with 4; nia).
  cbn [bind]. rewrite (int_truediv_zero_pos (get_ann self)) by assumption.
  cbn [bind].
  unfold add at 1, arith. cbn [to_float bind].
  rewrite float_of_int_exact by assumption. cbn [bind].
  rewrite add_fl_zero by assumption.
  change 256%nat with (S 255). rewrite newton_unfold.
  rewrite y_next_zero by assumption. cbn [bind].
  change (close (PyFloat 0) (PyInt 0)) with (Ok true). cbn [bind].
  unfold truediv. cbn [to_float bind].
  rewrite float_of_int_exact by assumption. cbn [bind].
  rewrite fl_nonzero by assumption. rewrite div_zero_fl by assumption.
  cbn [bind]. change (to_int (PyFloat 0)) with (Ok 0). cbn [bind].
  destruct p; cbn [negb bind]; [reflexivity|].
  rewrite set_root_single. reflexivity.
Qed.

Lemma get_y_empty_pool_zero get_ann libm_pow self u ou p :
  StableSwap.reserve_a self = Ok 0 ->
  StableSwap.reserve_b self = Ok 0 ->
  in_pair u (StableSwap.unit_a self) (StableSwap.unit_b self) = true ->
  in_pair ou (StableSwap.unit_a self) (StableSwap.unit_b self) = true ->
  StableSwap._get_y get_ann libm_pow self (Assets.single u 0) ou p false
  = Raise ZeroDivisionError.
Proof.
  intros Ha Hb Hu Hou.
  unfold StableSwap._get_y, StableSwap._get_d.
  rewrite Ha, Hb. cbn [bind]. change (0 + 0 =? 0) with true. cbn iota. cbn [bind].
  rewrite len_single. change (ONE_VALUE >? ONE_VALUE) with false. cbn iota.
  rewrite unit_single. cbn [bind]. rewrite Hu, Hou. cbn [negb].
  rewrite quantity_single. cbn [bind].
  rewrite ?Ha, ?Hb.
  destruct (String.eqb u _); cbn [bind PyNum.pow];
    rewrite Z.mul_0_l, Z.add_0_l, Z.mul_0_r; reflexivity.
Qed.

(** X20.  On an empty stable swap pool (both reserves zero, positive
    multipliers and amplification), [get_amount_out] for a bundle of a pool
    unit returns the quantity 0 of the other unit, without an error, when
    the quantity [q_in] that enters the solve is positive and its multiple
    by each multiplier is below [2^53]; it raises [ZeroDivisionError] when
    that quantity is 0.  The quantity that enters the solve is the one of
    the bundle, or with [fee_on_input] what [int(q * (10000 - fee) / 10000)]
    returns, which is the floor of the quotient for a product below
    [2^51]. *)
Theorem ss_empty_pool :
  forall get_ann libm_pow self u q q_in precise (fee_on_input : bool) m0 m1,
    StableSwap.reserve_a self = Ok 0 ->
    StableSwap.reserve_b self = Ok 0 ->
    StableSwap.asset_mulitipliers self = (m0, m1) ->
    0 < m0 -> 0 < m1 -> 0 < get_ann self ->
    in_pair u (StableSwap.unit_a self) (StableSwap.unit_b self) = true ->
    let fm := 10000 - fee_or_0 (StableSwap.volume_fee self) in
    let other := if String.eqb u (StableSwap.unit_b self)
                 then StableSwap.unit_a self else StableSwap.unit_b self in
    (if fee_on_input then StableSwap.scale q fm 10000 else Ok q) = Ok q_in ->
    (0 < q_in -> q_in * m0 < 2 ^ 53 -> q_in * m1 < 2 ^ 53 ->
     StableSwap.get_amount_out get_ann libm_pow self (Assets.single u q)
       precise fee_on_input = Ok (Assets.single other 0, PyInt 0))
    /\ (q_in = 0 ->
        StableSwap.get_amount_out get_ann libm_pow self (Assets.single u q)
          precise fee_on_input = Raise ZeroDivisionError)
    /\ (fee_on_input = true -> 0 <= q * fm < 2 ^ 51 -> q_in = q * fm / 10000).
Proof.
  intros get_ann libm_pow self u q q_in precise fee_on_input m0 m1
         Ha Hb Hm Hm0 Hm1 Hann Hu fm other Hs.
  assert (Hother : in_pair other (StableSwap.unit_a self) (StableSwap.unit_b self) = true).
  { unfold other. destruct (String.eqb u _); [apply in_pair_left | apply in_pair_right]. }
  rewrite ss_out_unfold. fold fm. fold other. rewrite Hs. cbn [bind].
  split; [| split].
  - intros Hqin B0 B1.
    assert (P53 : 2 ^ prec = 2 ^ 53) by reflexivity.
    assert (Hy : StableSwap._get_y get_ann libm_pow self (Assets.single u q_in)
                   other false false = Ok (Assets.single other 0)).
    { destruct (String.eqb u (StableSwap.unit_a self)) eqn:Eu.
      - apply (get_y_empty_pool _ _ _ _ _ _ _ m0 m1); try assumption.
        + rewrite Eu. symmetry. exact Hm.
        + rewrite P53. nia.
        + rewrite P53. nia.
      - apply (get_y_empty_pool _ _ _ _ _ _ _ m1 m0); try assumption.
        + rewrite Eu, Hm. reflexivity.
        + rewrite P53. nia.
        + rewrite P53. nia. }
    rewrite Hy. cbn [bind].
    assert (Hr : StableSwap.unscaled_reserve self other = Ok 0%float).
    { unfold StableSwap.unscaled_reserve. rewrite Ha, Hb, Hm. cbn [bind fst snd].
      destruct (String.eqb other _); apply int_truediv_zero_pos; assumption. }
    rewrite Hr. cbn [bind]. rewrite quantity_single. cbn [bind].
    change (sub (PyFloat 0) (PyInt 0)) with (Ok (PyFloat 0)). cbn [bind].
    change (to_int (PyFloat 0)) with (Ok 0). cbn [bind].
    destruct fee_on_input; [reflexivity|].
    rewrite (scale_floor 0 fm 10000) by (cbn; lia). reflexivity.
  - intros E. rewrite E.
    rewrite (get_y_empty_pool_zero _ _ _ _ _ _ Ha Hb Hu Hother). reflexivity.
  - intros -> Hq.
    rewrite (scale_floor q fm 10000 Hq) in Hs by (cbn; lia).
    injection Hs as <-. reflexivity.
Qed.

Lemma ss_empty_pool_witness :
  Standard.get_amount_out rounded_pow (stable_pool 0 0) (Assets.single "A" 20000)
    true true = Ok (Assets.single "B" 0, PyInt 0).
Proof.
  refine (proj1 (ss_empty_pool Standard._get_ann rounded_pow (stable_pool 0 0)
                   "A" 20000 19940 true true 1 1 eq_refl eq_refl eq_refl
                   _ _ _ eq_refl _) _ _ _).
  all: try (vm_compute; reflexivity).
  all: cbn; lia.
Defined.

(** ** Stable swap: a request for the whole reserve *)

Lemma truediv_by_zero x :
  (forall f, x = PyFloat f -> True) ->
  truediv x (PyInt 0) = Raise ZeroDivisionError.
Proof.
  intros _. destruct x as [a | f]; [reflexivity|].
  unfold truediv. cbn [to_float bind].
  change (float_of_int 0) with (Ok 0%float). cbn [bind]. reflexivity.
Qed.

(** X21.  Asking stable swap [get_amount_in] (with [fee_on_input=True])
    for the whole reserve of a unit leaves a zero reserve in the divisor of
    [c]: when [_get_d] returns [D], the call raises [ZeroDivisionError], or
    [OverflowError] when [D ** 3] overflows; it never returns. *)
Theorem ss_in_whole_reserve :
  forall get_ann libm_pow self u q precise d,
    StableSwap._get_d get_ann libm_pow self = Ok d ->
    in_pair u (StableSwap.unit_a self) (StableSwap.unit_b self) = true ->
    (if String.eqb u (StableSwap.unit_a self)
     then StableSwap.reserve_a self
          = Ok (q * fst (StableSwap.asset_mulitipliers self))
     else StableSwap.reserve_b self
          = Ok (q * snd (StableSwap.asset_mulitipliers self))) ->
    (StableSwap.get_amount_in get_ann libm_pow self (Assets.single u q) precise true
     = Raise ZeroDivisionError
     \/ StableSwap.get_amount_in get_ann libm_pow self (Assets.single u q) precise true
        = Raise OverflowError)
    /\ (forall d3, PyNum.pow libm_pow d 3 = Ok d3 ->
          StableSwap.get_amount_in get_ann libm_pow self (Assets.single u q)
            precise true = Raise ZeroDivisionError).
Proof.
  intros get_ann libm_pow self u q precise d Hd Hu Hr.
  set (other := if String.eqb u (StableSwap.unit_b self)
                then StableSwap.unit_a self else StableSwap.unit_b self).
  assert (Hother : in_pair other (StableSwap.unit_a self) (StableSwap.unit_b self) = true).
  { unfold other. destruct (String.eqb u (StableSwap.unit_b self));
      [apply in_pair_left | apply in_pair_right]. }
  assert (Hy : StableSwap._get_y get_ann libm_pow self (Assets.single u q) other
                 false true
               = d3 <- PyNum.pow libm_pow d 3 ;;
                 c <- truediv d3 (PyInt 0) ;;
                 Raise ZeroDivisionError).
  { unfold StableSwap._get_y. rewrite Hd. cbn [bind].
    rewrite len_single. change (ONE_VALUE >? ONE_VALUE) with false. cbn iota.
    rewrite unit_single. cbn [bind]. rewrite Hu, Hother. cbn [negb].
    rewrite quantity_single. cbn [bind].
    destruct (String.eqb u (StableSwap.unit_a self)); rewrite Hr; cbn [bind];
      match goal with
      | |- context [PyInt (StableSwap.n_coins ^ 2 * ?a * ?z)] =>
          replace (StableSwap.n_coins ^ 2 * a * z) with 0 by ring
      end;
      destruct (PyNum.pow libm_pow d 3) as [d3 |]; cbn [bind]; try reflexivity;
      rewrite truediv_by_zero by auto; reflexivity. }
  rewrite ss_in_unfold. fold other. cbn [bind]. rewrite Hy.
  split.
  - destruct (PyNum.pow libm_pow d 3) as [d3 | e] eqn:Ep; cbn [bind].
    + rewrite truediv_by_zero by auto. left. reflexivity.
    + destruct (pow_raises _ _ _ _ Ep) as [-> | ->]; [left | right]; reflexivity.
  - intros d3 Ep. rewrite Ep. cbn [bind].
    rewrite truediv_by_zero by auto. reflexivity.
Qed.

Lemma ss_in_whole_reserve_witness :
  Standard.get_amount_in rounded_pow (stable_pool 1000000 1000000)
    (Assets.single "B" 1000000) true true = Raise ZeroDivisionError.
Proof.
  refine (proj2 (ss_in_whole_reserve Standard._get_ann rounded_pow
                   (stable_pool 1000000 1000000) "B" 1000000 true (PyFloat 2000000)
                   _ eq_refl eq_refl) (PyFloat 8e18) _);
    vm_compute; reflexivity.
Defined.

(** ** The selection of UTxOs *)

Lemma select_loop_from int_of_str req : forall utxos acc tot,
  Blockfrost.select_loop int_of_str utxos req acc tot =
  r <- select_from int_of_str utxos req tot ;; Ok (acc ++ r)%list.
Proof.
  induction utxos as [| u rest IH]; intros acc tot;
    cbn [Blockfrost.select_loop select_from bind].
  - rewrite app_nil_r. reflexivity.
  - destruct (Blockfrost.first_quantity int_of_str u) as [q |]; cbn [bind];
      [| reflexivity].
    destruct (tot + q >=? req); cbn [bind]; [reflexivity|].
    rewrite IH.
    destruct (select_from int_of_str rest req (tot + q)); cbn [bind];
      [| reflexivity].
    rewrite <- app_assoc. reflexivity.
Qed.

Lemma select_utxos_from int_of_str utxos req :
  Blockfrost.select_utxos_for_swaps int_of_str utxos req
  = select_from int_of_str utxos req 0.
Proof.
  unfold Blockfrost.select_utxos_for_swaps. rewrite select_loop_from.
  destruct (select_from int_of_str utxos req 0); reflexivity.
Qed.

Lemma total_cons int_of_str u l q t :
  Blockfrost.first_quantity int_of_str u = Ok q ->
  utxo_total int_of_str l = Ok t ->
  utxo_total int_of_str (u :: l) = Ok (q + t).
Proof. intros Hq Ht. cbn [utxo_total]. rewrite Hq, Ht. reflexivity. Qed.

(** The first UTxO of a list whose prefixes are all short, and the rest of
    the list. *)
Lemma all_short_cons int_of_str u l req :
  all_short int_of_str (u :: l) req ->
  exists q, Blockfrost.first_quantity int_of_str u = Ok q /\ q < req
            /\ all_short int_of_str l (req - q).
Proof.
  intros H.
  destruct (H [u] l eq_refl ltac:(discriminate)) as (t & Ht & Hlt).
  cbn [utxo_total] in Ht.
  destruct (Blockfrost.first_quantity int_of_str u) as [q |] eqn:Eq;
    cbn [bind] in Ht; [| discriminate].
  injection Ht as <-. exists q. split; [reflexivity | split; [lia|]].
  intros p p' E Hp.
  destruct (H (u :: p) p' ltac:(cbn [app]; f_equal; exact E) ltac:(discriminate))
    as (t & Ht & Hlt').
  cbn [utxo_total] in Ht. rewrite Eq in Ht. cbn [bind] in Ht.
  destruct (utxo_total int_of_str p) as [tp |]; cbn [bind] in Ht;
    [| discriminate].
  injection Ht as <-. exists tp. split; [reflexivity | lia].
Qed.

Lemma all_short_cons_intro int_of_str u l req q :
  Blockfrost.first_quantity int_of_str u = Ok q -> q < req ->
  all_short int_of_str l (req - q) ->
  all_short int_of_str (u :: l) req.
Proof.
  intros Hq Hlt H p p' E Hp.
  destruct p as [| x p]; [congruence|].
  cbn [app] in E. injection E as <- E.
  destruct p as [| y p].
  - exists (q + 0). split; [apply total_cons; [exact Hq | reflexivity] | lia].
  - destruct (H (y :: p) p' E ltac:(discriminate)) as (t & Ht & Hlt').
    exists (q + t). split; [apply total_cons; assumption | lia].
Qed.

Lemma all_short_nil int_of_str req : all_short int_of_str [] req.
Proof.
  intros p p' E Hp. destruct p; [congruence | discriminate].
Qed.

(** What the loop returns from a running total [tot]. *)
Lemma select_from_ok int_of_str req : forall utxos tot sel,
  select_from int_of_str utxos req tot = Ok sel ->
  exists rest,
    utxos = (sel ++ rest)%list
    /\ (utxos <> [] -> sel <> [])
    /\ (forall init last, sel = (init ++ [last])%list ->
          all_short int_of_str init (req - tot))
    /\ (rest <> [] ->
        exists t, utxo_total int_of_str sel = Ok t /\ req <= tot + t).
Proof.
  induction utxos as [| u rest IH]; intros tot sel H; cbn [select_from] in H.
  - injection H as <-. exists []. repeat split; try congruence.
    intros init last E. destruct init; discriminate.
  - destruct (Blockfrost.first_quantity int_of_str u) as [q |] eqn:Eq;
      cbn [bind] in H; [| discriminate].
    destruct (tot + q >=? req) eqn:Ege.
    + injection H as <-. exists rest. repeat split; try discriminate.
      * intros init last E.
        destruct init as [| x init]; [apply all_short_nil|].
        cbn [app] in E. injection E as _ E. destruct init; discriminate.
      * intros _. exists (q + 0).
        split; [apply total_cons; [exact Eq | reflexivity] | lia].
    + destruct (select_from int_of_str rest req (tot + q)) as [r |] eqn:Er;
        cbn [bind] in H; [| discriminate].
      injection H as <-.
      destruct (IH (tot + q) r Er) as (rest' & E & Hne & Hshort & Hsuff).
      exists rest'. repeat split.
      * cbn [app]. f_equal. exact E.
      * discriminate.
      * intros init last Ei.
        destruct init as [| x init].
        -- apply all_short_nil.
        -- cbn [app] in Ei. injection Ei as <- Ei.
           apply (all_short_cons_intro _ _ _ _ q Eq); [lia|].
           replace (req - tot - q) with (req - (tot + q)) by lia.
           exact (Hshort init last Ei).
      * intros Hrest. destruct (Hsuff Hrest) as (t & Ht & Hle).
        exists (q + t). split; [apply total_cons; assumption | lia].
Qed.

(** X22.  What [select_utxos_for_swaps] returns is a prefix of the UTxOs
    given, not empty unless they are; removing its last UTxO leaves a list
    of which every non-empty prefix sums to less than the required amount
    (the selection stops at the first UTxO that reaches it); and when some
    UTxO is left out, the first quantities selected sum to at least the
    required amount. *)
Theorem select_utxos_prefix :
  forall int_of_str utxos required_amount selected,
    Blockfrost.select_utxos_for_swaps int_of_str utxos required_amount = Ok selected ->
    exists rest,
      utxos = (selected ++ rest)%list
      /\ (utxos <> [] -> selected <> [])
      /\ (forall init last, selected = (init ++ [last])%list ->
            all_short int_of_str init required_amount)
      /\ (rest <> [] ->
          exists t, utxo_total int_of_str selected = Ok t
                    /\ required_amount <= t).
Proof.
  intros int_of_str utxos req sel H.
  rewrite select_utxos_from in H.
  destruct (select_from_ok int_of_str req utxos 0 sel H) as (rest & E & Hne & Hs & Hf).
  exists rest. split; [exact E | split; [exact Hne | split]].
  - intros init last Ei. rewrite <- (Z.sub_0_r req). exact (Hs init last Ei).
  - intros Hr. destruct (Hf Hr) as (t & Ht & Hle). exists t. split; [exact Ht | lia].
Qed.

Lemma select_utxos_prefix_witness :
  exists rest,
    [utxo_of "5"; utxo_of "7"; utxo_bare]
    = ([utxo_of "5"; utxo_of "7"] ++ rest)%list
    /\ ([utxo_of "5"; utxo_of "7"; utxo_bare] <> []
        -> [utxo_of "5"; utxo_of "7"] <> [])
    /\ (forall init last,
          [utxo_of "5"; utxo_of "7"] = (init ++ [last])%list ->
          all_short int_of_digits init 10)
    /\ (rest <> [] ->
        exists t, utxo_total int_of_digits
                    [utxo_of "5"; utxo_of "7"] = Ok t
                  /\ 10 <= t).
Proof.
  apply (select_utxos_prefix int_of_digits
           [utxo_of "5"; utxo_of "7"; utxo_bare] 10).
  reflexivity.
Defined.

(** The loop runs to the end of a list whose prefixes are all short. *)
Lemma select_from_all_short int_of_str : forall utxos req tot,
  all_short int_of_str utxos (req - tot) ->
  select_from int_of_str utxos req tot = Ok utxos.
Proof.
  induction utxos as [| u rest IH]; intros req tot H; cbn [select_from].
  - reflexivity.
  - destruct (all_short_cons _ _ _ _ H) as (q & Hq & Hlt & Hrest).
    rewrite Hq. cbn [bind].
    destruct (Z.geb_spec (tot + q) req) as [Hge | _]; [lia|].
    rewrite IH; [reflexivity|].
    replace (req - (tot + q)) with (req - tot - q) by lia. exact Hrest.
Qed.

Lemma total_nonneg int_of_str : forall utxos t,
  Forall (fun u => exists q, Blockfrost.first_quantity int_of_str u = Ok q /\ 0 <= q)
         utxos ->
  utxo_total int_of_str utxos = Ok t -> 0 <= t.
Proof.
  induction utxos as [| u rest IH]; intros t HF Ht; cbn [utxo_total] in Ht.
  - injection Ht as <-. lia.
  - inversion HF as [| x l (q & Hq & Hq0) HF']; subst.
    rewrite Hq in Ht. cbn [bind] in Ht.
    destruct (utxo_total int_of_str rest) as [tr |] eqn:Etr; cbn [bind] in Ht;
      [| discriminate].
    injection Ht as <-. pose proof (IH tr HF' eq_refl). lia.
Qed.

Lemma all_short_nonneg int_of_str : forall utxos req t,
  Forall (fun u => exists q, Blockfrost.first_quantity int_of_str u = Ok q /\ 0 <= q)
         utxos ->
  utxo_total int_of_str utxos = Ok t -> t < req ->
  all_short int_of_str utxos req.
Proof.
  induction utxos as [| u rest IH]; intros req t HF Ht Hlt.
  - apply all_short_nil.
  - inversion HF as [| x l (q & Hq & Hq0) HF']; subst.
    cbn [utxo_total] in Ht. rewrite Hq in Ht. cbn [bind] in Ht.
    destruct (utxo_total int_of_str rest) as [tr |] eqn:Etr; cbn [bind] in Ht;
      [| discriminate].
    injection Ht as <-.
    pose proof (total_nonneg _ _ _ HF' Etr).
    apply (all_short_cons_intro _ _ _ _ q Hq); [lia|].
    apply (IH (req - q) tr HF' eq_refl). lia.
Qed.

(** X23.  [select_utxos_for_swaps] does not report a shortfall: when
    every non-empty prefix of the UTxOs sums to less than the required
    amount, in particular when the quantities are non-negative and their
    total is below it, the call returns all the UTxOs and raises nothing. *)
Theorem select_utxos_shortfall :
  forall int_of_str utxos required_amount,
    (all_short int_of_str utxos required_amount ->
     Blockfrost.select_utxos_for_swaps int_of_str utxos required_amount = Ok utxos)
    /\ (forall t,
          Forall (fun u => exists q,
                     Blockfrost.first_quantity int_of_str u = Ok q /\ 0 <= q) utxos ->
          utxo_total int_of_str utxos = Ok t ->
          t < required_amount ->
          Blockfrost.select_utxos_for_swaps int_of_str utxos required_amount
          = Ok utxos).
Proof.
  intros int_of_str utxos req.
  assert (G : all_short int_of_str utxos req ->
              Blockfrost.select_utxos_for_swaps int_of_str utxos req = Ok utxos).
  { intros H. rewrite select_utxos_from. apply select_from_all_short.
    rewrite Z.sub_0_r. exact H. }
  split; [exact G|].
  intros t HF Ht Hlt. apply G. exact (all_short_nonneg _ _ _ _ HF Ht Hlt).
Qed.

Lemma select_utxos_shortfall_witness :
  Blockfrost.select_utxos_for_swaps int_of_digits
    [utxo_of "5"; utxo_of "7"] 100
  = Ok [utxo_of "5"; utxo_of "7"].
Proof.
  destruct (select_utxos_shortfall int_of_digits
              [utxo_of "5"; utxo_of "7"] 100) as [_ H].
  apply (H 12).
  - apply Forall_cons; [exists 5; split; [reflexivity | lia]|].
    apply Forall_cons; [exists 7; split; [reflexivity | lia]|].
    apply Forall_nil.
  - reflexivity.
  - lia.
Defined.

(** The loop fails at the first UTxO that cannot be read, when the ones
    before it leave the total short; and only then. *)
Lemma select_from_raises int_of_str req e : forall utxos tot,
  select_from int_of_str utxos req tot = Raise e <->
  exists p u rest,
    utxos = (p ++ u :: rest)%list
    /\ all_short int_of_str p (req - tot)
    /\ Blockfrost.first_quantity int_of_str u = Raise e.
Proof.
  induction utxos as [| u0 rest0 IH]; intros tot; cbn [select_from].
  - split; [discriminate|].
    intros (p & u & rest & E & _). destruct p; discriminate.
  - split.
    + intros H.
      destruct (Blockfrost.first_quantity int_of_str u0) as [q |] eqn:Eq;
        cbn [bind] in H.
      * destruct (Z.geb_spec (tot + q) req) as [| Hlt]; [discriminate|].
        destruct (select_from int_of_str rest0 req (tot + q)) as [r |] eqn:Er;
          cbn [bind] in H; [discriminate|].
        injection H as <-.
        destruct (proj1 (IH (tot + q)) Er) as (p & u & rest & E & Hs & Hu).
        exists (u0 :: p), u, rest. split; [cbn [app]; f_equal; exact E|].
        split; [| exact Hu].
        apply (all_short_cons_intro _ _ _ _ q Eq); [lia|].
        replace (req - tot - q) with (req - (tot + q)) by lia. exact Hs.
      * injection H as <-. exists [], u0, rest0.
        split; [reflexivity | split; [apply all_short_nil | exact Eq]].
    + intros (p & u & rest & E & Hs & Hu).
      destruct p as [| x p]; cbn [app] in E; injection E as <- ->.
      * rewrite Hu. reflexivity.
      * destruct (all_short_cons _ _ _ _ Hs) as (q & Hq & Hlt & Hrest).
        rewrite Hq. cbn [bind].
        destruct (Z.geb_spec (tot + q) req) as [| _]; [lia|].
        assert (R : select_from int_of_str (p ++ u :: rest)%list req (tot + q)
                    = Raise e).
        { apply IH. exists p, u, rest. split; [reflexivity|].
          split; [| exact Hu].
          replace (req - (tot + q)) with (req - tot - q) by lia. exact Hrest. }
        rewrite R. reflexivity.
Qed.

(** X24.  [select_utxos_for_swaps] raises exactly when it reaches a UTxO
    whose first quantity cannot be read (an empty [amount], or a string that
    [int] refuses) while the UTxOs before it leave the total short; the
    exception is the one of that reading, and a UTxO after the point where
    the total is reached is never read. *)
Theorem select_utxos_failure :
  forall int_of_str utxos required_amount e,
    Blockfrost.select_utxos_for_swaps int_of_str utxos required_amount = Raise e
    <-> exists p u rest,
          utxos = (p ++ u :: rest)%list
          /\ all_short int_of_str p required_amount
          /\ Blockfrost.first_quantity int_of_str u = Raise e.
Proof.
  intros int_of_str utxos req e.
  rewrite select_utxos_from, select_from_raises. rewrite Z.sub_0_r. reflexivity.
Qed.

Lemma select_utxos_failure_witness :
  Blockfrost.select_utxos_for_swaps int_of_digits
    [utxo_of "5"; utxo_bare; utxo_of "x"] 10
  = Raise IndexError.
Proof.
  apply (select_utxos_failure int_of_digits
           [utxo_of "5"; utxo_bare; utxo_of "x"]
           10 IndexError).
  exists [utxo_of "5"], utxo_bare, [utxo_of "x"].
  split; [reflexivity | split; [| reflexivity]].
  apply (all_short_cons_intro int_of_digits (utxo_of "5") [] 10 5);
    [reflexivity | lia | apply all_short_nil].
Defined.
(* ================================================================= *)
(** * Stable swap: balanced reserves, up to the first miss *)

(** ** Binary64: rounding to nearest *)

Lemma new_location_located den q r :
  0 < den -> 0 <= r < den -> located (q * den + r) den q (new_location den r).
Proof.
  intros Hden Hr. unfold new_location.
  destruct (Z.even den) eqn:Ev; unfold new_location_even, new_location_odd;
    destruct (Z.eqb_spec r 0) as [E0 | Hr0]; cbn [located]; try lia.
  - destruct (Z.compare_spec (2 * r) den); cbn [located]; lia.
  - assert (Ho : Z.odd den = true) by (rewrite <- Z.negb_even, Ev; reflexivity).
    apply Z.odd_spec in Ho. destruct Ho as [k Hk].
    destruct (Z.compare_spec (2 * r + 1) den); cbn [located]; lia.
Qed.

Lemma located_record num den mrs :
  located num den (shr_m mrs) (loc_of_shr_record mrs) ->
  0 < den -> 0 <= shr_m mrs ->
  located num (2 * den) (shr_m (shr_1 mrs)) (loc_of_shr_record (shr_1 mrs)).
Proof.
  destruct mrs as [m r s]. cbn [shr_m]. intros H Hden Hm.
  destruct m as [| [p | p |] | p]; try lia;
    try (pose proof (Pos2Z.inj_xI p) as Ep); try (pose proof (Pos2Z.inj_xO p) as Ep');
    destruct r, s; cbn [shr_1 shr_m loc_of_shr_record located orb] in *; nia.
Qed.

Lemma located_iter n : forall num den mrs,
  located num den (shr_m mrs) (loc_of_shr_record mrs) ->
  0 < den -> 0 <= shr_m mrs ->
  located num (2 ^ Zpos n * den) (shr_m (iter_pos shr_1 n mrs))
          (loc_of_shr_record (iter_pos shr_1 n mrs)).
Proof.
  induction n as [n IH | n IH |]; intros num den mrs H Hden Hm; cbn [iter_pos].
  - assert (P : 0 < 2 ^ Zpos n) by (apply Z.pow_pos_nonneg; lia).
    replace (2 ^ Zpos n~1 * den) with (2 ^ Zpos n * (2 ^ Zpos n * (2 * den))).
    2:{ replace (Zpos n~1) with (Zpos n + Zpos n + 1) by lia.
        rewrite !Z.pow_add_r, Z.pow_1_r by lia. ring. }
    apply IH; [apply IH; [apply located_record; assumption | lia |] | nia |].
    + rewrite shr_1_m by assumption. apply Z.div_pos; lia.
    + rewrite iter_shr_1_m by (rewrite shr_1_m by assumption; apply Z.div_pos; lia).
      apply Z.div_pos; [rewrite shr_1_m by assumption; apply Z.div_pos; lia | lia].
  - assert (P : 0 < 2 ^ Zpos n) by (apply Z.pow_pos_nonneg; lia).
    replace (2 ^ Zpos n~0 * den) with (2 ^ Zpos n * (2 ^ Zpos n * den)).
    2:{ replace (Zpos n~0) with (Zpos n + Zpos n) by lia.
        rewrite !Z.pow_add_r by lia. ring. }
    apply IH; [apply IH; assumption | nia |].
    rewrite iter_shr_1_m by assumption. apply Z.div_pos; lia.
  - rewrite Z.pow_1_r. apply located_record; assumption.
Qed.

Lemma located_shr num den m l e n :
  located num den m l -> 0 < den -> 0 <= m -> 0 <= n ->
  located num (2 ^ n * den) (shr_m (fst (shr (shr_record_of_loc m l) e n)))
          (loc_of_shr_record (fst (shr (shr_record_of_loc m l) e n))).
Proof.
  intros H Hden Hm Hn.
  assert (H0 : located num den (shr_m (shr_record_of_loc m l))
                       (loc_of_shr_record (shr_record_of_loc m l))).
  { rewrite shr_record_of_loc_m. destruct l as [| []]; exact H. }
  unfold shr. destruct n as [| p | p]; cbn [fst]; try lia.
  - rewrite Z.pow_0_r, Z.mul_1_l. exact H0.
  - apply located_iter; [exact H0 | assumption |].
    rewrite shr_record_of_loc_m. assumption.
Qed.

Lemma round_nearest_even_located num den m l :
  located num den m l -> 0 < den ->
  2 * Z.abs (round_nearest_even m l * den - num) <= den.
Proof.
  intros H Hden. unfold round_nearest_even.
  destruct l as [| []]; cbn [located] in H; try destruct (Z.even m); lia.
Qed.

(** Rounding a mantissa of at least 53 bits in the normal range, together
    with the place of the exact value: the result is finite, has 53 bits,
    and differs from the exact value by at most half a unit of the last
    place kept. *)
Lemma binary_round_aux_nearest s m e l num den :
  0 < m -> prec <= Zdigits2 m ->
  emin <= Zdigits2 m + e - prec ->
  Zdigits2 m + e < emax ->
  0 < den -> located num den m l ->
  exists mf k,
    binary_round_aux prec emax s m e l = S754_finite s mf (e + k)
    /\ Zdigits2 m - prec <= k <= Zdigits2 m - prec + 1
    /\ Zdigits2 (Zpos mf) = prec
    /\ 2 * Z.abs (Zpos mf * 2 ^ k * den - num) <= 2 ^ (Zdigits2 m - prec) * den.
Proof.
  intros Hm Hd Hmin Hmax Hden Hloc.
  assert (Hprec : prec = 53) by reflexivity.
  assert (Hemax : emax = 1024) by reflexivity.
  assert (Hemin : emin = -1074) by reflexivity.
  unfold binary_round_aux, shr_fexp.
  assert (F1 : fexp prec emax (Zdigits2 m + e) - e = Zdigits2 m - prec)
    by (unfold fexp; lia).
  rewrite F1.
  set (n1 := Zdigits2 m - prec) in *.
  pose proof (shr_spec (shr_record_of_loc m l) e n1) as S1.
  rewrite shr_record_of_loc_m in S1. specialize (S1 ltac:(lia)).
  pose proof (located_shr num den m l e n1 Hloc Hden ltac:(lia) ltac:(lia)) as L1.
  destruct (shr (shr_record_of_loc m l) e n1) as [mrs1 e1]. cbn [fst snd] in S1, L1.
  destruct S1 as [E1 M1]. rewrite Z.max_r in E1, M1 by lia.
  assert (P1 : 0 < 2 ^ n1) by (apply Z.pow_pos_nonneg; lia).
  assert (D1 : Zdigits2 (shr_m mrs1) = prec).
  { rewrite M1, Zdigits2_div_pow2 by lia. lia. }
  assert (N1 : 0 <= shr_m mrs1) by (rewrite M1; apply Z.div_pos; lia).
  assert (N1' : 0 < shr_m mrs1).
  { destruct (Z.eq_dec (shr_m mrs1) 0) as [E0 | ]; [| lia].
    rewrite E0 in D1. cbn in D1. lia. }
  assert (B1 : 2 ^ (prec - 1) <= shr_m mrs1 < 2 ^ prec).
  { split.
    - rewrite <- D1. apply Zdigits2_lower. exact N1'.
    - rewrite <- D1. apply Zdigits2_upper. exact N1. }
  pose proof (round_nearest_even_located num (2 ^ n1 * den) _ _ L1 ltac:(nia)) as R.
  set (m1 := round_nearest_even (shr_m mrs1) (loc_of_shr_record mrs1)) in *.
  pose proof (round_nearest_even_bounds (shr_m mrs1) (loc_of_shr_record mrs1)) as R1.
  fold m1 in R1.
  assert (P52 : 2 ^ (prec - 1) = 4503599627370496) by reflexivity.
  assert (P53 : 2 ^ prec = 9007199254740992) by reflexivity.
  destruct (Z.eq_dec m1 (2 ^ prec)) as [Ecarry | Ncarry].
  - (* the rounding carried into a 54th bit *)
    assert (Dm1 : Zdigits2 m1 = prec + 1) by (rewrite Ecarry; reflexivity).
    assert (F2 : fexp prec emax (Zdigits2 m1 + e1) - e1 = 1) by (unfold fexp; lia).
    rewrite F2. rewrite Ecarry.
    exists (Z.to_pos (2 ^ (prec - 1))), (n1 + 1).
    split; [| split; [lia | split; [reflexivity|]]].
    + change (shr (shr_record_of_loc (2 ^ prec) loc_Exact) e1 1)
        with ({| shr_m := 2 ^ (prec - 1); shr_r := false; shr_s := false |}, e1 + 1).
      cbn [shr_m]. rewrite P52. cbn [Z.to_pos].
      destruct (Z.leb_spec (e1 + 1) (emax - prec)); [| lia].
      f_equal. lia.
    + rewrite Z.pow_add_r, !Z.pow_1_r by lia.
      change (Zpos (Z.to_pos (2 ^ (prec - 1)))) with (2 ^ (prec - 1)).
      rewrite Ecarry, P53 in R. rewrite P52.
      replace (4503599627370496 * (2 ^ n1 * 2) * den)
        with (9007199254740992 * (2 ^ n1 * den)) by ring.
      exact R.
  - assert (Bm1 : 2 ^ (prec - 1) <= m1 < 2 ^ prec) by lia.
    assert (Dm1 : Zdigits2 m1 = prec).
    { apply Zdigits2_unique; lia. }
    assert (F2 : fexp prec emax (Zdigits2 m1 + e1) - e1 = 0) by (unfold fexp; lia).
    rewrite F2. cbn [shr].
    rewrite shr_record_of_loc_m.
    destruct m1 as [| p1 | p1] eqn:Em1; try lia.
    exists p1, n1.
    split; [| split; [lia | split; [exact Dm1|]]].
    + destruct (Z.leb_spec e1 (emax - prec)); [| lia].
      f_equal. lia.
    + replace (Zpos p1 * 2 ^ n1 * den) with (Zpos p1 * (2 ^ n1 * den)) by ring.
      exact R.
Qed.

(** ** Binary64: integer doubles and their operations *)

Lemma fint_pos x N : fint x N -> 0 < N.
Proof.
  intros (m & e & _ & _ & He & E).
  assert (0 < 2 ^ (e + prec)) by (apply Z.pow_pos_nonneg; lia).
  assert (0 < 2 ^ prec) by reflexivity. nia.
Qed.

Lemma fint_digits m e N :
  - prec < e -> Zdigits2 (Zpos m) = prec -> Zpos m * 2 ^ (e + prec) = N * 2 ^ prec ->
  Zdigits2 N = prec + e.
Proof.
  intros He D E.
  assert (HN : 0 < N).
  { assert (0 < 2 ^ (e + prec)) by (apply Z.pow_pos_nonneg; lia).
    assert (0 < 2 ^ prec) by reflexivity. nia. }
  assert (D1 : Zdigits2 (Zpos m * 2 ^ (e + prec)) = prec + (e + prec))
    by (rewrite Zdigits2_shift by lia; lia).
  rewrite E, Zdigits2_shift in D1 by (try assumption; unfold prec; lia). lia.
Qed.

Lemma fint_canon N : 0 < N < 2 ^ prec -> fint (canon N) N.
Proof.
  intros HN.
  assert (Hprec : prec = 53) by reflexivity.
  pose proof (Zdigits2_pos N ltac:(lia)) as P.
  assert (DN : Zdigits2 N <= prec) by (apply Zdigits2_le; lia).
  pose proof (canon_mantissa_pos N HN) as Pm.
  exists (Z.to_pos (N * 2 ^ (prec - Zdigits2 N))), (Zdigits2 N - prec).
  split; [reflexivity|]. rewrite Z2Pos.id by assumption.
  split; [apply canon_mantissa_digits; assumption|].
  split; [lia|].
  rewrite <- Z.mul_assoc, <- Z.pow_add_r by lia. f_equal. f_equal. lia.
Qed.

Lemma nearest53_small z : 0 < z < 2 ^ prec -> nearest53 z z.
Proof.
  intros Hz. unfold nearest53.
  assert (DN : Zdigits2 z <= prec) by (apply Zdigits2_le; unfold prec in *; lia).
  rewrite Z.max_l by lia. cbn [Z.pow]. split; [exists z; lia | lia].
Qed.

(** Rounding the exact mantissa [m] at the exponent [e], whose value is the
    integer [Z >= 2^53]. *)
Lemma round_value m e K Z :
  0 < m -> prec <= Zdigits2 m -> 0 <= e + K -> 0 <= K ->
  m * 2 ^ (e + K) = Z * 2 ^ K ->
  2 ^ prec <= Z -> Zdigits2 Z <= 900 ->
  exists c, fint (binary_round_aux prec emax false m e loc_Exact) c /\ nearest53 Z c.
Proof.
  intros Hm Hd HeK HK E HZ DZ.
  assert (Hprec : prec = 53) by reflexivity.
  assert (Hemax : emax = 1024) by reflexivity.
  assert (Hemin : emin = -1074) by reflexivity.
  assert (P53 : 2 ^ prec = 9007199254740992) by reflexivity.
  assert (DZe : Zdigits2 Z = Zdigits2 m + e).
  { assert (D1 : Zdigits2 (m * 2 ^ (e + K)) = Zdigits2 m + (e + K))
      by (apply Zdigits2_shift; lia).
    rewrite E, Zdigits2_shift in D1 by lia. lia. }
  assert (DZ54 : prec + 1 <= Zdigits2 Z).
  { destruct (Z_le_gt_dec (prec + 1) (Zdigits2 Z)); [assumption|]. exfalso.
    pose proof (Zdigits2_upper Z ltac:(lia)).
    assert (2 ^ Zdigits2 Z <= 2 ^ prec) by (apply Z.pow_le_mono_r; lia). lia. }
  destruct (binary_round_aux_nearest false m e loc_Exact m 1 Hm Hd)
    as (mf & k & Er & Hk & Dmf & B); [lia | lia | lia | cbn [located]; lia |].
  set (n1 := Zdigits2 m - prec) in *.
  rewrite Er.
  exists (Zpos mf * 2 ^ (e + k)).
  split.
  - exists mf, (e + k). split; [reflexivity | split; [exact Dmf | split; [lia|]]].
    rewrite <- Z.mul_assoc, <- Z.pow_add_r by lia. reflexivity.
  - unfold nearest53. rewrite Z.max_r by lia.
    replace (Zdigits2 Z - prec) with (e + n1) by (unfold n1; lia).
    split.
    + exists (Zpos mf * 2 ^ (k - n1)).
      rewrite <- Z.mul_assoc, <- Z.pow_add_r by lia. f_equal. f_equal. lia.
    + assert (PK : 0 < 2 ^ K) by (apply Z.pow_pos_nonneg; lia).
      apply (Z.mul_le_mono_pos_r _ _ (2 ^ K)); [assumption|].
      rewrite <- Z.mul_assoc. rewrite <- (Z.abs_eq (2 ^ K)) at 1 by lia.
      rewrite <- Z.abs_mul, Z.mul_sub_distr_r, <- E.
      rewrite !Z.mul_1_r in B.
      replace (Zpos mf * 2 ^ (e + k) * 2 ^ K) with (Zpos mf * 2 ^ k * 2 ^ (e + K)).
      2:{ rewrite <- !Z.mul_assoc, <- !Z.pow_add_r by lia. do 2 f_equal. lia. }
      rewrite <- Z.mul_sub_distr_r, Z.abs_mul.
      assert (PeK : 0 < 2 ^ (e + K)) by (apply Z.pow_pos_nonneg; lia).
      rewrite (Z.abs_eq (2 ^ (e + K))) by lia.
      replace (2 ^ (e + n1) * 2 ^ K) with (2 ^ n1 * 2 ^ (e + K)).
      2:{ rewrite <- !Z.pow_add_r by (unfold n1; lia). f_equal. lia. }
      rewrite Z.mul_assoc. apply Z.mul_le_mono_nonneg_r; lia.
Qed.

(** [float(z)]. *)
Lemma float_of_int_nearest z :
  0 < z -> Zdigits2 z <= 900 ->
  exists f c, float_of_int z = Ok f /\ fint (Prim2SF f) c /\ nearest53 z c.
Proof.
  intros Hz Dz.
  assert (Hprec : prec = 53) by reflexivity.
  assert (Hemax : emax = 1024) by reflexivity.
  assert (Hemin : emin = -1074) by reflexivity.
  assert (P53 : 2 ^ prec = 9007199254740992) by reflexivity.
  destruct (Z_lt_le_dec z (2 ^ prec)) as [Hs | Hb].
  - exists (fl z), z. split; [apply float_of_int_exact; lia|].
    split; [rewrite Prim2SF_fl by lia; apply fint_canon; lia | apply nearest53_small; lia].
  - unfold float_of_int.
    destruct z as [| p | p]; try lia. cbn [binary_normalize].
    unfold binary_round, shl_align.
    change (Zpos (digits2_pos p)) with (Zdigits2 (Zpos p)).
    assert (D54 : prec + 1 <= Zdigits2 (Zpos p)).
    { destruct (Z_le_gt_dec (prec + 1) (Zdigits2 (Zpos p))); [assumption|]. exfalso.
      pose proof (Zdigits2_upper (Zpos p) ltac:(lia)).
      assert (2 ^ Zdigits2 (Zpos p) <= 2 ^ prec) by (apply Z.pow_le_mono_r; lia). lia. }
    assert (F : fexp prec emax (Zdigits2 (Zpos p) + 0) - 0 = Zdigits2 (Zpos p) - prec)
      by (unfold fexp; lia).
    rewrite F.
    destruct (Zdigits2 (Zpos p) - prec) as [| d | d] eqn:Ed; try lia.
    destruct (round_value (Zpos p) 0 0 (Zpos p)) as (c & Hc & Hn); try lia.
    destruct Hc as (m & e & Ex & Dm & He & Em).
    rewrite Ex. cbn [sf_is_infinity].
    exists (SF2Prim (S754_finite false m e)), c.
    split; [reflexivity|].
    rewrite Prim2SF_SF2Prim by (apply valid_normal; [exact Dm | lia]).
    split; [| exact Hn].
    exists m, e. split; [reflexivity | split; [exact Dm | split; [lia | exact Em]]].
Qed.

Lemma shl_align_value m e ez :
  ez <= e -> Zpos (fst (shl_align m e ez)) = Zpos m * 2 ^ (e - ez).
Proof.
  intros H. unfold shl_align. destruct (ez - e) as [| d | d] eqn:Ed; cbn [fst].
  - replace (e - ez) with 0 by lia. rewrite Z.pow_0_r. lia.
  - lia.
  - rewrite iter_xO. f_equal. f_equal. lia.
Qed.

(** The sum of two integer doubles, at least [2^53]. *)
Lemma SFadd_nearest x y a b :
  fint x a -> fint y b -> 2 ^ prec <= a + b -> Zdigits2 (a + b) <= 900 ->
  exists c, fint (SF64add x y) c /\ nearest53 (a + b) c.
Proof.
  intros (mx & ex & -> & Dx & Hex & Ex) (my & ey & -> & Dy & Hey & Ey) Hab Dab.
  assert (Hprec : prec = 53) by reflexivity.
  assert (Hemax : emax = 1024) by reflexivity.
  assert (Hemin : emin = -1074) by reflexivity.
  unfold SF64add, SFadd. cbn [cond_Zopp].
  set (ez := Z.min ex ey).
  rewrite !shl_align_value by (unfold ez; lia).
  set (S := Zpos mx * 2 ^ (ex - ez) + Zpos my * 2 ^ (ey - ez)).
  assert (Px : 0 < 2 ^ (ex - ez)) by (apply Z.pow_pos_nonneg; unfold ez; lia).
  assert (Py : 0 < 2 ^ (ey - ez)) by (apply Z.pow_pos_nonneg; unfold ez; lia).
  pose proof (Zdigits2_lower (Zpos mx) ltac:(lia)) as Lx. rewrite Dx in Lx.
  assert (P52 : 2 ^ (prec - 1) = 4503599627370496) by reflexivity.
  assert (HS : 2 ^ (prec - 1) <= S) by (unfold S; nia).
  assert (ES : S * 2 ^ (ez + prec) = (a + b) * 2 ^ prec).
  { unfold S. rewrite Z.mul_add_distr_r, Z.mul_add_distr_r, <- Ex, <- Ey.
    rewrite <- !Z.mul_assoc, <- !Z.pow_add_r by (unfold ez; lia).
    do 2 f_equal; f_equal; lia. }
  assert (DS : prec <= Zdigits2 S).
  { destruct (Z_le_gt_dec prec (Zdigits2 S)); [assumption|]. exfalso.
    pose proof (Zdigits2_upper S ltac:(lia)).
    assert (2 ^ Zdigits2 S <= 2 ^ (prec - 1)) by (apply Z.pow_le_mono_r; lia). lia. }
  destruct S as [| p | p] eqn:ESp; try lia.
  cbn [binary_normalize]. unfold binary_round, shl_align.
  change (Zpos (digits2_pos p)) with (Zdigits2 (Zpos p)).
  assert (F : fexp prec emax (Zdigits2 (Zpos p) + ez) - ez = Zdigits2 (Zpos p) - prec).
  { unfold fexp. unfold ez in *. lia. }
  rewrite F.
  destruct (Zdigits2 (Zpos p) - prec) as [| d | d] eqn:Ed; try lia;
    apply (round_value (Zpos p) ez prec (a + b)); try lia; unfold ez; lia.
Qed.

(** The product of two integer doubles, at least [2^53]. *)
Lemma SFmul_nearest x y a b :
  fint x a -> fint y b -> 2 ^ prec <= a * b -> Zdigits2 (a * b) <= 900 ->
  exists c, fint (SF64mul x y) c /\ nearest53 (a * b) c.
Proof.
  intros (mx & ex & -> & Dx & Hex & Ex) (my & ey & -> & Dy & Hey & Ey) Hab Dab.
  assert (Hprec : prec = 53) by reflexivity.
  unfold SF64mul, SFmul. cbn [xorb]. rewrite Pos2Z.inj_mul.
  pose proof (Zdigits2_mul_lower (Zpos mx) (Zpos my) ltac:(lia) ltac:(lia)) as L.
  apply (round_value (Zpos mx * Zpos my) (ex + ey) (prec + prec) (a * b)); try lia.
  replace (ex + ey + (prec + prec)) with ((ex + prec) + (ey + prec)) by lia.
  rewrite (Z.pow_add_r 2 (ex + prec)), (Z.pow_add_r 2 prec prec) by lia.
  set (P := 2 ^ (ex + prec)) in *. set (Q := 2 ^ (ey + prec)) in *.
  set (R := 2 ^ prec) in *.
  transitivity ((Zpos mx * P) * (Zpos my * Q)); [ring|].
  rewrite Ex, Ey. ring.
Qed.

(** [3 * float(n)] for an even [n]: the product is exact below [2^54]. *)
Lemma SFmul_three n :
  0 < n -> n < 2 ^ prec -> 3 * n < 2 ^ (prec + 1) -> n mod 2 = 0 ->
  fint (SF64mul (canon 3) (canon n)) (3 * n).
Proof.
  intros Hn Hn53 H3 Hev.
  assert (Hprec : prec = 53) by reflexivity.
  assert (P53 : 2 ^ prec = 9007199254740992) by reflexivity.
  assert (P54 : 2 ^ (prec + 1) = 18014398509481984) by reflexivity.
  destruct (Z_lt_le_dec (3 * n) (2 ^ prec)) as [Hs | Hb].
  - rewrite SFmul_exact by lia. apply fint_canon. lia.
  - assert (D : Zdigits2 (3 * n) = prec + 1).
    { apply Zdigits2_unique; [lia|]. replace (prec + 1 - 1) with prec by lia. lia. }
    destruct (SFmul_nearest (canon 3) (canon n) 3 n) as (c & Hc & [[j Hj] Hn2]);
      [apply fint_canon; lia | apply fint_canon; lia | lia | lia |].
    rewrite D in Hj, Hn2. replace (Z.max 0 (prec + 1 - prec)) with 1 in Hj, Hn2 by lia.
    rewrite Z.pow_1_r in Hj, Hn2.
    apply Z.mod_divide in Hev; [| lia]. destruct Hev as [h Hh].
    assert (Ec : c = 3 * n) by lia. rewrite <- Ec. exact Hc.
Qed.

(** The quotient of two integer doubles, below [2^52]. *)
Lemma SFdiv_nearest x y a b :
  fint x a -> fint y b -> a < 2 ^ (prec - 1) * b ->
  exists mf k t,
    SF64div x y = S754_finite false mf (k - t)
    /\ Zdigits2 (Zpos mf) = prec /\ 0 <= k <= 1 /\ 0 <= t <= 2000
    /\ 2 ^ (prec - 1) * b <= a * 2 ^ t < 2 ^ prec * b
    /\ 2 * Z.abs (Zpos mf * 2 ^ k * b - a * 2 ^ t) <= b.
Proof.
  intros (m1 & e1 & -> & D1 & He1 & E1) (m2 & e2 & -> & D2 & He2 & E2) Hab.
  assert (Hprec : prec = 53) by reflexivity.
  assert (Hemax : emax = 1024) by reflexivity.
  assert (Hemin : emin = -1074) by reflexivity.
  assert (P52 : 2 ^ (prec - 1) = 4503599627370496) by reflexivity.
  assert (P53 : 2 ^ prec = 9007199254740992) by reflexivity.
  pose proof (Zdigits2_lower (Zpos m1) ltac:(lia)) as L1.
  pose proof (Zdigits2_upper (Zpos m1) ltac:(lia)) as U1.
  pose proof (Zdigits2_lower (Zpos m2) ltac:(lia)) as L2.
  pose proof (Zdigits2_upper (Zpos m2) ltac:(lia)) as U2.
  rewrite D1 in L1, U1. rewrite D2 in L2, U2.
  assert (Ha : 0 < a) by (apply (fint_pos (S754_finite false m1 e1));
                          exists m1, e1; repeat split; try assumption; lia).
  assert (Hb : 0 < b) by (apply (fint_pos (S754_finite false m2 e2));
                          exists m2, e2; repeat split; try assumption; lia).
  pose proof (fint_digits m1 e1 a ltac:(lia) D1 E1) as Da.
  pose proof (fint_digits m2 e2 b ltac:(lia) D2 E2) as Db.
  (* the exponents: e1 - e2 <= 52 *)
  assert (Hee : e1 - e2 <= prec - 1).
  { pose proof (Zdigits2_lower a Ha) as La.
    pose proof (Zdigits2_upper b ltac:(lia)) as Ub.
    destruct (Z_le_gt_dec (e1 - e2) (prec - 1)); [assumption|]. exfalso.
    assert (2 ^ (prec - 1) * 2 ^ Zdigits2 b <= 2 ^ (Zdigits2 a - 1)).
    { rewrite <- Z.pow_add_r by lia. apply Z.pow_le_mono_r; lia. }
    nia. }
  unfold SF64div, SFdiv, SFdiv_core_binary. cbn [xorb].
  rewrite D1, D2.
  replace (prec + e1 - (prec + e2)) with (e1 - e2) by lia.
  set (e' := e1 - e2 - prec).
  assert (F : Z.min (fexp prec emax (e1 - e2)) (e1 - e2) = e') by (unfold fexp, e'; lia).
  rewrite F.
  replace (e1 - e2 - e') with prec by (unfold e'; lia).
  change (match prec with
          | 0 => Zpos m1
          | Zpos _ => Z.shiftl (Zpos m1) prec
          | Zneg _ => 0
          end) with (Z.shiftl (Zpos m1) prec).
  rewrite Z.shiftl_mul_pow2 by lia.
  pose proof (Z_div_mod (Zpos m1 * 2 ^ prec) (Zpos m2) ltac:(lia)) as DM.
  destruct (Z.div_eucl (Zpos m1 * 2 ^ prec) (Zpos m2)) as [q0 r0].
  destruct DM as [Eq Hr].
  assert (Bq : 2 ^ (prec - 1) <= q0 < 2 ^ (prec + 1)).
  { rewrite Z.pow_add_r, Z.pow_1_r by lia. nia. }
  assert (Dq : prec <= Zdigits2 q0 <= prec + 1).
  { split.
    - destruct (Z_le_gt_dec prec (Zdigits2 q0)); [assumption|]. exfalso.
      pose proof (Zdigits2_upper q0 ltac:(lia)).
      assert (2 ^ Zdigits2 q0 <= 2 ^ (prec - 1)) by (apply Z.pow_le_mono_r; lia). lia.
    - apply Zdigits2_le; lia. }
  destruct (binary_round_aux_nearest false q0 e' (new_location (Zpos m2) r0)
              (Zpos m1 * 2 ^ prec) (Zpos m2))
    as (mf & k & E & Hk & Dm & B).
  - lia.
  - lia.
  - unfold e'. lia.
  - unfold e'. lia.
  - lia.
  - rewrite Eq. replace (Zpos m2 * q0 + r0) with (q0 * Zpos m2 + r0) by ring.
    apply new_location_located; lia.
  - set (n1 := Zdigits2 q0 - prec) in *.
    set (t := prec + e2 - e1 - n1).
    assert (Ht : 0 <= t) by (unfold t; lia).
    exists mf, (k - n1), t.
    split; [rewrite E; f_equal; unfold e', t; lia|].
    split; [exact Dm|]. split; [lia|]. split; [unfold t; lia|].
    (* back to the integers a and b *)
    assert (Pn : 0 < 2 ^ n1) by (apply Z.pow_pos_nonneg; lia).
    assert (Pt : 0 < 2 ^ t) by (apply Z.pow_pos_nonneg; lia).
    assert (Pe2 : 0 < 2 ^ (e2 + prec)) by (apply Z.pow_pos_nonneg; lia).
    assert (Pe1 : 0 < 2 ^ (e1 + prec)) by (apply Z.pow_pos_nonneg; lia).
    (* a * 2^t * 2^n1 * 2^(e1+prec) ... : relate through a common factor *)
    assert (Ea : a * 2 ^ (t + n1) * Zpos m2 = Zpos m1 * 2 ^ prec * b).
    { assert (G : a * 2 ^ prec * 2 ^ (t + n1) * (Zpos m2 * 2 ^ (e2 + prec))
                  = Zpos m1 * 2 ^ (e1 + prec) * 2 ^ (t + n1) * (b * 2 ^ prec))
        by (rewrite E1, E2; ring).
      replace (2 ^ (e1 + prec) * 1) with (2 ^ (e1 + prec)) in G by ring.
      assert (X1 : 2 ^ (e1 + prec) * 2 ^ (t + n1) = 2 ^ prec * 2 ^ (e2 + prec)).
      { rewrite <- !Z.pow_add_r by (unfold t; lia). f_equal. unfold t. lia. }
      assert (G' : (a * 2 ^ (t + n1) * Zpos m2) * (2 ^ prec * 2 ^ (e2 + prec))
                   = (Zpos m1 * 2 ^ prec * b) * (2 ^ prec * 2 ^ (e2 + prec))).
      { rewrite <- X1 at 2.
        transitivity (a * 2 ^ prec * 2 ^ (t + n1) * (Zpos m2 * 2 ^ (e2 + prec))); [ring|].
        rewrite G. ring. }
      apply Z.mul_cancel_r in G'; [exact G' | nia]. }
    rewrite Z.pow_add_r in Ea by lia.
    split.
    + (* the size *)
      assert (Q1 : q0 * Zpos m2 <= Zpos m1 * 2 ^ prec < (q0 + 1) * Zpos m2) by lia.
      assert (Bq' : 2 ^ (prec - 1) * 2 ^ n1 <= q0 < 2 ^ prec * 2 ^ n1).
      { pose proof (Zdigits2_lower q0 ltac:(lia)) as Lq.
        pose proof (Zdigits2_upper q0 ltac:(lia)) as Uq.
        replace (Zdigits2 q0 - 1) with (prec - 1 + n1) in Lq by (unfold n1; lia).
        replace (Zdigits2 q0) with (prec + n1) in Uq by (unfold n1; lia).
        rewrite Z.pow_add_r in Lq, Uq by lia. lia. }
      split.
      * apply (Z.mul_le_mono_pos_r _ _ (2 ^ n1 * Zpos m2)); [nia|].
        replace (a * 2 ^ t * (2 ^ n1 * Zpos m2)) with (a * (2 ^ t * 2 ^ n1) * Zpos m2) by ring.
        rewrite Ea.
        replace (2 ^ (prec - 1) * b * (2 ^ n1 * Zpos m2))
          with ((2 ^ (prec - 1) * 2 ^ n1 * Zpos m2) * b) by ring.
        apply Z.mul_le_mono_nonneg_r; [lia|]. nia.
      * apply (Z.mul_lt_mono_pos_r (2 ^ n1 * Zpos m2)); [nia|].
        replace (a * 2 ^ t * (2 ^ n1 * Zpos m2)) with (a * (2 ^ t * 2 ^ n1) * Zpos m2) by ring.
        rewrite Ea.
        replace (2 ^ prec * b * (2 ^ n1 * Zpos m2))
          with ((2 ^ prec * 2 ^ n1 * Zpos m2) * b) by ring.
        apply Z.mul_lt_mono_pos_r; [lia|]. nia.
    + (* the distance *)
      apply (Z.mul_le_mono_pos_r _ _ (2 ^ n1 * Zpos m2)); [nia|].
      rewrite <- Z.mul_assoc. rewrite <- (Z.abs_eq (2 ^ n1 * Zpos m2)) at 1 by nia.
      rewrite <- Z.abs_mul.
      replace ((Zpos mf * 2 ^ (k - n1) * b - a * 2 ^ t) * (2 ^ n1 * Zpos m2))
        with ((Zpos mf * (2 ^ (k - n1) * 2 ^ n1) * Zpos m2) * b
              - a * (2 ^ t * 2 ^ n1) * Zpos m2) by ring.
      rewrite Ea, <- Z.pow_add_r by lia.
      replace (k - n1 + n1) with k by lia.
      rewrite <- Z.mul_sub_distr_r, Z.abs_mul, (Z.abs_eq b) by lia.
      replace (b * (2 ^ n1 * Zpos m2)) with (2 ^ n1 * Zpos m2 * b) by ring.
      rewrite Z.mul_assoc. apply Z.mul_le_mono_nonneg_r; [lia|].
      exact B.
Qed.

(** ** Rounding integers to 53 bits *)

Lemma nearest53_at z c k :
  0 <= k -> 2 ^ (52 + k) <= z < 2 ^ (53 + k) -> nearest53 z c ->
  exists j, c = j * 2 ^ k /\ 2 * Z.abs (c - z) <= 2 ^ k.
Proof.
  intros Hk Hz [[j Hj] Hd].
  assert (P : 0 < 2 ^ (52 + k)) by (apply Z.pow_pos_nonneg; lia).
  assert (D : Zdigits2 z = 53 + k).
  { apply Zdigits2_unique; [lia|]. replace (53 + k - 1) with (52 + k) by lia. exact Hz. }
  rewrite D in Hj, Hd. change prec with 53 in Hj, Hd.
  replace (Z.max 0 (53 + k - 53)) with k in Hj, Hd by lia.
  exists j. split; assumption.
Qed.

Lemma nearest53_le z c k :
  0 <= k -> 0 < z < 2 ^ (53 + k) -> nearest53 z c -> 2 * Z.abs (c - z) <= 2 ^ k.
Proof.
  intros Hk Hz [_ Hd].
  assert (D : Zdigits2 z <= 53 + k) by (apply Zdigits2_le; lia).
  change prec with 53 in Hd.
  assert (2 ^ Z.max 0 (Zdigits2 z - 53) <= 2 ^ k) by (apply Z.pow_le_mono_r; lia).
  lia.
Qed.

Lemma nearest53_rel z c :
  0 < z -> nearest53 z c -> 2 ^ 53 * Z.abs (c - z) <= z.
Proof.
  intros Hz [_ Hd]. change prec with 53 in Hd.
  pose proof (Zdigits2_lower z Hz) as L.
  destruct (Z_le_gt_dec (Zdigits2 z) 53) as [Hs | Hb].
  - rewrite Z.max_l in Hd by lia. cbn [Z.pow] in Hd.
    assert (c = z) by lia. subst c. rewrite Z.sub_diag. cbn. lia.
  - rewrite Z.max_r in Hd by lia.
    replace (Zdigits2 z - 1) with (52 + (Zdigits2 z - 53)) in L by lia.
    rewrite Z.pow_add_r in L by lia.
    set (g := 2 ^ (Zdigits2 z - 53)) in *.
    change (2 ^ 52) with 4503599627370496 in L.
    change (2 ^ 53) with 9007199254740992. lia.
Qed.

Lemma nearest53_cases z c k :
  0 <= k -> 2 ^ (52 + k) <= z < 2 ^ (55 + k) -> nearest53 z c ->
  (z < 2 ^ (53 + k) /\ exists j, c = j * 2 ^ k /\ 2 * Z.abs (c - z) <= 2 ^ k)
  \/ (2 ^ (53 + k) <= z < 2 ^ (54 + k)
      /\ exists j, c = j * 2 ^ (k + 1) /\ 2 * Z.abs (c - z) <= 2 ^ (k + 1))
  \/ (2 ^ (54 + k) <= z
      /\ exists j, c = j * 2 ^ (k + 2) /\ 2 * Z.abs (c - z) <= 2 ^ (k + 2)).
Proof.
  intros Hk Hz Hn.
  destruct (Z_lt_le_dec z (2 ^ (53 + k))) as [H1 | H1].
  - left. split; [exact H1|]. apply nearest53_at; [lia | lia | exact Hn].
  - destruct (Z_lt_le_dec z (2 ^ (54 + k))) as [H2 | H2].
    + right. left. split; [lia|].
      apply nearest53_at; [lia | | exact Hn].
      replace (52 + (k + 1)) with (53 + k) by lia.
      replace (53 + (k + 1)) with (54 + k) by lia. lia.
    + right. right. split; [exact H2|].
      apply nearest53_at; [lia | | exact Hn].
      replace (52 + (k + 2)) with (54 + k) by lia.
      replace (53 + (k + 2)) with (55 + k) by lia. lia.
Qed.

Ltac pow_goal :=
  repeat match goal with
  | |- context [2 ^ ?e] =>
      let v := eval vm_compute in (2 ^ e) in change (2 ^ e) with v
  end.

Ltac pow_in H :=
  repeat match type of H with
  | context [2 ^ ?e] =>
      let v := eval vm_compute in (2 ^ e) in change (2 ^ e) with v in H
  end.

Ltac by_cases H k :=
  let H1 := fresh "Hz" in
  let j := fresh "j" in
  let Hj := fresh "Hj" in
  let Hd := fresh "Hd" in
  apply (fun Hb => nearest53_cases _ _ k ltac:(lia) Hb) in H;
  [ destruct H as [[H1 (j & Hj & Hd)] | [[H1 (j & Hj & Hd)] | [H1 (j & Hj & Hd)]]];
    pow_in H1; pow_in Hj; pow_in Hd
  | pow_goal ].

(** ** The first Newton step on balanced reserves, on integers *)

(** The standard variant, [ann = 300]. *)
Lemma balanced_step_300 n TP A TQ B num :
  2 ^ 53 <= 302 * n -> 302 * n < 2 ^ 60 ->
  nearest53 (300 * n) TP -> nearest53 (TP + 2 * n) A ->
  nearest53 (299 * n) TQ -> nearest53 (TQ + 3 * n) B ->
  nearest53 (n * A) num ->
  0 < B /\ 4 * Z.abs (num - n * B) < 3 * B.
Proof.
  intros Hlo Hhi HP HA HQ HB Hnum.
  change (2 ^ 53) with 9007199254740992 in Hlo.
  change (2 ^ 60) with 1152921504606846976 in Hhi.
  destruct (Z_lt_le_dec (302 * n) 576460752303423488) as [Hs | Hb].
  - (* below 2^59: the four roundings lose at most 32 each *)
    assert (E1 : 2 * Z.abs (TP - 300 * n) <= 64).
    { apply (nearest53_le _ _ 6) in HP; [exact HP | lia |].
      change (2 ^ (53 + 6)) with 576460752303423488. lia. }
    assert (E4 : 2 * Z.abs (TQ - 299 * n) <= 64).
    { apply (nearest53_le _ _ 6) in HQ; [exact HQ | lia |].
      change (2 ^ (53 + 6)) with 576460752303423488. lia. }
    assert (E2 : 2 * Z.abs (A - (TP + 2 * n)) <= 64).
    { destruct (Z_lt_le_dec (TP + 2 * n) 576460752303423488) as [H1 | H1].
      - apply (nearest53_le _ _ 6) in HA; [exact HA | lia |].
        change (2 ^ (53 + 6)) with 576460752303423488. lia.
      - apply (nearest53_at _ _ 7) in HA; [| lia |].
        + destruct HA as (j & Hj & Hd). change (2 ^ 7) with 128 in Hj, Hd. lia.
        + change (2 ^ (52 + 7)) with 576460752303423488.
          change (2 ^ (53 + 7)) with 1152921504606846976. lia. }
    assert (E5 : 2 * Z.abs (B - (TQ + 3 * n)) <= 64).
    { destruct (Z_lt_le_dec (TQ + 3 * n) 576460752303423488) as [H1 | H1].
      - apply (nearest53_le _ _ 6) in HB; [exact HB | lia |].
        change (2 ^ (53 + 6)) with 576460752303423488. lia.
      - apply (nearest53_at _ _ 7) in HB; [| lia |].
        + destruct HB as (j & Hj & Hd). change (2 ^ 7) with 128 in Hj, Hd. lia.
        + change (2 ^ (52 + 7)) with 576460752303423488.
          change (2 ^ (53 + 7)) with 1152921504606846976. lia. }
    apply nearest53_rel in Hnum; [| apply Z.mul_pos_pos; lia].
    change (2 ^ 53) with 9007199254740992 in Hnum.
    split; [lia|].
    assert (U : n * A <= n * 576460752303423552) by (apply Z.mul_le_mono_nonneg_l; lia).
    assert (V : Z.abs (n * (A - B)) <= n * 128).
    { rewrite Z.abs_mul, (Z.abs_eq n) by lia. apply Z.mul_le_mono_nonneg_l; lia. }
    replace (num - n * B) with ((num - n * A) + n * (A - B)) by ring.
    lia.
  - (* the last binade: the roundings stay on the grid of 128 *)
    assert (G : -128 <= A - B <= 128 /\ 302 * n - 128 <= B /\ A <= 302 * n + 128
                /\ exists i, A - B = i * 128).
    { by_cases HP 6; [| | | lia].
      all: by_cases HQ 6; try lia.
      all: by_cases HA 6; try lia.
      all: by_cases HB 6; try lia.
      all: split; [lia | split; [lia | split; [lia|]]].
      all: first [ exists (j1 - j2); lia | exists (2 * j1 - j2); lia
                 | exists (j1 - 2 * j2); lia | exists (2 * j1 - 2 * j2); lia
                 | exists (4 * j1 - j2); lia | exists (j1 - 4 * j2); lia
                 | exists (4 * j1 - 2 * j2); lia | exists (2 * j1 - 4 * j2); lia
                 | exists (4 * j1 - 4 * j2); lia | idtac ]. }
    destruct G as (G1 & G2 & G3 & i & Gi).
    assert (HnA : 2 ^ (52 + 57) <= n * A < 2 ^ (55 + 57)).
    { change (2 ^ (52 + 57)) with 649037107316853453566312041152512.
      change (2 ^ (55 + 57)) with 5192296858534827628530496329220096.
      assert (1908810438090806 <= n) by lia.
      assert (n <= 3817620876181613) by lia.
      assert (576460752303423300 <= A) by lia.
      assert (A <= 1152921504606847104) by lia.
      split.
      - assert (1908810438090806 * 576460752303423300 <= n * A)
          by (apply Z.mul_le_mono_nonneg; lia). lia.
      - assert (n * A <= 3817620876181613 * 1152921504606847104)
          by (apply Z.mul_le_mono_nonneg; lia). lia. }
    assert (Ei : i = -1 \/ i = 0 \/ i = 1) by lia.
    assert (EnB : n * B = n * A - i * (128 * n))
      by (replace B with (A - i * 128) by lia; ring).
    split; [lia|].
    rewrite EnB.
    by_cases Hnum 57; [| | | exact HnA].
    + lia.
    + lia.
    + (* the product is at least 2^111: n is at least 2^51.38 *)
      assert (Hn : 2930000000000000 <= n).
      { destruct (Z_le_gt_dec 2930000000000000 n) as [| Hgt]; [assumption|]. exfalso.
        assert (n * A <= 2930000000000000 * (302 * 2930000000000000 + 128))
          by (apply Z.mul_le_mono_nonneg; lia).
        lia. }
      lia.
Qed.

(** The common variant, [ann = 150]. *)
Lemma balanced_step_150 n TP A TQ B num :
  2 ^ 53 <= 152 * n -> 152 * n < 2 ^ 59 ->
  nearest53 (150 * n) TP -> nearest53 (TP + 2 * n) A ->
  nearest53 (149 * n) TQ -> nearest53 (TQ + 3 * n) B ->
  nearest53 (n * A) num ->
  0 < B /\ 4 * Z.abs (num - n * B) < 3 * B.
Proof.
  intros Hlo Hhi HP HA HQ HB Hnum.
  change (2 ^ 53) with 9007199254740992 in Hlo.
  change (2 ^ 59) with 576460752303423488 in Hhi.
  destruct (Z_lt_le_dec (152 * n) 288230376151711744) as [Hs | Hb].
  - (* below 2^58: the four roundings lose at most 16 each *)
    assert (E1 : 2 * Z.abs (TP - 150 * n) <= 32).
    { apply (nearest53_le _ _ 5) in HP; [exact HP | lia |].
      change (2 ^ (53 + 5)) with 288230376151711744. lia. }
    assert (E4 : 2 * Z.abs (TQ - 149 * n) <= 32).
    { apply (nearest53_le _ _ 5) in HQ; [exact HQ | lia |].
      change (2 ^ (53 + 5)) with 288230376151711744. lia. }
    assert (E2 : 2 * Z.abs (A - (TP + 2 * n)) <= 32).
    { destruct (Z_lt_le_dec (TP + 2 * n) 288230376151711744) as [H1 | H1].
      - apply (nearest53_le _ _ 5) in HA; [exact HA | lia |].
        change (2 ^ (53 + 5)) with 288230376151711744. lia.
      - apply (nearest53_at _ _ 6) in HA; [| lia |].
        + destruct HA as (j & Hj & Hd). change (2 ^ 6) with 64 in Hj, Hd. lia.
        + change (2 ^ (52 + 6)) with 288230376151711744.
          change (2 ^ (53 + 6)) with 576460752303423488. lia. }
    assert (E5 : 2 * Z.abs (B - (TQ + 3 * n)) <= 32).
    { destruct (Z_lt_le_dec (TQ + 3 * n) 288230376151711744) as [H1 | H1].
      - apply (nearest53_le _ _ 5) in HB; [exact HB | lia |].
        change (2 ^ (53 + 5)) with 288230376151711744. lia.
      - apply (nearest53_at _ _ 6) in HB; [| lia |].
        + destruct HB as (j & Hj & Hd). change (2 ^ 6) with 64 in Hj, Hd. lia.
        + change (2 ^ (52 + 6)) with 288230376151711744.
          change (2 ^ (53 + 6)) with 576460752303423488. lia. }
    apply nearest53_rel in Hnum; [| apply Z.mul_pos_pos; lia].
    change (2 ^ 53) with 9007199254740992 in Hnum.
    split; [lia|].
    assert (U : n * A <= n * 288230376151711776) by (apply Z.mul_le_mono_nonneg_l; lia).
    assert (V : Z.abs (n * (A - B)) <= n * 64).
    { rewrite Z.abs_mul, (Z.abs_eq n) by lia. apply Z.mul_le_mono_nonneg_l; lia. }
    replace (num - n * B) with ((num - n * A) + n * (A - B)) by ring.
    lia.
  - (* the last binade: the roundings stay on the grid of 64 *)
    assert (G : -64 <= A - B <= 64 /\ 152 * n - 64 <= B /\ A <= 152 * n + 64
                /\ exists i, A - B = i * 64).
    { by_cases HP 5; [| | | lia].
      all: by_cases HQ 5; try lia.
      all: by_cases HA 5; try lia.
      all: by_cases HB 5; try lia.
      all: split; [lia | split; [lia | split; [lia|]]].
      all: first [ exists (j1 - j2); lia | exists (2 * j1 - j2); lia
                 | exists (j1 - 2 * j2); lia | exists (2 * j1 - 2 * j2); lia
                 | exists (4 * j1 - j2); lia | exists (j1 - 4 * j2); lia
                 | exists (4 * j1 - 2 * j2); lia | exists (2 * j1 - 4 * j2); lia
                 | exists (4 * j1 - 4 * j2); lia | idtac ]. }
    destruct G as (G1 & G2 & G3 & i & Gi).
    assert (HnA : 2 ^ (52 + 56) <= n * A < 2 ^ (55 + 56)).
    { change (2 ^ (52 + 56)) with 324518553658426726783156020576256.
      change (2 ^ (55 + 56)) with 2596148429267413814265248164610048.
      assert (1896252474682314 <= n) by lia.
      assert (n <= 3792504949364629) by lia.
      assert (288230376151711600 <= A) by lia.
      assert (A <= 576460752303423552) by lia.
      split.
      - assert (1896252474682314 * 288230376151711600 <= n * A)
          by (apply Z.mul_le_mono_nonneg; lia). lia.
      - assert (n * A <= 3792504949364629 * 576460752303423552)
          by (apply Z.mul_le_mono_nonneg; lia). lia. }
    assert (Ei : i = -1 \/ i = 0 \/ i = 1) by lia.
    assert (EnB : n * B = n * A - i * (64 * n))
      by (replace B with (A - i * 64) by lia; ring).
    split; [lia|].
    rewrite EnB.
    by_cases Hnum 56; [| | | exact HnA].
    + lia.
    + lia.
    + (* the product is at least 2^110: n is at least 2^51.37 *)
      assert (Hn : 2900000000000000 <= n).
      { destruct (Z_le_gt_dec 2900000000000000 n) as [| Hgt]; [assumption|]. exfalso.
        assert (n * A <= 2900000000000000 * (152 * 2900000000000000 + 64))
          by (apply Z.mul_le_mono_nonneg; lia).
        lia. }
      lia.
Qed.

(** ** The rounded quotient of the first Newton step *)

(** The quotient of two integer doubles that lies within 3/4 of the integer
    [n]: rounded, it is within one of [n]. *)
Lemma SFdiv_close x y num B n :
  fint x num -> fint y B -> 2 <= n -> n + 1 <= 2 ^ 52 ->
  4 * Z.abs (num - n * B) < 3 * B ->
  exists mf ef,
    SF64div x y = S754_finite false mf ef
    /\ - prec <= ef < 0
    /\ Z.abs (Zpos mf - n * 2 ^ (- ef)) < 2 ^ (- ef).
Proof.
  intros Hx Hy Hn Hn52 Hc.
  assert (Hprec : prec = 53) by reflexivity.
  assert (P52 : 2 ^ (prec - 1) = 4503599627370496) by reflexivity.
  assert (P53 : 2 ^ prec = 9007199254740992) by reflexivity.
  change (2 ^ 52) with 4503599627370496 in Hn52.
  pose proof (fint_pos _ _ Hy) as HB.
  (* the size of the quotient *)
  assert (Hup : num < (n + 1) * B) by lia.
  assert (Hlo : B <= num) by nia.
  assert (Hlt : num < 2 ^ (prec - 1) * B) by nia.
  destruct (SFdiv_nearest x y num B Hx Hy Hlt)
    as (mf & k & t & E & Dm & Hk & Ht & Hsz & Hd).
  pose proof (Zdigits2_lower (Zpos mf) ltac:(lia)) as Lm. rewrite Dm, P52 in Lm.
  set (W := 2 ^ t) in *.
  assert (PW : 0 < W) by (apply Z.pow_pos_nonneg; lia).
  rewrite P52, P53 in Hsz.
  (* 1 <= t <= 52 *)
  assert (Ht1 : 1 <= t).
  { destruct (Z.eq_dec t 0) as [E0 | ]; [| lia]. exfalso.
    unfold W in *. rewrite E0 in *. cbn [Z.pow] in Hsz. lia. }
  assert (Ht52 : t <= 52).
  { destruct (Z_le_gt_dec t 52); [assumption|]. exfalso.
    assert (2 ^ 53 <= W) by (apply Z.pow_le_mono_r; lia).
    change (2 ^ 53) with 9007199254740992 in *. nia. }
  assert (W2 : exists h, W = 2 * h /\ h = 2 ^ (t - 1)).
  { exists (2 ^ (t - 1)). split; [| reflexivity]. unfold W.
    replace t with (1 + (t - 1)) at 1 by lia. rewrite Z.pow_add_r by lia. reflexivity. }
  destruct W2 as (h & EW & Eh).
  assert (Ph : 0 < h) by lia.
  (* the distance to n, in units of the last place *)
  set (M := Zpos mf * 2 ^ k - n * W).
  assert (HM : 4 * Z.abs M < 2 + 3 * W).
  { assert (EM : M * B = (Zpos mf * 2 ^ k * B - num * W) + W * (num - n * B))
      by (unfold M; ring).
    assert (T1 : Z.abs (M * B) <= Z.abs (Zpos mf * 2 ^ k * B - num * W)
                                  + W * Z.abs (num - n * B)).
    { rewrite EM. eapply Z.le_trans; [apply Z.abs_triangle|].
      rewrite Z.abs_mul, (Z.abs_eq W) by lia. lia. }
    assert (T2 : 4 * (W * Z.abs (num - n * B)) < 3 * (W * B)) by nia.
    rewrite Z.abs_mul, (Z.abs_eq B) in T1 by lia.
    assert (T3 : (4 * Z.abs M) * B < (2 + 3 * W) * B) by lia.
    apply Z.mul_lt_mono_pos_r in T3; assumption. }
  assert (Hk01 : k = 0 \/ k = 1) by lia.
  destruct Hk01 as [-> | ->].
  - exists mf, (- t). split; [rewrite E; f_equal|].
    split; [lia|].
    replace (- - t) with t by lia. fold W.
    unfold M in HM. rewrite Z.pow_0_r, Z.mul_1_r in HM. lia.
  - unfold M in HM. rewrite Z.pow_1_r in HM.
    assert (Ht2 : 2 <= t).
    { destruct (Z.eq_dec t 1) as [E1 | ]; [| lia]. exfalso.
      rewrite E1 in Eh. cbn in Eh. lia. }
    exists mf, (1 - t). split; [exact E|].
    split; [lia|].
    replace (- (1 - t)) with (t - 1) by lia. rewrite <- Eh.
    lia.
Qed.

Lemma fint_nonzero f N : fint (Prim2SF f) N -> PrimFloat.eqb f 0 = false.
Proof.
  intros (m & e & E & _). rewrite eqb_spec, E. reflexivity.
Qed.

(** ** Stable swap: balanced reserves up to the last binade *)

Lemma digits_small z : 0 <= z < 2 ^ 130 -> Zdigits2 z <= 900.
Proof.
  intros Hz. assert (Zdigits2 z <= 130) by (apply Zdigits2_le; lia). lia.
Qed.

(** A rounded integer of at least 53 bits keeps at least 53 bits. *)
Lemma nearest53_big z c : 2 ^ 53 <= z -> nearest53 z c -> 2 ^ 53 <= c.
Proof.
  intros Hz [[j Hj] Hd]. change prec with 53 in *.
  change (2 ^ 53) with 9007199254740992 in *.
  assert (D : 54 <= Zdigits2 z).
  { destruct (Z_le_gt_dec 54 (Zdigits2 z)); [assumption|]. exfalso.
    pose proof (Zdigits2_upper z ltac:(lia)).
    assert (2 ^ Zdigits2 z <= 2 ^ 53) by (apply Z.pow_le_mono_r; lia).
    change (2 ^ 53) with 9007199254740992 in *. lia. }
  rewrite Z.max_r in Hj, Hd by lia.
  pose proof (Zdigits2_lower z ltac:(lia)) as L.
  replace (Zdigits2 z - 1) with (52 + (Zdigits2 z - 53)) in L by lia.
  rewrite Z.pow_add_r in L by lia.
  change (2 ^ 52) with 4503599627370496 in L.
  set (g := 2 ^ (Zdigits2 z - 53)) in *.
  assert (Pg : 2 <= g).
  { unfold g. change 2 with (2 ^ 1) at 1. apply Z.pow_le_mono_r; lia. }
  (* c = j g >= z - g/2 > (2^52 - 1) g, so j >= 2^52 *)
  assert (Hj52 : 4503599627370496 <= j).
  { destruct (Z_le_gt_dec 4503599627370496 j); [assumption|]. exfalso.
    assert (j * g <= 4503599627370495 * g) by (apply Z.mul_le_mono_nonneg_r; lia).
    lia. }
  assert (4503599627370496 * 2 <= j * g) by (apply Z.mul_le_mono_nonneg; lia).
  lia.
Qed.

Lemma nearest53_exact z c : 0 < z < 2 ^ 53 -> nearest53 z c -> c = z.
Proof.
  intros Hz [_ Hd]. change prec with 53 in *.
  assert (Zdigits2 z <= 53) by (apply Zdigits2_le; lia).
  rewrite Z.max_l in Hd by lia. cbn [Z.pow] in Hd. lia.
Qed.

(** The first Newton step from [D = 2 r] on reserves [r, r], with its
    float operations read on the integers they round. *)
Lemma newton_D_step_balanced_rounded libm_pow ann r :
  2 <= ann <= 1000 -> 0 < r ->
  2 ^ 53 <= (ann + 2) * (r + r) -> r + r < 2 ^ 52 ->
  exists f x y TP A TQ B num,
    newton_D_step libm_pow ann (r + r) r r (PyInt (r + r)) = Ok (PyFloat f)
    /\ Prim2SF f = SF64div x y /\ fint x num /\ fint y B
    /\ nearest53 (ann * (r + r)) TP /\ nearest53 (TP + 2 * (r + r)) A
    /\ nearest53 ((ann - 1) * (r + r)) TQ /\ nearest53 (TQ + 3 * (r + r)) B
    /\ nearest53 ((r + r) * A) num.
Proof.
  intros Hann Hr Hlo Hhi.
  assert (Hprec : prec = 53) by reflexivity.
  assert (P53 : 2 ^ prec = 9007199254740992) by reflexivity.
  change (2 ^ 53) with 9007199254740992 in Hlo.
  change (2 ^ 52) with 4503599627370496 in Hhi.
  set (n := r + r) in *.
  assert (Hn : 0 < n < 2 ^ prec) by lia.
  set (P := ann * n). set (Q := (ann - 1) * n).
  assert (HP : 0 < P <= 1000 * n).
  { unfold P. split; [apply Z.mul_pos_pos; lia | apply Z.mul_le_mono_nonneg_r; lia]. }
  assert (HQ : 0 < Q <= 1000 * n).
  { unfold Q. split; [apply Z.mul_pos_pos; lia | apply Z.mul_le_mono_nonneg_r; lia]. }
  assert (HX : 9007199254740992 <= P + 2 * n /\ 9007199254740992 <= Q + 3 * n)
    by (unfold P, Q; lia).
  (* float(ann * s) and the left sum *)
  destruct (float_of_int_nearest P) as (fP & TP & EfP & FP & NP);
    [lia | apply digits_small; lia |].
  pose proof (nearest53_rel P TP ltac:(lia) NP) as RP.
  change (2 ^ 53) with 9007199254740992 in RP.
  pose proof (fint_pos _ _ FP) as PTP.
  assert (S1 : 9007199254740992 <= TP + n * 2).
  { destruct (Z_lt_le_dec P 9007199254740992) as [Hs | Hb].
    - rewrite (nearest53_exact P TP) by (try exact NP; change (2 ^ 53) with 9007199254740992; lia).
      lia.
    - pose proof (nearest53_big P TP Hb NP) as G.
      change (2 ^ 53) with 9007199254740992 in G. lia. }
  destruct (SFadd_nearest (Prim2SF fP) (canon (n * 2)) TP (n * 2) FP)
    as (A & FA & NA); [apply fint_canon; lia | rewrite P53; exact S1
                       | apply digits_small; lia |].
  pose proof (fint_pos _ _ FA) as PA.
  pose proof (nearest53_big _ _ S1 NA) as BA.
  pose proof (nearest53_rel (TP + n * 2) A ltac:(lia) NA) as RA.
  change (2 ^ 53) with 9007199254740992 in RA, BA.
  (* the numerator *)
  assert (HnA : 9007199254740992 <= n * A < 2 ^ 130).
  { split.
    - assert (1 * 9007199254740992 <= n * A) by (apply Z.mul_le_mono_nonneg; lia). lia.
    - assert (n * A <= 9007199254740992 * 9007199254740992000)
        by (apply Z.mul_le_mono_nonneg; lia). lia. }
  destruct (SFmul_nearest (canon n) (SF64add (Prim2SF fP) (canon (n * 2))) n A)
    as (num & Fnum & Nnum); [apply fint_canon; lia | exact FA | lia
                             | apply digits_small; lia |].
  (* float((ann - 1) * d), 3 * d_p and the right sum *)
  destruct (float_of_int_nearest Q) as (fQ & TQ & EfQ & FQ & NQ);
    [lia | apply digits_small; lia |].
  pose proof (nearest53_rel Q TQ ltac:(lia) NQ) as RQ.
  change (2 ^ 53) with 9007199254740992 in RQ.
  pose proof (fint_pos _ _ FQ) as PTQ.
  assert (F3 : fint (SF64mul (canon 3) (canon n)) (3 * n)).
  { apply SFmul_three; [lia | lia | change (2 ^ (prec + 1)) with 18014398509481984; lia |].
    unfold n. replace (r + r) with (r * 2) by lia. apply Z.mod_mul. lia. }
  assert (S2 : 9007199254740992 <= TQ + 3 * n).
  { destruct (Z_lt_le_dec Q 9007199254740992) as [Hs | Hb].
    - rewrite (nearest53_exact Q TQ) by (try exact NQ; change (2 ^ 53) with 9007199254740992; lia).
      lia.
    - pose proof (nearest53_big Q TQ Hb NQ) as G.
      change (2 ^ 53) with 9007199254740992 in G. lia. }
  destruct (SFadd_nearest (Prim2SF fQ) (SF64mul (canon 3) (canon n)) TQ (3 * n) FQ F3)
    as (B & FB & NB); [rewrite P53; exact S2 | apply digits_small; lia |].
  exists (fl n * (fP + fl (n * 2)) / (fQ + fl 3 * fl n))%float.
  exists (SF64mul (canon n) (SF64add (Prim2SF fP) (canon (n * 2)))).
  exists (SF64add (Prim2SF fQ) (SF64mul (canon 3) (canon n))).
  exists TP, A, TQ, B, num.
  assert (Eden : Prim2SF (fQ + fl 3 * fl n)
                 = SF64add (Prim2SF fQ) (SF64mul (canon 3) (canon n))).
  { rewrite add_spec, mul_spec, !Prim2SF_fl by lia. reflexivity. }
  split; [| split; [| split; [exact Fnum | split; [exact FB|]]]].
  - unfold newton_D_step. cbn [PyNum.pow bind].
    replace (n ^ 3) with (n * (4 * r * r)) by (unfold n; ring).
    rewrite truediv_int_int by nia. rewrite bind_ok.
    rewrite mul_float_int by lia. rewrite bind_ok.
    unfold add at 1, arith. cbn [to_float]. fold P. rewrite EfP. cbn [bind].
    unfold mul at 1, arith. cbn [to_float].
    rewrite float_of_int_exact by assumption. cbn [bind].
    change (mul (PyInt (ann - 1)) (PyInt n)) with (@Ok pynum (PyInt ((ann - 1) * n))).
    cbn [bind].
    unfold mul at 1, arith. cbn [to_float].
    rewrite (float_of_int_exact 3) by lia. cbn [bind].
    unfold add at 1, arith. cbn [to_float]. fold Q. rewrite EfQ. cbn [bind].
    unfold truediv. cbn [to_float bind].
    rewrite (fint_nonzero _ B) by (rewrite Eden; exact FB).
    reflexivity.
  - rewrite div_spec, Eden, mul_spec, add_spec, !Prim2SF_fl by lia. reflexivity.
  - split; [exact NP|].
    split; [replace (2 * n) with (n * 2) by lia; exact NA|].
    split; [exact NQ | split; [exact NB | exact Nnum]].
Qed.

(** One Newton step from [D = 2 r] on reserves [r, r] stays within one unit
    of [2 r], and the loop test then holds, when the roundings of the step
    leave the quotient within 3/4 of [2 r]. *)
Lemma newton_D_step_balanced_within libm_pow ann r :
  2 <= ann <= 1000 -> 0 < r ->
  2 ^ 53 <= (ann + 2) * (r + r) -> r + r + 1 <= 2 ^ 52 ->
  (forall TP A TQ B num,
      nearest53 (ann * (r + r)) TP -> nearest53 (TP + 2 * (r + r)) A ->
      nearest53 ((ann - 1) * (r + r)) TQ -> nearest53 (TQ + 3 * (r + r)) B ->
      nearest53 ((r + r) * A) num ->
      0 < B /\ 4 * Z.abs (num - (r + r) * B) < 3 * B) ->
  exists f,
    newton_D_step libm_pow ann (r + r) r r (PyInt (r + r)) = Ok (PyFloat f)
    /\ close (PyFloat f) (PyInt (r + r)) = Ok true
    /\ within_one f (r + r) = true.
Proof.
  intros Hann Hr Hlo Hhi Hcore.
  assert (P52 : 2 ^ 52 = 4503599627370496) by reflexivity.
  assert (P53 : 2 ^ prec = 9007199254740992) by reflexivity.
  destruct (newton_D_step_balanced_rounded libm_pow ann r Hann Hr Hlo ltac:(lia))
    as (f & x & y & TP & A & TQ & B & num & Hstep & Rep & Fx & Fy
        & NP & NA & NQ & NB & Nnum).
  destruct (Hcore TP A TQ B num NP NA NQ NB Nnum) as [HB Hc].
  destruct (SFdiv_close x y num B (r + r) Fx Fy ltac:(lia) Hhi Hc)
    as (mf & ef & Ediv & Hef & Hclose).
  rewrite Ediv in Rep.
  exists f. split; [exact Hstep | split].
  - unfold close, PyNum.sub, arith. cbn [to_float bind].
    rewrite float_of_int_exact by lia. cbn [bind PyNum.abs lt_one].
    rewrite ltb_spec, abs_spec, sub_spec, Rep, Prim2SF_fl by lia.
    rewrite SFsub_close by (try assumption; lia). reflexivity.
  - unfold within_one. rewrite Rep.
    destruct ef as [| p | p] eqn:Ee; try lia.
    apply Z.ltb_lt. exact Hclose.
Qed.

(** On balanced reserves the solve stops after its first iteration, within
    one unit of [2 r], under the same condition. *)
Lemma get_d_balanced_within get_ann libm_pow self r :
  StableSwap.reserve_a self = Ok r ->
  StableSwap.reserve_b self = Ok r ->
  0 < r ->
  (exists f,
      newton_D_step libm_pow (get_ann self) (r + r) r r (PyInt (r + r)) = Ok (PyFloat f)
      /\ close (PyFloat f) (PyInt (r + r)) = Ok true
      /\ within_one f (r + r) = true) ->
  exists f,
    StableSwap._get_d get_ann libm_pow self = Ok (PyFloat f)
    /\ iterate (newton_D_step libm_pow (get_ann self) (r + r) r r) 1 (PyInt (r + r))
       = Ok (PyFloat f)
    /\ within_one f (r + r) = true.
Proof.
  intros Ha Hb Hr (f & Hstep & Hclose & Hwithin).
  exists f. split; [| split; [| exact Hwithin]].
  - rewrite (get_d_unfold get_ann libm_pow self r r Ha Hb).
    destruct (Z.eqb_spec (r + r) 0) as [| _]; [lia|].
    change 256%nat with (S 255). rewrite newton_unfold, Hstep, bind_ok, Hclose.
    reflexivity.
  - cbn [iterate]. rewrite Hstep. reflexivity.
Qed.

(** The standard variant: every [r] with [2 r (300 + 2) < 2^60]. *)
Lemma newton_D_step_balanced_300_binade libm_pow r :
  0 < r -> (r + r) * 302 < 2 ^ 60 ->
  exists f,
    newton_D_step libm_pow 300 (r + r) r r (PyInt (r + r)) = Ok (PyFloat f)
    /\ close (PyFloat f) (PyInt (r + r)) = Ok true
    /\ within_one f (r + r) = true.
Proof.
  intros Hr Hb.
  assert (P53 : 2 ^ prec = 9007199254740992) by reflexivity.
  change (2 ^ 60) with 1152921504606846976 in Hb.
  destruct (Z_lt_le_dec ((r + r) * (300 + 2)) (2 ^ prec)) as [Hs | Hl].
  - apply newton_D_step_balanced_close; [discriminate | exact Hr | exact Hs].
  - rewrite P53 in Hl. clear P53.
    apply newton_D_step_balanced_within;
      [lia | exact Hr | change (2 ^ 53) with 9007199254740992; lia
       | change (2 ^ 52) with 4503599627370496; lia |].
    intros TP A TQ B num NP NA NQ NB Nnum.
    apply (balanced_step_300 (r + r) TP A TQ B num); try assumption.
    + change (2 ^ 53) with 9007199254740992. lia.
    + change (2 ^ 60) with 1152921504606846976. lia.
Qed.

(** The common variant: every [r] with [2 r (150 + 2) < 2^59]. *)
Lemma newton_D_step_balanced_150_binade libm_pow r :
  0 < r -> (r + r) * 152 < 2 ^ 59 ->
  exists f,
    newton_D_step libm_pow 150 (r + r) r r (PyInt (r + r)) = Ok (PyFloat f)
    /\ close (PyFloat f) (PyInt (r + r)) = Ok true
    /\ within_one f (r + r) = true.
Proof.
  intros Hr Hb.
  assert (P53 : 2 ^ prec = 9007199254740992) by reflexivity.
  change (2 ^ 59) with 576460752303423488 in Hb.
  destruct (Z_lt_le_dec ((r + r) * (150 + 2)) (2 ^ prec)) as [Hs | Hl].
  - apply newton_D_step_balanced_close; [discriminate | exact Hr | exact Hs].
  - rewrite P53 in Hl. clear P53.
    apply newton_D_step_balanced_within;
      [lia | exact Hr | change (2 ^ 53) with 9007199254740992; lia
       | change (2 ^ 52) with 4503599627370496; lia |].
    intros TP A TQ B num NP NA NQ NB Nnum.
    apply (balanced_step_150 (r + r) TP A TQ B num); try assumption.
    + change (2 ^ 53) with 9007199254740992. lia.
    + change (2 ^ 59) with 576460752303423488. lia.
Qed.

(** The first step at a given reserve, by evaluation. *)
Ltac step_at libm_pow ann c :=
  let v := eval vm_compute in (newton_D_step libm_pow ann (c + c) c c (PyInt (c + c))) in
  lazymatch v with
  | Ok (PyFloat ?g) =>
      exists g; split; [vm_compute; reflexivity | split; vm_compute; reflexivity]
  end.

Ltac step_from libm_pow ann r lo count :=
  lazymatch count with
  | O => lia
  | S ?count' =>
      let H := fresh "Hne" in
      destruct (Z.eq_dec r lo) as [-> | H];
      [ step_at libm_pow ann lo
      | let lo' := eval vm_compute in (lo + 1) in
        step_from libm_pow ann r lo' count' ]
  end.

(** Past [2 r (300 + 2) = 2^60] the first 33 reserves still pass; the
    next one, 1908810438090840, is the first that does not. *)
Lemma newton_D_step_balanced_300_last libm_pow r :
  2 ^ 60 <= (r + r) * 302 -> r < 1908810438090840 ->
  exists f,
    newton_D_step libm_pow 300 (r + r) r r (PyInt (r + r)) = Ok (PyFloat f)
    /\ close (PyFloat f) (PyInt (r + r)) = Ok true
    /\ within_one f (r + r) = true.
Proof.
  intros Hl Hb. change (2 ^ 60) with 1152921504606846976 in Hl.
  step_from libm_pow 300 r 1908810438090807 33%nat.
Qed.

(** Past [2 r (150 + 2) = 2^59] the first 6 reserves still pass; the next
    one, 1896252474682321, is the first that does not. *)
Lemma newton_D_step_balanced_150_last libm_pow r :
  2 ^ 59 <= (r + r) * 152 -> r < 1896252474682321 ->
  exists f,
    newton_D_step libm_pow 150 (r + r) r r (PyInt (r + r)) = Ok (PyFloat f)
    /\ close (PyFloat f) (PyInt (r + r)) = Ok true
    /\ within_one f (r + r) = true.
Proof.
  intros Hl Hb. change (2 ^ 59) with 576460752303423488 in Hl.
  step_from libm_pow 150 r 1896252474682315 6%nat.
Qed.

(** The standard variant, up to the first reserve that misses. *)
Lemma newton_D_step_balanced_300 libm_pow r :
  0 < r -> r < 1908810438090840 ->
  exists f,
    newton_D_step libm_pow 300 (r + r) r r (PyInt (r + r)) = Ok (PyFloat f)
    /\ close (PyFloat f) (PyInt (r + r)) = Ok true
    /\ within_one f (r + r) = true.
Proof.
  intros Hr Hb.
  destruct (Z_lt_le_dec ((r + r) * 302) (2 ^ 60)) as [Hs | Hl].
  - apply newton_D_step_balanced_300_binade; assumption.
  - apply newton_D_step_balanced_300_last; assumption.
Qed.

(** The common variant, up to the first reserve that misses. *)
Lemma newton_D_step_balanced_150 libm_pow r :
  0 < r -> r < 1896252474682321 ->
  exists f,
    newton_D_step libm_pow 150 (r + r) r r (PyInt (r + r)) = Ok (PyFloat f)
    /\ close (PyFloat f) (PyInt (r + r)) = Ok true
    /\ within_one f (r + r) = true.
Proof.
  intros Hr Hb.
  destruct (Z_lt_le_dec ((r + r) * 152) (2 ^ 59)) as [Hs | Hl].
  - apply newton_D_step_balanced_150_binade; assumption.
  - apply newton_D_step_balanced_150_last; assumption.
Qed.

(** C5, as stated, fails, and the first reserves at which it fails are
    1908810438090840 for the standard variant and 1896252474682321 for the
    common one.  There the first iterate is the double [2 r - 1], resp.
    [2 r + 1], whatever the library's [pow]: one full unit from the start
    value [2 r], it does not meet the tolerance, the loop goes on, and with
    a correctly rounded [pow] it stops on that same double, one unit from
    [2 r].  Far beyond, on [r = 2^53 + 1], both variants stop after the
    first iteration on the double [2^54], which misses [2 r = 2^54 + 2] by
    two units (no double lies within one unit of it). *)
Lemma get_d_balanced_misses :
  (forall libm_pow,
      iterate (newton_D_step libm_pow 300 (2 * 1908810438090840)
                 1908810438090840 1908810438090840) 1
        (PyInt (2 * 1908810438090840)) = Ok (PyFloat 3817620876181679)
      /\ iterate (newton_D_step libm_pow 150 (2 * 1896252474682321)
                    1896252474682321 1896252474682321) 1
           (PyInt (2 * 1896252474682321)) = Ok (PyFloat 3792504949364643))
  /\ close (PyFloat 3817620876181679) (PyInt (2 * 1908810438090840)) = Ok false
  /\ close (PyFloat 3792504949364643) (PyInt (2 * 1896252474682321)) = Ok false
  /\ Standard._get_d rounded_pow (stable_pool 1908810438090840 1908810438090840)
     = Ok (PyFloat 3817620876181679)
  /\ Common._get_d rounded_pow (stable_pool 1896252474682321 1896252474682321)
     = Ok (PyFloat 3792504949364643)
  /\ within_one 3817620876181679 (2 * 1908810438090840) = false
  /\ within_one 3792504949364643 (2 * 1896252474682321) = false
  /\ to_int (PyFloat 3817620876181679) = Ok (2 * 1908810438090840 - 1)
  /\ to_int (PyFloat 3792504949364643) = Ok (2 * 1896252474682321 + 1)
  /\ (forall libm_pow,
         Standard._get_d libm_pow (stable_pool 9007199254740993 9007199254740993)
         = Ok (PyFloat 18014398509481984)
         /\ Common._get_d libm_pow (stable_pool 9007199254740993 9007199254740993)
            = Ok (PyFloat 18014398509481984))
  /\ within_one 18014398509481984 (2 * 9007199254740993) = false
  /\ to_int (PyFloat 18014398509481984) = Ok (2 * 9007199254740993 - 2).
Proof.
  split; [intros libm_pow; split; vm_compute; reflexivity|].
  repeat (split; [vm_compute; reflexivity|]).
  split; [intros libm_pow; split; vm_compute; reflexivity|].
  split; vm_compute; reflexivity.
Qed.

(** C5, amended.  For equal positive reserves [r] below 1908810438090840
    for the standard variant ([ann = 300]) and below 1896252474682321 for
    the common one ([ann = 150]), that is up to the first [r] at which the
    claim fails, [_get_d] stops after its first iteration on a double
    within one unit of [2 r]; the double is exactly [2 r] when moreover
    [4 r^2 (ann + 2) < 2^53].  The two bounds lie just past
    [2 r (ann + 2) = 2^60], resp. [2^59], where the sums of the step move
    to a coarser grid of doubles. *)
Theorem get_d_balanced :
  forall libm_pow self r,
    StableSwap.reserve_a self = Ok r ->
    StableSwap.reserve_b self = Ok r ->
    0 < r ->
    (r < 1908810438090840 ->
     exists f,
       Standard._get_d libm_pow self = Ok (PyFloat f)
       /\ iterate (newton_D_step libm_pow 300 (2 * r) r r) 1 (PyInt (2 * r))
          = Ok (PyFloat f)
       /\ within_one f (2 * r) = true
       /\ (4 * r * r * (300 + 2) < 2 ^ 53 -> represents f (2 * r)))
    /\ (r < 1896252474682321 ->
        exists f,
          Common._get_d libm_pow self = Ok (PyFloat f)
          /\ iterate (newton_D_step libm_pow 150 (2 * r) r r) 1 (PyInt (2 * r))
             = Ok (PyFloat f)
          /\ within_one f (2 * r) = true
          /\ (4 * r * r * (150 + 2) < 2 ^ 53 -> represents f (2 * r))).
Proof.
  intros libm_pow self r Ha Hb Hr.
  assert (Hprec : 2 ^ prec = 9007199254740992) by reflexivity.
  replace (2 * r) with (r + r) by lia.
  split; intros Hbound.
  - destruct (get_d_balanced_within Standard._get_ann libm_pow self r Ha Hb Hr)
      as (f & Hd & Hit & Hw).
    { apply newton_D_step_balanced_300; assumption. }
    exists f. split; [exact Hd | split; [exact Hit | split; [exact Hw|]]].
    intros Hexact. change (2 ^ 53) with (2 ^ prec) in Hexact.
    pose proof (get_d_balanced_exact Standard._get_ann libm_pow self r Ha Hb Hr) as He.
    unfold Standard._get_d in Hd. rewrite He in Hd; [| discriminate | exact Hexact].
    injection Hd as <-. apply fl_represents. nia.
  - destruct (get_d_balanced_within Common._get_ann libm_pow self r Ha Hb Hr)
      as (f & Hd & Hit & Hw).
    { apply newton_D_step_balanced_150; assumption. }
    exists f. split; [exact Hd | split; [exact Hit | split; [exact Hw|]]].
    intros Hexact. change (2 ^ 53) with (2 ^ prec) in Hexact.
    pose proof (get_d_balanced_exact Common._get_ann libm_pow self r Ha Hb Hr) as He.
    unfold Common._get_d in Hd. rewrite He in Hd; [| discriminate | exact Hexact].
    injection Hd as <-. apply fl_represents. nia.
Qed.

Lemma get_d_balanced_witness :
  (exists f,
      Standard._get_d rounded_pow (stable_pool 1500000000000000 1500000000000000)
      = Ok (PyFloat f)
      /\ within_one f 3000000000000000 = true)
  /\ (exists f,
         Common._get_d rounded_pow (stable_pool 1500000000000000 1500000000000000)
         = Ok (PyFloat f)
         /\ within_one f 3000000000000000 = true).
Proof.
  destruct (get_d_balanced rounded_pow (stable_pool 1500000000000000 1500000000000000)
              1500000000000000 eq_refl eq_refl) as [H1 H2]; [lia|].
  split.
  - destruct H1 as (f & Hd & _ & Hw & _); [lia|].
    exists f. split; [exact Hd | exact Hw].
  - destruct H2 as (f & Hd & _ & Hw & _); [lia|].
    exists f. split; [exact Hd | exact Hw].
Defined.
